(** * Deposit-sweep settlement of the tBTC v2 Bridge

    A shallow embedding of the Solidity contract [Bridge] (deposit reveal,
    SPV proof evaluation, sweep input/output processing and fee allocation)
    and of the TypeScript function [assembleDepositSweepTransaction], with
    the properties of the settlement engine proved over them.

    The contract is compiled with [pragma solidity 0.8.4]: every arithmetic
    operation on unsigned integers is checked and reverts with a panic on
    overflow, underflow or division by zero, and an array access out of
    range panics as well.  Those panics are part of the embedding. *)

From Stdlib Require Import ZArith List String Lia Bool.
From Stdlib Require Import Strings.Byte Strings.Ascii.
From stdpp Require Import base option list gmap.

Local Open Scope Z_scope.

(** ** Bytes *)

Abbreviation byte := Byte.byte.
Abbreviation bytes := (list Byte.byte).

#[global] Instance byte_eq_dec : EqDecision byte := Byte.byte_eq_dec.

Definition byteZ (b : byte) : Z := Z.of_N (Byte.to_N b).

(** The low eight bits of an integer. *)
Definition zbyte (z : Z) : byte :=
  match Byte.of_N (Z.to_N (Z.land z 0xff)) with
  | Some b => b
  | None => Byte.x00
  end.

(** The unsigned integer a byte string denotes, most significant byte
    first: the value of [uintN(bytesN)] in Solidity. *)
Definition beZ (bs : bytes) : Z :=
  fold_left (fun acc b => Z.shiftl acc 8 + byteZ b) bs 0.

(** Least significant byte first, Bitcoin's order for integer fields. *)
Definition leZ (bs : bytes) : Z := beZ (rev bs).

(** [encodeBE n z]: the [n] low bytes of [z], most significant first; what
    [abi.encodePacked] emits for a [uint(8n)], a [bytes n] or, with
    [n = 20], an [address]. *)
Fixpoint encodeBE (n : nat) (z : Z) : bytes :=
  match n with
  | O => []
  | S n' => encodeBE n' (Z.shiftr z 8) ++ [zbyte z]
  end.

Definition encodeLE (n : nat) (z : Z) : bytes := rev (encodeBE n z).

Definition nibble (c : ascii) : option Z :=
  let n := Z.of_nat (nat_of_ascii c) in
  if (48 <=? n) && (n <=? 57) then Some (n - 48)
  else if (97 <=? n) && (n <=? 102) then Some (n - 87)
  else if (65 <=? n) && (n <=? 70) then Some (n - 55)
  else None.

(** Hexadecimal literals, as in Solidity's [hex"76a9"]. *)
Fixpoint hex (s : string) : bytes :=
  match s with
  | String hi (String lo rest) =>
      match nibble hi, nibble lo with
      | Some h, Some l => zbyte (16 * h + l) :: hex rest
      | _, _ => []
      end
  | _ => []
  end.

Definition len (bs : bytes) : Z := Z.of_nat (length bs).

(** ** Reverts, panics and checked arithmetic *)

Inductive Error : Type :=
| Revert (reason : string)
| Panic (code : Z).

Inductive result (A : Type) : Type :=
| Ok (a : A)
| Err (e : Error).

Arguments Ok {A} a.
Arguments Err {A} e.

Definition bind {A B : Type} (r : result A) (k : A -> result B) : result B :=
  match r with
  | Ok a => k a
  | Err e => Err e
  end.

Notation "'let*' x ':=' e 'in' k" := (bind e (fun x => k))
  (at level 10, x name, e at level 100, k at level 200).
Notation "'let*' ' p ':=' e 'in' k" := (bind e (fun x => match x with p => k end))
  (at level 10, p pattern, e at level 100, k at level 200).
Notation "e ';;' k" := (bind e (fun _ => k))
  (at level 100, k at level 200, right associativity).

Definition require (cond : bool) (reason : string) : result unit :=
  if cond then Ok tt else Err (Revert reason).

Definition isOk {A : Type} (r : result A) : bool :=
  match r with Ok _ => true | Err _ => false end.

Definition PANIC_ARITHMETIC : Z := 0x11.
Definition PANIC_DIVISION_BY_ZERO : Z := 0x12.
Definition PANIC_ARRAY_OUT_OF_BOUNDS : Z := 0x32.

Definition MAX_UINT256 : Z :=
  0xffffffffffffffffffffffffffffffffffffffffffffffffffffffffffffffff.

Definition checked_add (a b : Z) : result Z :=
  if a + b <=? MAX_UINT256 then Ok (a + b) else Err (Panic PANIC_ARITHMETIC).

Definition checked_sub (a b : Z) : result Z :=
  if b <=? a then Ok (a - b) else Err (Panic PANIC_ARITHMETIC).

Definition checked_mul (a b : Z) : result Z :=
  if a * b <=? MAX_UINT256 then Ok (a * b) else Err (Panic PANIC_ARITHMETIC).

Definition checked_div (a b : Z) : result Z :=
  if b =? 0 then Err (Panic PANIC_DIVISION_BY_ZERO) else Ok (a / b).

(** [uint32(x)]: an explicit narrowing conversion truncates. *)
Definition uint32 (x : Z) : Z := x mod 2 ^ 32.

(** [a[i] = x] on a memory array. *)
Definition array_set {A : Type} (a : list A) (i : nat) (x : A) : result (list A) :=
  if decide (i < length a)%nat then Ok (<[i := x]> a)
  else Err (Panic PANIC_ARRAY_OUT_OF_BOUNDS).

Definition array_get (a : list Z) (i : nat) : result Z :=
  match a !! i with
  | Some x => Ok x
  | None => Err (Panic PANIC_ARRAY_OUT_OF_BOUNDS)
  end.

(** ** Data of the contract *)

(** [BitcoinTx.Info]: a Bitcoin transaction without its witness data. *)
Record BitcoinTxInfo : Type := {
  version : Z;              (* bytes4 *)
  inputVector : bytes;
  outputVector : bytes;
  locktime : Z              (* bytes4 *)
}.

(** [BitcoinTx.Proof]: the SPV proof of a transaction. *)
Record BitcoinTxProof : Type := {
  merkleProof : bytes;
  txIndexInBlock : Z;       (* uint256 *)
  bitcoinHeaders : bytes
}.

Record RevealInfo : Type := {
  fundingOutputIndex : Z;   (* uint32 *)
  depositor : Z;            (* address *)
  blindingFactor : Z;       (* bytes8 *)
  walletPubKeyHash : Z;     (* bytes20 *)
  refundPubKeyHash : Z;     (* bytes20 *)
  refundLocktime : Z;       (* bytes4 *)
  vault : Z                 (* address *)
}.

Record DepositInfo : Type := {
  dDepositor : Z;           (* address depositor *)
  amount : Z;               (* uint64 *)
  revealedAt : Z;           (* uint32 *)
  dVault : Z;               (* address vault *)
  sweptAt : Z               (* uint32 *)
}.

Record SweepInfo : Type := {
  txHash : Z;               (* bytes32 *)
  txOutputValue : Z         (* uint64 *)
}.

(** The event [DepositRevealed]. *)
Record DepositRevealed : Type := {
  evFundingTxHash : Z;
  evFundingOutputIndex : Z;
  evDepositor : Z;
  evBlindingFactor : Z;
  evWalletPubKeyHash : Z;
  evRefundPubKeyHash : Z;
  evRefundLocktime : Z;
  evVault : Z
}.

(** Storage of the contract.  A Solidity mapping holds the zero value at
    every key that was never written: [getDeposit], [getSweep] and
    [vaultTrusted] read with that default. *)
Record State : Type := {
  owner : Z;
  isVaultTrusted : gmap Z bool;
  deposits : gmap Z DepositInfo;
  sweeps : gmap Z Z
}.

Definition emptyDeposit : DepositInfo :=
  {| dDepositor := 0; amount := 0; revealedAt := 0; dVault := 0; sweptAt := 0 |}.

Definition getDeposit (m : gmap Z DepositInfo) (key : Z) : DepositInfo :=
  default emptyDeposit (m !! key).

Definition getSweep (m : gmap Z Z) (wallet : Z) : Z := default 0 (m !! wallet).

Definition vaultTrusted (m : gmap Z bool) (v : Z) : bool := default false (m !! v).

(** What a call reads from outside the contract's storage: the immutable
    [txProofDifficultyFactor], the two difficulties of the relay,
    [block.timestamp] and [msg.sender]. *)
Record Env : Type := {
  txProofDifficultyFactor : Z;
  currentEpochDifficulty : Z;    (* relay.getCurrentEpochDifficulty() *)
  prevEpochDifficulty : Z;       (* relay.getPrevEpochDifficulty() *)
  timestamp : Z;                 (* block.timestamp *)
  sender : Z                     (* msg.sender *)
}.

(** ** The Bitcoin SPV library

    [BTCUtils], [BytesLib] and [ValidateSPV] are imported from the package
    [@keep-network/bitcoin-spv-sol]; together with the built-in
    [keccak256] they are the interface the contract is written against.
    A function of the library that can revert returns a [result]. *)
Class SpvLibrary : Type := {
  keccak256 : bytes -> Z;
  hash160 : bytes -> bytes;
  hash256 : bytes -> Z;
  parseVarInt : bytes -> result (Z * Z);
  validateVin : bytes -> result bool;
  validateVout : bytes -> result bool;
  extractOutputAtIndex : bytes -> Z -> result bytes;
  extractValue : bytes -> result Z;
  extractHash : bytes -> result bytes;
  extractInputTxIdLeAt : bytes -> Z -> result Z;
  extractTxIndexLeAt : bytes -> Z -> result Z;
  determineInputLengthAt : bytes -> Z -> result Z;
  reverseUint32 : Z -> Z;
  reverseUint64 : Z -> Z;
  extractMerkleRootLE : bytes -> result Z;
  extractTarget : bytes -> result Z;
  calculateDifficulty : Z -> result Z;
  toBytes32 : bytes -> result Z;
  prove : Z -> Z -> bytes -> Z -> result bool;
  validateHeaderChain : bytes -> result Z;
  getErrBadLength : Z;
  getErrInvalidChain : Z;
  getErrLowWork : Z
}.

(** ** The contract [Bridge] *)

Section Bridge.
Context {L : SpvLibrary}.

(** [keccak256(abi.encodePacked(txHash, outputIndex))], the key of a deposit
    in [deposits]: [txHash] is a [bytes32], the index a [uint32]. *)
Definition depositKey (fundingTxHash outputIndex : Z) : Z :=
  keccak256 (encodeBE 32 fundingTxHash ++ encodeBE 4 outputIndex).

(** [keccak256(abi.encodePacked(txHash, txOutputValue))], the value kept in
    [sweeps]: the output value is a [uint64]. *)
Definition sweepHash (sweepTxHash sweepTxOutputValue : Z) : Z :=
  keccak256 (encodeBE 32 sweepTxHash ++ encodeBE 8 sweepTxOutputValue).

(** [abi.encodePacked(tx.version, tx.inputVector, tx.outputVector,
    tx.locktime).hash256()] *)
Definition bitcoinTxHash (btx : BitcoinTxInfo) : Z :=
  hash256 (encodeBE 4 (version btx) ++ inputVector btx ++ outputVector btx
           ++ encodeBE 4 (locktime btx)).

(** [Ownable.onlyOwner] guards [setVaultStatus]. *)
Definition setVaultStatus (env : Env) (s : State) (vault_ : Z) (isTrusted : bool)
  : result State :=
  require (bool_decide (owner s = sender env)) "Ownable: caller is not the owner";;
  Ok {| owner := owner s;
        isVaultTrusted := <[vault_ := isTrusted]> (isVaultTrusted s);
        deposits := deposits s;
        sweeps := sweeps s |}.

(** The script a deposit must be locked with. *)
Definition expectedScript (reveal : RevealInfo) : bytes :=
  hex "14" ++ encodeBE 20 (depositor reveal)
  ++ hex "75"
  ++ hex "08" ++ encodeBE 8 (blindingFactor reveal)
  ++ hex "75"
  ++ hex "76"
  ++ hex "a9"
  ++ hex "14" ++ encodeBE 20 (walletPubKeyHash reveal)
  ++ hex "87"
  ++ hex "63"
  ++ hex "ac"
  ++ hex "67"
  ++ hex "76"
  ++ hex "a9"
  ++ hex "14" ++ encodeBE 20 (refundPubKeyHash reveal)
  ++ hex "88"
  ++ hex "04" ++ encodeBE 4 (refundLocktime reveal)
  ++ hex "b1"
  ++ hex "75"
  ++ hex "ac"
  ++ hex "68".

(** The comparison of the funding output's hash with the hash of the
    expected script, by the length of the former. *)
Definition checkScriptHash (fundingOutputHash script : bytes) : result unit :=
  if len fundingOutputHash =? 20 then
    require (keccak256 fundingOutputHash =? keccak256 (hash160 script))
            "Wrong 20-byte script hash"
  else if len fundingOutputHash =? 32 then
    let* h := toBytes32 fundingOutputHash in
    require (h =? hash256 script) "Wrong 32-byte script hash"
  else Err (Revert "Wrong script hash length").

(** [mload(add(fundingOutput, 32))] narrowed to [bytes8]: the first eight
    bytes of the output, its value field.  (An output shorter than eight
    bytes is completed with zero bytes here.) *)
Definition fundingOutputAmount (fundingOutput : bytes) : Z :=
  beZ (take 8 (fundingOutput ++ replicate 8 Byte.x00)).

Definition revealDeposit (env : Env) (s : State)
    (fundingTx : BitcoinTxInfo) (reveal : RevealInfo)
  : result (State * DepositRevealed) :=
  require ((vault reveal =? 0) || vaultTrusted (isVaultTrusted s) (vault reveal))
          "Vault is not trusted";;
  let* fundingOutput :=
    extractOutputAtIndex (outputVector fundingTx) (fundingOutputIndex reveal) in
  let* fundingOutputHash := extractHash fundingOutput in
  checkScriptHash fundingOutputHash (expectedScript reveal);;
  let fundingTxHash := bitcoinTxHash fundingTx in
  let key := depositKey fundingTxHash (fundingOutputIndex reveal) in
  let deposit := getDeposit (deposits s) key in
  require (revealedAt deposit =? 0) "Deposit already revealed";;
  let deposit' :=
    {| dDepositor := depositor reveal;
       amount := reverseUint64 (fundingOutputAmount fundingOutput);
       revealedAt := uint32 (timestamp env);
       dVault := vault reveal;
       sweptAt := sweptAt deposit |} in
  Ok ({| owner := owner s;
         isVaultTrusted := isVaultTrusted s;
         deposits := <[key := deposit']> (deposits s);
         sweeps := sweeps s |},
      {| evFundingTxHash := fundingTxHash;
         evFundingOutputIndex := fundingOutputIndex reveal;
         evDepositor := depositor reveal;
         evBlindingFactor := blindingFactor reveal;
         evWalletPubKeyHash := walletPubKeyHash reveal;
         evRefundPubKeyHash := refundPubKeyHash reveal;
         evRefundLocktime := refundLocktime reveal;
         evVault := vault reveal |}).

(** *** SPV proof *)

Definition evaluateProofDifficulty (env : Env) (headers : bytes) : result unit :=
  let currentDiff := currentEpochDifficulty env in
  let previousDiff := prevEpochDifficulty env in
  let* target := extractTarget headers in
  let* firstHeaderDiff := calculateDifficulty target in
  let* requestedDiff :=
    (if firstHeaderDiff =? currentDiff then Ok currentDiff
     else if firstHeaderDiff =? previousDiff then Ok previousDiff
     else Err (Revert "Not at current or previous difficulty")) in
  let* observedDiff := validateHeaderChain headers in
  require (negb (observedDiff =? getErrBadLength))
          "Invalid length of the headers chain";;
  require (negb (observedDiff =? getErrInvalidChain))
          "Invalid headers chain";;
  require (negb (observedDiff =? getErrLowWork))
          "Insufficient work in a header";;
  let* requiredDiff := checked_mul requestedDiff (txProofDifficultyFactor env) in
  require (requiredDiff <=? observedDiff)
          "Insufficient accumulated difficulty in header chain".

Definition checkProofFromTxHash (env : Env) (txHash_ : Z) (proof : BitcoinTxProof)
  : result unit :=
  let* root := extractMerkleRootLE (bitcoinHeaders proof) in
  let* proven := prove txHash_ root (merkleProof proof) (txIndexInBlock proof) in
  require proven "Tx merkle proof is not valid for provided header and tx hash";;
  evaluateProofDifficulty env (bitcoinHeaders proof).

Definition validateSweepTxProof (env : Env) (sweepTx : BitcoinTxInfo)
    (sweepProof : BitcoinTxProof) : result Z :=
  let* vinOk := validateVin (inputVector sweepTx) in
  require vinOk "Invalid input vector provided";;
  let* voutOk := validateVout (outputVector sweepTx) in
  require voutOk "Invalid output vector provided";;
  let sweepTxHash := bitcoinTxHash sweepTx in
  checkProofFromTxHash env sweepTxHash sweepProof;;
  Ok sweepTxHash.

(** *** Sweep output *)

Definition processSweepTxOutput (sweepTxOutputVector : bytes) : result (Z * Z) :=
  let* '(_, outputsCount) := parseVarInt sweepTxOutputVector in
  require (outputsCount =? 1) "Sweep transaction must have a single output";;
  let* output := extractOutputAtIndex sweepTxOutputVector 0 in
  let* value := extractValue output in
  let* walletPubKeyHashBytes := extractHash output in
  require (len walletPubKeyHashBytes =? 20)
          "Wallet public key hash should have 20 bytes";;
  Ok (beZ walletPubKeyHashBytes, value).

(** *** Sweep inputs *)

Definition parseTxInputAt (inputVector_ : bytes) (inputStartingIndex : Z)
  : result (Z * Z * Z) :=
  let* inputTxHash := extractInputTxIdLeAt inputVector_ inputStartingIndex in
  let* indexLe := extractTxIndexLeAt inputVector_ inputStartingIndex in
  let inputTxIndex := reverseUint32 indexLe in
  let* inputLength := determineInputLengthAt inputVector_ inputStartingIndex in
  Ok (inputTxHash, inputTxIndex, inputLength).

(** The variables the input loop of [processSweepTxInputs] works on,
    [deposits] being the storage mapping. *)
Record SweepLoop : Type := {
  lDeposits : gmap Z DepositInfo;
  lInputsValue : Z;
  lDepositors : list Z;
  lDepositedAmounts : list Z;
  lProcessedDepositsCount : nat;
  lPreviousSweepFlag : bool;
  lInputStartingIndex : Z
}.

(** One round of the loop, past the test for the end of the vector.  The
    counter [processedDepositsCount] cannot overflow: the array write
    before its increment succeeded. *)
Definition processSweepTxInput (env : Env) (sweepTxInputVector : bytes)
    (previousSweep : SweepInfo) (st : SweepLoop) : result SweepLoop :=
  let* '(inputTxHash, inputTxIndex, inputLength) :=
    parseTxInputAt sweepTxInputVector (lInputStartingIndex st) in
  let key := depositKey inputTxHash inputTxIndex in
  let deposit := getDeposit (lDeposits st) key in
  let* st' :=
    (if negb (revealedAt deposit =? 0) then
       require (sweptAt deposit =? 0) "Deposit already swept";;
       let deposit' :=
         {| dDepositor := dDepositor deposit;
            amount := amount deposit;
            revealedAt := revealedAt deposit;
            dVault := dVault deposit;
            sweptAt := uint32 (timestamp env) |} in
       let* depositors' :=
         array_set (lDepositors st) (lProcessedDepositsCount st) (dDepositor deposit) in
       let* depositedAmounts' :=
         array_set (lDepositedAmounts st) (lProcessedDepositsCount st) (amount deposit) in
       let* credited := array_get depositedAmounts' (lProcessedDepositsCount st) in
       let* inputsValue' := checked_add (lInputsValue st) credited in
       Ok {| lDeposits := <[key := deposit']> (lDeposits st);
             lInputsValue := inputsValue';
             lDepositors := depositors';
             lDepositedAmounts := depositedAmounts';
             lProcessedDepositsCount := S (lProcessedDepositsCount st);
             lPreviousSweepFlag := lPreviousSweepFlag st;
             lInputStartingIndex := lInputStartingIndex st |}
     else if negb (lPreviousSweepFlag st) && (txHash previousSweep =? inputTxHash) then
       let* inputsValue' :=
         checked_add (lInputsValue st) (txOutputValue previousSweep) in
       Ok {| lDeposits := lDeposits st;
             lInputsValue := inputsValue';
             lDepositors := lDepositors st;
             lDepositedAmounts := lDepositedAmounts st;
             lProcessedDepositsCount := lProcessedDepositsCount st;
             lPreviousSweepFlag := true;
             lInputStartingIndex := lInputStartingIndex st |}
     else Err (Revert "Unknown input type")) in
  let* next := checked_add (lInputStartingIndex st') inputLength in
  Ok {| lDeposits := lDeposits st';
        lInputsValue := lInputsValue st';
        lDepositors := lDepositors st';
        lDepositedAmounts := lDepositedAmounts st';
        lProcessedDepositsCount := lProcessedDepositsCount st';
        lPreviousSweepFlag := lPreviousSweepFlag st';
        lInputStartingIndex := next |}.

(** [for (uint256 i = 0; i < inputsCount; i++)], by the number of rounds
    left; the loop is left early at the end of the vector. *)
Fixpoint sweepInputsLoop (env : Env) (sweepTxInputVector : bytes)
    (previousSweep : SweepInfo) (rounds : nat) (st : SweepLoop) : result SweepLoop :=
  match rounds with
  | O => Ok st
  | S rounds' =>
      if len sweepTxInputVector <=? lInputStartingIndex st then Ok st
      else
        let* st' := processSweepTxInput env sweepTxInputVector previousSweep st in
        sweepInputsLoop env sweepTxInputVector previousSweep rounds' st'
  end.

Definition processSweepTxInputs (env : Env) (s : State)
    (sweepTxInputVector : bytes) (previousSweep : SweepInfo)
  : result (State * Z * list Z * list Z) :=
  let previousSweepFlag := txHash previousSweep =? 0 in
  let* '(inputsCompactSizeUintLength, inputsCount) := parseVarInt sweepTxInputVector in
  let* inputStartingIndex := checked_add 1 inputsCompactSizeUintLength in
  let* depositsCount :=
    (if previousSweepFlag then Ok inputsCount else checked_sub inputsCount 1) in
  let depositors := replicate (Z.to_nat depositsCount) 0 in
  let depositedAmounts := replicate (length depositors) 0 in
  let* st :=
    sweepInputsLoop env sweepTxInputVector previousSweep (Z.to_nat inputsCount)
      {| lDeposits := deposits s;
         lInputsValue := 0;
         lDepositors := depositors;
         lDepositedAmounts := depositedAmounts;
         lProcessedDepositsCount := O;
         lPreviousSweepFlag := previousSweepFlag;
         lInputStartingIndex := inputStartingIndex |} in
  require (lPreviousSweepFlag st)
          "Previous sweep output not present in sweep transaction inputs";;
  Ok ({| owner := owner s;
         isVaultTrusted := isVaultTrusted s;
         deposits := lDeposits st;
         sweeps := sweeps s |},
      lInputsValue st, lDepositors st, lDepositedAmounts st).

(** *** Sweep *)

(** [for (i = 0; i < depositedAmounts.length; i++) depositedAmounts[i] -= feeShare] *)
Fixpoint reduceByFeeShare (feeShare : Z) (depositedAmounts : list Z) : result (list Z) :=
  match depositedAmounts with
  | [] => Ok []
  | a :: rest =>
      let* a' := checked_sub a feeShare in
      let* rest' := reduceByFeeShare feeShare rest in
      Ok (a' :: rest')
  end.

(** The previous sweep [processSweepTxInputs] is given: the caller's data
    when a sweep is recorded for the wallet and the data hash to it, the
    empty data when none is recorded. *)
Definition resolvePreviousSweep (s : State) (walletPubKeyHash_ : Z)
    (previousSweep : SweepInfo) : result SweepInfo :=
  let previousSweepHash := getSweep (sweeps s) walletPubKeyHash_ in
  if negb (previousSweepHash =? 0) then
    require (sweepHash (txHash previousSweep) (txOutputValue previousSweep)
             =? previousSweepHash)
            "Invalid previous sweep data";;
    Ok previousSweep
  else Ok {| txHash := 0; txOutputValue := 0 |}.

(** [sweep] returns the new storage and the arguments of its call
    [bank.increaseBalances(depositors, depositedAmounts)]. *)
Definition sweep (env : Env) (s : State) (sweepTx : BitcoinTxInfo)
    (sweepProof : BitcoinTxProof) (previousSweep : SweepInfo)
  : result (State * (list Z * list Z)) :=
  let* sweepTxHash := validateSweepTxProof env sweepTx sweepProof in
  let* '(walletPubKeyHash_, sweepTxOutputValue) :=
    processSweepTxOutput (outputVector sweepTx) in
  let* resolvedPreviousSweep := resolvePreviousSweep s walletPubKeyHash_ previousSweep in
  let* '(s1, sweepTxInputsValue, depositors, depositedAmounts) :=
    processSweepTxInputs env s (inputVector sweepTx) resolvedPreviousSweep in
  let* fee := checked_sub sweepTxInputsValue sweepTxOutputValue in
  let* feeShare := checked_div fee (Z.of_nat (length depositedAmounts)) in
  let* credits := reduceByFeeShare feeShare depositedAmounts in
  Ok ({| owner := owner s1;
         isVaultTrusted := isVaultTrusted s1;
         deposits := deposits s1;
         sweeps := <[walletPubKeyHash_ := sweepHash sweepTxHash sweepTxOutputValue]>
                     (sweeps s1) |},
      (depositors, credits)).

(** *** Sequences of calls *)

Inductive Call : Type :=
| CallSetVaultStatus (vault_ : Z) (isTrusted : bool)
| CallRevealDeposit (fundingTx : BitcoinTxInfo) (reveal : RevealInfo)
| CallSweep (sweepTx : BitcoinTxInfo) (sweepProof : BitcoinTxProof)
            (previousSweep : SweepInfo).

Definition exec (env : Env) (s : State) (c : Call) : result State :=
  match c with
  | CallSetVaultStatus v t => setVaultStatus env s v t
  | CallRevealDeposit ftx r =>
      let* '(s', _) := revealDeposit env s ftx r in Ok s'
  | CallSweep stx p prev =>
      let* '(s', _) := sweep env s stx p prev in Ok s'
  end.

(** A call that reverts leaves the storage as it was. *)
Definition step (s : State) (ec : Env * Call) : State :=
  match exec (fst ec) s (snd ec) with
  | Ok s' => s'
  | Err _ => s
  end.

Definition run (s : State) (calls : list (Env * Call)) : State :=
  fold_left step calls s.

End Bridge.

(** ** The sweep transaction assembler (TypeScript)

    [assembleDepositSweepTransaction] and the functions it calls, over the
    interface of the packages it imports ([bitcoinjs-lib], [ecpair],
    [ethers] and the client library's own [./bitcoin], [./deposit]). *)

Module DepositSweep.

(** A JavaScript computation that may throw an [Error]. *)
Inductive outcome (A : Type) : Type :=
| Done (a : A)
| Throw (message : string).

Arguments Done {A} a.
Arguments Throw {A} message.

Definition andThen {A B : Type} (o : outcome A) (k : A -> outcome B) : outcome B :=
  match o with
  | Done a => k a
  | Throw m => Throw m
  end.

Notation "'do*' x ':=' e 'in' k" := (andThen e (fun x => k))
  (at level 10, x name, e at level 100, k at level 200).
Notation "'do*' ' p ':=' e 'in' k" := (andThen e (fun x => match x with p => k end))
  (at level 10, p pattern, e at level 100, k at level 200).

Inductive BitcoinNetwork : Type := Unknown | Testnet | Mainnet.

(** [UnspentTransactionOutput & RawTransaction] *)
Record Utxo : Type := {
  transactionHash : bytes;
  outputIndex : Z;
  value : Z;                     (* BigNumber *)
  transactionHex : string
}.

(** [Deposit], of [./deposit]. *)
Record Deposit : Type := {
  depositor : string;
  amount : Z;                    (* BigNumber *)
  blindingFactor : string;
  walletPublicKeyHash : string;
  refundPublicKeyHash : string;
  refundLocktime : string;
  vault : option string
}.

(** [bitcoinjs-lib]'s [TxOutput], [TxInput] and [Transaction]. *)
Record TxOutput : Type := {
  script : bytes;
  outValue : Z
}.

Record TxInput : Type := {
  hash : bytes;
  index : Z;
  sequence : Z;
  inScript : bytes;
  witness : list bytes
}.

Record Transaction : Type := {
  txVersion : Z;
  txLocktime : Z;
  ins : list TxInput;
  outs : list TxOutput
}.

(** An element of a decompiled script: an opcode or pushed data. *)
Inductive Chunk : Type :=
| Opcode (code : Z)
| Data (buffer : bytes).

Class BitcoinJs : Type := {
  Network : Type;
  Signer : Type;
  toBitcoinJsLibNetwork : BitcoinNetwork -> outcome Network;
  fromWIF : string -> Network -> outcome Signer;
  publicKey : Signer -> bytes;
  publicKeyHex : Signer -> string;              (* publicKey.toString("hex") *)
  publicKeyToAddress : bytes -> BitcoinNetwork -> bool -> string;
  createOutputScriptFromAddress : string -> bytes;
  toNumber : Z -> outcome Z;                    (* BigNumber.toNumber *)
  isHash256bit : bytes -> bool;                 (* typeforce of addInput *)
  isUInt32 : Z -> bool;
  isSatoshi : Z -> bool;                        (* typeforce of addOutput *)
  previousOutputOf : string -> Z -> outcome TxOutput;  (* Transaction.fromHex(hex).outs[i] *)
  isP2PKHScript : bytes -> bool;
  isP2WPKHScript : bytes -> bool;
  isP2SHScript : bytes -> bool;
  isP2WSHScript : bytes -> bool;
  p2pkhAddressOfKey : bytes -> Network -> string;
  p2wpkhAddressOfKey : bytes -> Network -> string;
  p2pkhAddressOfOutput : bytes -> Network -> outcome string;
  p2wpkhAddressOfOutput : bytes -> Network -> outcome string;
  p2pkhOutputOfHash : bytes -> bytes;
  p2pkhInput : bytes -> bytes -> bytes;
  hashForSignature : Transaction -> nat -> bytes -> Z -> bytes;
  hashForWitnessV0 : Transaction -> nat -> bytes -> Z -> Z -> bytes;
  sign : Signer -> bytes -> bytes;
  signatureEncode : bytes -> Z -> bytes;
  decompile : bytes -> option (list Chunk);
  compile : list bytes -> bytes;
  computeHash160 : string -> string;
  isCompressedPublicKey : string -> bool;
  assembleDepositScript : Deposit -> bytes;     (* reads the script parameters only *)
  getId : Transaction -> bytes;
  toHex : Transaction -> string
}.

Definition SIGHASH_ALL : Z := 1.
Definition DEFAULT_SEQUENCE : Z := 0xffffffff.

(** What the assembler returns. *)
Record AssembledSweep : Type := {
  sweepTransactionHash : bytes;
  newMainUtxoHash : bytes;
  newMainUtxoOutputIndex : Z;
  newMainUtxoValue : Z;
  rawTransaction : string
}.

Section Assembler.
Context {J : BitcoinJs}.

Definition newTransaction : Transaction :=
  {| txVersion := 1; txLocktime := 0; ins := []; outs := [] |}.

Definition addInput (t : Transaction) (h : bytes) (i : Z) : outcome Transaction :=
  if isHash256bit h && isUInt32 i then
    Done {| txVersion := txVersion t; txLocktime := txLocktime t;
            ins := ins t ++ [ {| hash := h; index := i; sequence := DEFAULT_SEQUENCE;
                                 inScript := []; witness := [] |} ];
            outs := outs t |}
  else Throw "Expected property of type Hash256bit or UInt32".

Definition addOutput (t : Transaction) (scriptPubKey : bytes) (v : Z)
  : outcome Transaction :=
  if isSatoshi v then
    Done {| txVersion := txVersion t; txLocktime := txLocktime t;
            ins := ins t;
            outs := outs t ++ [ {| script := scriptPubKey; outValue := v |} ] |}
  else Throw "Expected property of type Satoshi".

(** [transaction.ins[inputIndex].script = s] and
    [transaction.ins[inputIndex].witness = w]: a [TypeError] when the
    transaction has no such input. *)
Definition setInputScript (t : Transaction) (inputIndex : nat) (s : bytes)
  : outcome Transaction :=
  match ins t !! inputIndex with
  | Some i =>
      Done {| txVersion := txVersion t; txLocktime := txLocktime t;
              ins := <[inputIndex :=
                        {| hash := hash i; index := index i; sequence := sequence i;
                           inScript := s; witness := witness i |}]> (ins t);
              outs := outs t |}
  | None => Throw "TypeError: Cannot set properties of undefined"
  end.

Definition setInputWitness (t : Transaction) (inputIndex : nat) (w : list bytes)
  : outcome Transaction :=
  match ins t !! inputIndex with
  | Some i =>
      Done {| txVersion := txVersion t; txLocktime := txLocktime t;
              ins := <[inputIndex :=
                        {| hash := hash i; index := index i; sequence := sequence i;
                           inScript := inScript i; witness := w |}]> (ins t);
              outs := outs t |}
  | None => Throw "TypeError: Cannot set properties of undefined"
  end.

Definition ownsUtxo (keyPair : Signer) (prevOutScript : bytes)
    (bitcoinNetwork : BitcoinNetwork) : outcome bool :=
  do* network := toBitcoinJsLibNetwork bitcoinNetwork in
  let p2pkhAddress := p2pkhAddressOfKey (publicKey keyPair) network in
  let p2wpkhAddress := p2wpkhAddressOfKey (publicKey keyPair) network in
  match p2pkhAddressOfOutput prevOutScript network with
  | Done addressFromOutput =>
      Done (String.eqb addressFromOutput p2pkhAddress
            || String.eqb addressFromOutput p2wpkhAddress)
  | Throw _ =>
      match p2wpkhAddressOfOutput prevOutScript network with
      | Done addressFromOutput =>
          Done (String.eqb addressFromOutput p2pkhAddress
                || String.eqb addressFromOutput p2wpkhAddress)
      | Throw _ => Done false
      end
  end.

Definition signMainUtxoInput (transaction : Transaction) (inputIndex : nat)
    (previousOutput : TxOutput) (walletKeyPair : Signer)
    (bitcoinNetwork : BitcoinNetwork) : outcome Transaction :=
  do* owned := ownsUtxo walletKeyPair (script previousOutput) bitcoinNetwork in
  if negb owned then Throw "UTXO does not belong to the wallet"
  else
    let sigHashType := SIGHASH_ALL in
    if isP2PKHScript (script previousOutput) then
      let sigHash :=
        hashForSignature transaction inputIndex (script previousOutput) sigHashType in
      let signature := signatureEncode (sign walletKeyPair sigHash) sigHashType in
      let scriptSig := p2pkhInput signature (publicKey walletKeyPair) in
      setInputScript transaction inputIndex scriptSig
    else if isP2WPKHScript (script previousOutput) then
      match decompile (script previousOutput) with
      | Some [Opcode 0; Data publicKeyHash] =>
          if (length publicKeyHash =? 20)%nat then
            let p2pkhScript := p2pkhOutputOfHash publicKeyHash in
            let sigHash :=
              hashForWitnessV0 transaction inputIndex p2pkhScript
                               (outValue previousOutput) sigHashType in
            let signature := signatureEncode (sign walletKeyPair sigHash) sigHashType in
            setInputWitness transaction inputIndex [signature; publicKey walletKeyPair]
          else Throw "Invalid script format"
      | _ => Throw "Invalid script format"
      end
    else Throw "Unknown type of main UTXO".

Definition prepareDepositScript (deposit : Deposit) (previousOutputValue : Z)
    (walletKeyPair : Signer) : outcome bytes :=
  do* depositAmount := toNumber (amount deposit) in
  if negb (previousOutputValue =? depositAmount) then
    Throw "Mismatch between amount in deposit and deposit tx"
  else
    let walletPublicKey := publicKeyHex walletKeyPair in
    if negb (String.eqb (computeHash160 walletPublicKey) (walletPublicKeyHash deposit)) then
      Throw "Wallet public key does not correspond to wallet private key"
    else if negb (isCompressedPublicKey walletPublicKey) then
      Throw "Wallet public key must be compressed"
    else Done (assembleDepositScript deposit).

Definition signP2SHDepositInput (transaction : Transaction) (inputIndex : nat)
    (deposit : Deposit) (previousOutputValue : Z) (walletKeyPair : Signer)
  : outcome Transaction :=
  do* depositScript := prepareDepositScript deposit previousOutputValue walletKeyPair in
  let sigHashType := SIGHASH_ALL in
  let sigHash := hashForSignature transaction inputIndex depositScript sigHashType in
  let signature := signatureEncode (sign walletKeyPair sigHash) sigHashType in
  let scriptSig := [signature; publicKey walletKeyPair; depositScript] in
  setInputScript transaction inputIndex (compile scriptSig).

Definition signP2WSHDepositInput (transaction : Transaction) (inputIndex : nat)
    (deposit : Deposit) (previousOutputValue : Z) (walletKeyPair : Signer)
  : outcome Transaction :=
  do* depositScript := prepareDepositScript deposit previousOutputValue walletKeyPair in
  let sigHashType := SIGHASH_ALL in
  let sigHash :=
    hashForWitnessV0 transaction inputIndex depositScript previousOutputValue
                     sigHashType in
  let signature := signatureEncode (sign walletKeyPair sigHash) sigHashType in
  setInputWitness transaction inputIndex
                  [signature; publicKey walletKeyPair; depositScript].

(** [for (const utxo of utxos)]: one input per deposit UTXO, its value
    added to the output value. *)
Fixpoint addDepositInputs (utxos : list Utxo) (transaction : Transaction)
    (outputValue : Z) : outcome (Transaction * Z) :=
  match utxos with
  | [] => Done (transaction, outputValue)
  | utxo :: rest =>
      do* transaction' :=
        addInput transaction (rev (transactionHash utxo)) (outputIndex utxo) in
      addDepositInputs rest transaction' (outputValue + value utxo)
  end.

(** One round of the loop that signs the deposit inputs. *)
Definition signDepositInput (transaction : Transaction) (inputIndex : nat)
    (utxo : Utxo) (deposit : Deposit) (walletKeyPair : Signer)
  : outcome Transaction :=
  do* previousOutput := previousOutputOf (transactionHex utxo) (outputIndex utxo) in
  let previousOutputValue := outValue previousOutput in
  let previousOutputScript := script previousOutput in
  if isP2SHScript previousOutputScript then
    signP2SHDepositInput transaction inputIndex deposit previousOutputValue walletKeyPair
  else if isP2WSHScript previousOutputScript then
    signP2WSHDepositInput transaction inputIndex deposit previousOutputValue walletKeyPair
  else Throw "Unsupported UTXO script type".

(** [for (depositIndex = 0; depositIndex < deposits.length; depositIndex++)],
    over the pairs [(utxos[depositIndex], deposits[depositIndex])]; the two
    arrays have the same length when the loop is reached. *)
Fixpoint signDepositInputs (transaction : Transaction) (hasMainUtxo : bool)
    (depositIndex : nat) (pairs : list (Utxo * Deposit)) (walletKeyPair : Signer)
  : outcome Transaction :=
  match pairs with
  | [] => Done transaction
  | (utxo, deposit) :: rest =>
      let inputIndex := if hasMainUtxo then S depositIndex else depositIndex in
      do* transaction' :=
        signDepositInput transaction inputIndex utxo deposit walletKeyPair in
      signDepositInputs transaction' hasMainUtxo (S depositIndex) rest walletKeyPair
  end.

(** The transaction [assembleDepositSweepTransaction] builds and signs. *)
Definition assembleTransaction (bitcoinNetwork : BitcoinNetwork) (fee : Z)
    (walletPrivateKey : string) (witness_ : bool) (utxos : list Utxo)
    (deposits : list Deposit) (mainUtxo : option Utxo) : outcome Transaction :=
  if (length utxos <? 1)%nat then
    Throw "There must be at least one deposit UTXO to sweep"
  else if negb (length utxos =? length deposits)%nat then
    Throw "Number of UTXOs must equal the number of deposit elements"
  else
    do* network := toBitcoinJsLibNetwork bitcoinNetwork in
    do* walletKeyPair := fromWIF walletPrivateKey network in
    let walletAddress :=
      publicKeyToAddress (publicKey walletKeyPair) bitcoinNetwork witness_ in
    let transaction := newTransaction in
    let outputValue := 0 in
    do* '(transaction, outputValue) :=
      match mainUtxo with
      | Some m =>
          do* t := addInput transaction (rev (transactionHash m)) (outputIndex m) in
          Done (t, outputValue + value m)
      | None => Done (transaction, outputValue)
      end in
    do* '(transaction, outputValue) := addDepositInputs utxos transaction outputValue in
    let outputValue := outputValue - fee in
    let outputScript := createOutputScriptFromAddress walletAddress in
    do* outputNumber := toNumber outputValue in
    do* transaction := addOutput transaction outputScript outputNumber in
    do* transaction :=
      match mainUtxo with
      | Some m =>
          do* previousOutput := previousOutputOf (transactionHex m) (outputIndex m) in
          signMainUtxoInput transaction 0 previousOutput walletKeyPair bitcoinNetwork
      | None => Done transaction
      end in
    signDepositInputs transaction (bool_decide (is_Some mainUtxo)) 0
                      (combine utxos deposits) walletKeyPair.

Definition assembleDepositSweepTransaction (bitcoinNetwork : BitcoinNetwork)
    (fee : Z) (walletPrivateKey : string) (witness_ : bool) (utxos : list Utxo)
    (deposits : list Deposit) (mainUtxo : option Utxo) : outcome AssembledSweep :=
  do* transaction :=
    assembleTransaction bitcoinNetwork fee walletPrivateKey witness_ utxos deposits
                        mainUtxo in
  let transactionHash_ := getId transaction in
  match outs transaction !! 0%nat with
  | Some out0 =>
      Done {| sweepTransactionHash := transactionHash_;
              newMainUtxoHash := transactionHash_;
              newMainUtxoOutputIndex := 0;
              newMainUtxoValue := outValue out0;
              rawTransaction := toHex transaction |}
  | None => Throw "TypeError: Cannot read properties of undefined"
  end.

(** *** What the assembler is given and what it builds *)

(** The UTXOs a sweep spends, in the order of its inputs. *)
Definition sweepInputs (utxos : list Utxo) (mainUtxo : option Utxo) : list Utxo :=
  option_list mainUtxo ++ utxos.

(** The outpoint an input spends, as [addInput] is given it: the
    transaction hash in Bitcoin's internal byte order. *)
Definition utxoOutpoint (u : Utxo) : bytes * Z :=
  (rev (transactionHash u), outputIndex u).

Definition inputOutpoint (i : TxInput) : bytes * Z := (hash i, index i).

Definition totalValue (us : list Utxo) : Z := fold_right Z.add 0 (List.map value us).

(** The main UTXO passes the checks of [signMainUtxoInput]: its previous
    output is found, belongs to the wallet, and is a P2PKH script or a
    well-formed P2WPKH script. *)
Definition mainUtxoSignable (walletKeyPair : Signer) (bitcoinNetwork : BitcoinNetwork)
    (m : Utxo) : Prop :=
  exists previousOutput,
    previousOutputOf (transactionHex m) (outputIndex m) = Done previousOutput /\
    ownsUtxo walletKeyPair (script previousOutput) bitcoinNetwork = Done true /\
    (isP2PKHScript (script previousOutput) = true \/
     (isP2PKHScript (script previousOutput) = false /\
      isP2WPKHScript (script previousOutput) = true /\
      exists publicKeyHash,
        decompile (script previousOutput) = Some [Opcode 0; Data publicKeyHash] /\
        length publicKeyHash = 20%nat)).

(** A deposit UTXO passes the checks of the signing loop: its previous
    output is found and is P2SH or P2WSH, its value is the deposit's amount,
    and the wallet key is compressed and hashes to the deposit's wallet
    public key hash. *)
Definition depositSignable (walletKeyPair : Signer) (p : Utxo * Deposit) : Prop :=
  exists previousOutput,
    previousOutputOf (transactionHex (fst p)) (outputIndex (fst p)) = Done previousOutput /\
    (isP2SHScript (script previousOutput) = true \/
     isP2WSHScript (script previousOutput) = true) /\
    toNumber (amount (snd p)) = Done (outValue previousOutput) /\
    computeHash160 (publicKeyHex walletKeyPair) = walletPublicKeyHash (snd p) /\
    isCompressedPublicKey (publicKeyHex walletKeyPair) = true.

(** Signing touches the script or the witness of one input, nothing else. *)
Definition sameShape (t t' : Transaction) : Prop :=
  List.map inputOutpoint (ins t') = List.map inputOutpoint (ins t) /\
  outs t' = outs t /\
  length (ins t') = length (ins t).

End Assembler.
End DepositSweep.

(** ** A model of the SPV library

    The theorems on the contract hold for every implementation of
    [SpvLibrary].  To run the contract on concrete transactions, this
    module implements the interface: the parsers follow the Bitcoin wire
    format the way [BTCUtils] reads it (compact-size integers, inputs of
    36-byte outpoint, script and sequence, outputs of 8-byte value and
    script, 80-byte headers), and the three hash functions are replaced by
    simple stand-ins. *)

Module SpvModel.

Definition ERR_BAD_ARG : Z := MAX_UINT256.
Definition ERR_BAD_LENGTH : Z := MAX_UINT256.
Definition ERR_INVALID_CHAIN : Z := MAX_UINT256 - 1.
Definition ERR_LOW_WORK : Z := MAX_UINT256 - 2.
Definition DIFF1_TARGET : Z :=
  0xffff0000000000000000000000000000000000000000000000000000.

Definition slice (bs : bytes) (start n : Z) : result bytes :=
  if (0 <=? start) && (0 <=? n) && (start + n <=? len bs)
  then Ok (take (Z.to_nat n) (drop (Z.to_nat start) bs))
  else Err (Revert "Slice out of bounds").

Definition byteAt (bs : bytes) (i : Z) : result Z :=
  if i <? 0 then Err (Panic PANIC_ARRAY_OUT_OF_BOUNDS)
  else match bs !! Z.to_nat i with
       | Some b => Ok (byteZ b)
       | None => Err (Panic PANIC_ARRAY_OUT_OF_BOUNDS)
       end.

(** Stand-ins for the hash functions: a polynomial checksum of the bytes,
    cut to the size of the digest.  The digest of [hash256] ends in six
    zero bytes, so that read in Bitcoin's byte order it lies below the
    difficulty-1 target and every header carries enough work. *)
Definition checksum (bs : bytes) : Z :=
  fold_left (fun acc b => acc * 257 + byteZ b + 1) bs 0.

Definition keccak256 (bs : bytes) : Z := Z.land (checksum bs) (Z.ones 256).
Definition hash256 (bs : bytes) : Z := Z.shiftl (Z.land (checksum bs) (Z.ones 208)) 48.
Definition hash160 (bs : bytes) : bytes := encodeBE 20 (checksum bs).

Definition reverseUint32 (x : Z) : Z := leZ (encodeBE 4 x).
Definition reverseUint64 (x : Z) : Z := leZ (encodeBE 8 x).
Definition reverseUint256 (x : Z) : Z := leZ (encodeBE 32 x).

Definition determineVarIntDataLengthAt (b : bytes) (at_ : Z) : result Z :=
  let* flag := byteAt b at_ in
  Ok (if flag =? 0xff then 8 else if flag =? 0xfe then 4
      else if flag =? 0xfd then 2 else 0).

Definition parseVarIntAt (b : bytes) (at_ : Z) : result (Z * Z) :=
  let* dataLen := determineVarIntDataLengthAt b at_ in
  if dataLen =? 0 then
    let* flag := byteAt b at_ in Ok (0, flag)
  else if len b <? 1 + dataLen + at_ then Ok (ERR_BAD_ARG, 0)
  else
    let* digits := slice b (1 + at_) dataLen in
    Ok (dataLen, leZ digits).

Definition parseVarInt (b : bytes) : result (Z * Z) := parseVarIntAt b 0.

Definition extractScriptSigLenAt (input : bytes) (at_ : Z) : result (Z * Z) :=
  if len input <? 37 + at_ then Ok (ERR_BAD_ARG, 0)
  else parseVarIntAt input (at_ + 36).

Definition determineInputLengthAt (input : bytes) (at_ : Z) : result Z :=
  let* '(varIntDataLen, scriptSigLen) := extractScriptSigLenAt input at_ in
  if varIntDataLen =? ERR_BAD_ARG then Ok ERR_BAD_ARG
  else Ok (36 + 1 + varIntDataLen + scriptSigLen + 4).

Definition determineOutputLengthAt (output : bytes) (at_ : Z) : result Z :=
  if len output <? 9 + at_ then Ok ERR_BAD_ARG
  else
    let* '(varIntDataLen, scriptPubkeyLen) := parseVarIntAt output (8 + at_) in
    if varIntDataLen =? ERR_BAD_ARG then Ok ERR_BAD_ARG
    else Ok (8 + 1 + varIntDataLen + scriptPubkeyLen).

(** The walk over the elements of a vector that [validateVin] and
    [validateVout] share: [rounds] elements from [offset] on must end
    exactly at the end of the vector. *)
Fixpoint validateElements (lengthAt : bytes -> Z -> result Z) (v : bytes)
    (rounds : nat) (offset : Z) : result bool :=
  match rounds with
  | O => Ok (offset =? len v)
  | S rounds' =>
      if len v <=? offset then Ok false
      else
        let* nextLen := lengthAt v offset in
        if nextLen =? ERR_BAD_ARG then Ok false
        else
          let* offset' := checked_add offset nextLen in
          validateElements lengthAt v rounds' offset'
  end.

Definition validateVector (lengthAt : bytes -> Z -> result Z) (v : bytes)
  : result bool :=
  let* '(varIntDataLen, count) := parseVarInt v in
  if (count =? 0) || (varIntDataLen =? ERR_BAD_ARG) then Ok false
  else validateElements lengthAt v (Z.to_nat count) (1 + varIntDataLen).

Definition validateVin (vin : bytes) : result bool :=
  validateVector determineInputLengthAt vin.

Definition validateVout (vout : bytes) : result bool :=
  validateVector determineOutputLengthAt vout.

Definition extractInputTxIdLeAt (vin : bytes) (at_ : Z) : result Z :=
  let* s := slice vin at_ 32 in Ok (beZ s).

Definition extractTxIndexLeAt (vin : bytes) (at_ : Z) : result Z :=
  let* s := slice vin (at_ + 32) 4 in Ok (beZ s).

(** The offset of output [index], found by skipping the outputs before it. *)
Fixpoint outputOffset (vout : bytes) (skip : nat) (offset : Z) : result Z :=
  match skip with
  | O => Ok offset
  | S skip' =>
      let* l := determineOutputLengthAt vout offset in
      require (negb (l =? ERR_BAD_ARG)) "Bad VarInt in scriptPubkey";;
      let* offset' := checked_add offset l in
      outputOffset vout skip' offset'
  end.

Definition extractOutputAtIndex (vout : bytes) (index : Z) : result bytes :=
  let* '(varIntDataLen, nOuts) := parseVarInt vout in
  require (negb (varIntDataLen =? ERR_BAD_ARG)) "Read overrun during VarInt parsing";;
  require (index <? nOuts) "Vout read overrun";;
  let* offset := outputOffset vout (Z.to_nat index) (1 + varIntDataLen) in
  let* l := determineOutputLengthAt vout offset in
  require (negb (l =? ERR_BAD_ARG)) "Bad VarInt in scriptPubkey";;
  slice vout offset l.

Definition extractValue (output : bytes) : result Z :=
  let* s := slice output 0 8 in Ok (leZ s).

(** The hash an output script commits to: the 20 or 32 bytes of a witness
    program, the 20 bytes of a pay-to-public-key-hash or of a
    pay-to-script-hash script; empty for any other script. *)
Definition extractHash (output : bytes) : result bytes :=
  let* scriptLen := byteAt output 8 in
  if negb (scriptLen + 9 =? len output) then Ok []
  else
    let* first := byteAt output 9 in
    if first =? 0 then
      if scriptLen <? 2 then Ok []
      else
        let* payloadLen := byteAt output 10 in
        if negb (payloadLen =? scriptLen - 2)
           || (negb (payloadLen =? 0x20) && negb (payloadLen =? 0x14))
        then Ok []
        else slice output 11 payloadLen
    else
      let* tag := slice output 8 3 in
      if bool_decide (tag = hex "1976a9") then
        let* pushLen := byteAt output 11 in
        let* tail := slice output (len output - 2) 2 in
        if negb (pushLen =? 0x14) || negb (bool_decide (tail = hex "88ac")) then Ok []
        else slice output 12 20
      else if bool_decide (tag = hex "17a914") then
        let* last := byteAt output (len output - 1) in
        if negb (last =? 0x87) then Ok []
        else slice output 11 20
      else Ok [].

Definition toBytes32 (source : bytes) : result Z :=
  if len source =? 0 then Ok 0
  else Ok (beZ (take 32 (source ++ replicate 32 Byte.x00))).

Definition extractMerkleRootLE (header : bytes) : result Z :=
  let* s := slice header 36 32 in Ok (beZ s).

Definition extractPrevBlockLEAt (header : bytes) (at_ : Z) : result Z :=
  let* s := slice header (4 + at_) 32 in Ok (beZ s).

Definition extractTargetAt (header : bytes) (at_ : Z) : result Z :=
  let* m := slice header (72 + at_) 3 in
  let* e := byteAt header (75 + at_) in
  let mantissa := leZ m in
  let* exponent := checked_sub e 3 in
  checked_mul mantissa (256 ^ exponent).

Definition extractTarget (header : bytes) : result Z := extractTargetAt header 0.

Definition calculateDifficulty (target : Z) : result Z :=
  checked_div DIFF1_TARGET target.

Definition hash256MerkleStep (a b : Z) : Z :=
  hash256 (encodeBE 32 a ++ encodeBE 32 b).

Fixpoint merkleWalk (tree : bytes) (rounds : nat) (i idx current : Z) : result Z :=
  match rounds with
  | O => Ok current
  | S rounds' =>
      let* node := slice tree i 32 in
      let current' :=
        if idx mod 2 =? 1 then hash256MerkleStep (beZ node) current
        else hash256MerkleStep current (beZ node) in
      merkleWalk tree rounds' (i + 32) (idx / 2) current'
  end.

Definition verifyHash256Merkle (leaf : Z) (tree : bytes) (root index : Z)
  : result bool :=
  if negb (len tree mod 32 =? 0) then Ok false
  else if len tree =? 0 then Ok false
  else
    let* current := merkleWalk tree (Z.to_nat (len tree / 32)) 0 index leaf in
    Ok (current =? root).

Definition prove (txid merkleRoot : Z) (intermediateNodes : bytes) (index : Z)
  : result bool :=
  if (txid =? merkleRoot) && (index =? 0) && (len intermediateNodes =? 0)
  then Ok true
  else verifyHash256Merkle txid intermediateNodes merkleRoot index.

(** The headers from [start] on: each links to the digest of the one
    before and meets its own target; the difficulties add up. *)
Fixpoint headerWalk (headers : bytes) (rounds : nat) (start digest total : Z)
  : result Z :=
  match rounds with
  | O => Ok total
  | S rounds' =>
      let* prev := extractPrevBlockLEAt headers start in
      if negb (start =? 0) && negb (prev =? digest) then Ok ERR_INVALID_CHAIN
      else
        let* target := extractTargetAt headers start in
        let* header := slice headers start 80 in
        let digest' := hash256 header in
        if target <? reverseUint256 digest' then Ok ERR_LOW_WORK
        else
          let* difficulty := calculateDifficulty target in
          let* total' := checked_add total difficulty in
          headerWalk headers rounds' (start + 80) digest' total'
  end.

Definition validateHeaderChain (headers : bytes) : result Z :=
  if negb (len headers mod 80 =? 0) then Ok ERR_BAD_LENGTH
  else headerWalk headers (Z.to_nat (len headers / 80)) 0 0 0.

End SpvModel.

Definition modelSpv : SpvLibrary := {|
  keccak256 := SpvModel.keccak256;
  hash160 := SpvModel.hash160;
  hash256 := SpvModel.hash256;
  parseVarInt := SpvModel.parseVarInt;
  validateVin := SpvModel.validateVin;
  validateVout := SpvModel.validateVout;
  extractOutputAtIndex := SpvModel.extractOutputAtIndex;
  extractValue := SpvModel.extractValue;
  extractHash := SpvModel.extractHash;
  extractInputTxIdLeAt := SpvModel.extractInputTxIdLeAt;
  extractTxIndexLeAt := SpvModel.extractTxIndexLeAt;
  determineInputLengthAt := SpvModel.determineInputLengthAt;
  reverseUint32 := SpvModel.reverseUint32;
  reverseUint64 := SpvModel.reverseUint64;
  extractMerkleRootLE := SpvModel.extractMerkleRootLE;
  extractTarget := SpvModel.extractTarget;
  calculateDifficulty := SpvModel.calculateDifficulty;
  toBytes32 := SpvModel.toBytes32;
  prove := SpvModel.prove;
  validateHeaderChain := SpvModel.validateHeaderChain;
  getErrBadLength := SpvModel.ERR_BAD_LENGTH;
  getErrInvalidChain := SpvModel.ERR_INVALID_CHAIN;
  getErrLowWork := SpvModel.ERR_LOW_WORK
|}.

(** ** Concrete transactions

    Serialized inputs, outputs and headers for the examples below. *)

Module Wire.

(** An input with an empty unlocking script. *)
Definition input (txid index : Z) : bytes :=
  encodeBE 32 txid ++ encodeLE 4 index ++ hex "00" ++ hex "ffffffff".

Definition output (value : Z) (script : bytes) : bytes :=
  encodeLE 8 value ++ [zbyte (len script)] ++ script.

(** A vector of fewer than 253 elements. *)
Definition vector (elements : list bytes) : bytes :=
  zbyte (Z.of_nat (length elements)) :: concat elements.

Definition p2pkh (h : Z) : bytes := hex "76a914" ++ encodeBE 20 h ++ hex "88ac".
Definition p2wpkh (h : Z) : bytes := hex "0014" ++ encodeBE 20 h.
Definition p2sh (h : bytes) : bytes := hex "a914" ++ h ++ hex "87".
Definition p2wsh (h : Z) : bytes := hex "0020" ++ encodeBE 32 h.

(** A header at the difficulty-1 target [0x1d00ffff]. *)
Definition header (prevBlock merkleRoot : Z) : bytes :=
  hex "01000000" ++ encodeBE 32 prevBlock ++ encodeBE 32 merkleRoot
  ++ hex "00000000" ++ hex "ffff001d" ++ hex "00000000".

(** [more] headers on top of [first], each with merkle root zero. *)
Fixpoint extend (more : nat) (last : bytes) : bytes :=
  match more with
  | O => []
  | S more' =>
      let next := header (SpvModel.hash256 last) 0 in
      next ++ extend more' next
  end.

Definition chain (merkleRoot : Z) (more : nat) : bytes :=
  let first := header 0 merkleRoot in first ++ extend more first.

Definition tx (vin vout : bytes) : BitcoinTxInfo :=
  {| version := 0x01000000; inputVector := vin; outputVector := vout; locktime := 0 |}.

(** The proof of a transaction that is alone in its block, under
    [confirmations] headers. *)
Definition proofOf (t : BitcoinTxInfo) (confirmations : nat) : BitcoinTxProof :=
  {| merkleProof := [];
     txIndexInBlock := 0;
     bitcoinHeaders := chain (bitcoinTxHash (L := modelSpv) t) (pred confirmations) |}.

End Wire.

(** ** What a sweep reads and credits

    Functions used to state the properties of [sweep]: the inputs the loop
    of [processSweepTxInputs] visits, and the deposits among them. *)

Section Observations.
Context {L : SpvLibrary}.

(** The outpoints [(txHash, outputIndex)] of the inputs the loop visits in
    [rounds] rounds from [start]: it stops at the end of the vector. *)
Fixpoint inputOutpointsFrom (sweepTxInputVector : bytes) (rounds : nat) (start : Z)
  : list (Z * Z) :=
  match rounds with
  | O => []
  | S rounds' =>
      if len sweepTxInputVector <=? start then []
      else
        match parseTxInputAt sweepTxInputVector start with
        | Ok (inputTxHash, inputTxIndex, inputLength) =>
            (inputTxHash, inputTxIndex) ::
            match checked_add start inputLength with
            | Ok next => inputOutpointsFrom sweepTxInputVector rounds' next
            | Err _ => []
            end
        | Err _ => []
        end
  end.

(** The number of inputs the vector declares. *)
Definition declaredInputs (sweepTxInputVector : bytes) : nat :=
  match parseVarInt sweepTxInputVector with
  | Ok (_, inputsCount) => Z.to_nat inputsCount
  | Err _ => O
  end.

Definition sweepInputOutpoints (sweepTxInputVector : bytes) : list (Z * Z) :=
  match parseVarInt sweepTxInputVector with
  | Ok (inputsCompactSizeUintLength, inputsCount) =>
      match checked_add 1 inputsCompactSizeUintLength with
      | Ok start => inputOutpointsFrom sweepTxInputVector (Z.to_nat inputsCount) start
      | Err _ => []
      end
  | Err _ => []
  end.

Definition isRevealed (deps : gmap Z DepositInfo) (key : Z) : bool :=
  negb (revealedAt (getDeposit deps key) =? 0).

Definition isSwept (deps : gmap Z DepositInfo) (key : Z) : bool :=
  negb (sweptAt (getDeposit deps key) =? 0).

Definition outpointKey (o : Z * Z) : Z := depositKey (fst o) (snd o).

(** The keys of the revealed deposits among a list of outpoints, in order. *)
Definition depositKeysOf (deps : gmap Z DepositInfo) (outpoints : list (Z * Z))
  : list Z :=
  List.filter (isRevealed deps) (List.map outpointKey outpoints).

(** The deposits a sweep transaction spends: the revealed deposits among
    the inputs the loop visits. *)
Definition sweptDepositKeys (s : State) (sweepTxInputVector : bytes) : list Z :=
  depositKeysOf (deposits s) (sweepInputOutpoints sweepTxInputVector).

Definition sumZ (l : list Z) : Z := fold_right Z.add 0 l.

(** The deposits a call credits in the Bank: those a successful sweep
    spends. *)
Definition creditedBy (env : Env) (s : State) (c : Call) : list Z :=
  match c with
  | CallSweep sweepTx sweepProof previousSweep =>
      if isOk (sweep env s sweepTx sweepProof previousSweep)
      then sweptDepositKeys s (inputVector sweepTx)
      else []
  | _ => []
  end.

(** All the deposits credited along a sequence of calls. *)
Fixpoint creditLog (s : State) (calls : list (Env * Call)) : list Z :=
  match calls with
  | [] => []
  | ec :: rest => creditedBy (fst ec) s (snd ec) ++ creditLog (step s ec) rest
  end.

(** The storage of a freshly deployed contract. *)
Definition initialState (owner_ : Z) : State :=
  {| owner := owner_; isVaultTrusted := ∅; deposits := ∅; sweeps := ∅ |}.

(** Every swept record is a revealed one. *)
Definition sweptAreRevealed (s : State) : Prop :=
  forall key, sweptAt (getDeposit (deposits s) key) <> 0 ->
              revealedAt (getDeposit (deposits s) key) <> 0.

(** The record of a deposit once swept at [timestamp env]. *)
Definition sweptRecord (env : Env) (d : DepositInfo) : DepositInfo :=
  {| dDepositor := dDepositor d; amount := amount d; revealedAt := revealedAt d;
     dVault := dVault d; sweptAt := uint32 (timestamp env) |}.

(** What a successful round did: it credited a revealed, unswept deposit,
    or it consumed the previous sweep. *)
Inductive RoundOutcome (env : Env) (previousSweep : SweepInfo) (st st' : SweepLoop)
    (inputTxHash inputTxIndex : Z) : Prop :=
| RoundDeposit :
    let key := depositKey inputTxHash inputTxIndex in
    let deposit := getDeposit (lDeposits st) key in
    isRevealed (lDeposits st) key = true ->
    sweptAt deposit = 0 ->
    (lProcessedDepositsCount st < length (lDepositors st))%nat ->
    (lProcessedDepositsCount st < length (lDepositedAmounts st))%nat ->
    lDeposits st' = <[key := sweptRecord env deposit]> (lDeposits st) ->
    lInputsValue st' = lInputsValue st + amount deposit ->
    lDepositors st' = <[lProcessedDepositsCount st := dDepositor deposit]> (lDepositors st) ->
    lDepositedAmounts st' =
      <[lProcessedDepositsCount st := amount deposit]> (lDepositedAmounts st) ->
    lProcessedDepositsCount st' = S (lProcessedDepositsCount st) ->
    lPreviousSweepFlag st' = lPreviousSweepFlag st ->
    RoundOutcome env previousSweep st st' inputTxHash inputTxIndex
| RoundPreviousSweep :
    isRevealed (lDeposits st) (depositKey inputTxHash inputTxIndex) = false ->
    lPreviousSweepFlag st = false ->
    txHash previousSweep = inputTxHash ->
    lDeposits st' = lDeposits st ->
    lInputsValue st' = lInputsValue st + txOutputValue previousSweep ->
    lDepositors st' = lDepositors st ->
    lDepositedAmounts st' = lDepositedAmounts st ->
    lProcessedDepositsCount st' = lProcessedDepositsCount st ->
    lPreviousSweepFlag st' = true ->
    RoundOutcome env previousSweep st st' inputTxHash inputTxIndex.

(** Two states of [deposits] that differ at most in [sweptAt] fields. *)
Definition sameButSwept (deps deps' : gmap Z DepositInfo) : Prop :=
  forall key,
    dDepositor (getDeposit deps' key) = dDepositor (getDeposit deps key) /\
    amount (getDeposit deps' key) = amount (getDeposit deps key) /\
    revealedAt (getDeposit deps' key) = revealedAt (getDeposit deps key) /\
    dVault (getDeposit deps' key) = dVault (getDeposit deps key).

Definition amountOf (deps : gmap Z DepositInfo) (key : Z) : Z :=
  amount (getDeposit deps key).

Definition depositorOf (deps : gmap Z DepositInfo) (key : Z) : Z :=
  dDepositor (getDeposit deps key).

End Observations.

(** ** A scenario

    Two deposits of 25000 and 12000 satoshi are revealed and swept into a
    wallet output of 35400; later sweeps of the same wallet follow. *)

Module Scenario.
Import Wire.

Definition env : Env :=
  {| txProofDifficultyFactor := 6;
     currentEpochDifficulty := 1;
     prevEpochDifficulty := 1;
     timestamp := 1700000000;
     sender := 0xa11ce |}.

Definition wallet : Z := 0x8db50eb52063ea9d98b3eac91489a90f738986f6.

Definition reveal1 : RevealInfo :=
  {| fundingOutputIndex := 0;
     depositor := 0x934b98637ca318a4d6e7ca6ffd1690b8e77df637;
     blindingFactor := 0xf9f0c90d00039523;
     walletPubKeyHash := wallet;
     refundPubKeyHash := 0x28e081f285138ccbe389c1eb8985716230129f89;
     refundLocktime := 0x60bcea61;
     vault := 0 |}.

Definition reveal2 : RevealInfo :=
  {| fundingOutputIndex := 0;
     depositor := 0x934b98637ca318a4d6e7ca6ffd1690b8e77df637;
     blindingFactor := 0xf9f0c90d00039524;
     walletPubKeyHash := wallet;
     refundPubKeyHash := 0x28e081f285138ccbe389c1eb8985716230129f89;
     refundLocktime := 0x60bcea61;
     vault := 0 |}.

(** The first deposit is paid to a script hash (P2SH), the second to a
    witness script hash (P2WSH). *)
Definition fundingTx1 : BitcoinTxInfo :=
  Eval vm_compute in
  (tx (vector [input 0x1111 0])
     (vector [output 25000 (p2sh (SpvModel.hash160 (expectedScript reveal1)))])).

Definition fundingTx2 : BitcoinTxInfo :=
  Eval vm_compute in
  (tx (vector [input 0x2222 0])
     (vector [output 12000 (p2wsh (SpvModel.hash256 (expectedScript reveal2)))])).

Definition deployed : State := initialState 0xa11ce.

Definition revealed : State :=
  Eval vm_compute in
  (run (L := modelSpv) deployed
      [(env, CallRevealDeposit fundingTx1 reveal1);
       (env, CallRevealDeposit fundingTx2 reveal2)]).

Definition outpoint1 : Z * Z :=
  Eval vm_compute in
  ((bitcoinTxHash (L := modelSpv) fundingTx1, 0)).
Definition outpoint2 : Z * Z :=
  Eval vm_compute in
  ((bitcoinTxHash (L := modelSpv) fundingTx2, 0)).

Definition noPreviousSweep : SweepInfo := {| txHash := 0; txOutputValue := 0 |}.

(** The first sweep of the wallet: both deposits, fee 1600. *)
Definition sweepTx1 : BitcoinTxInfo :=
  Eval vm_compute in
  (tx (vector [input (fst outpoint1) 0; input (fst outpoint2) 0])
     (vector [output 35400 (p2wpkh wallet)])).

Definition sweepProof1 : BitcoinTxProof :=
  Eval vm_compute in
  (proofOf sweepTx1 6).

Definition swept : State :=
  Eval vm_compute in
  (run (L := modelSpv) revealed [(env, CallSweep sweepTx1 sweepProof1 noPreviousSweep)]).

Definition previousSweep1 : SweepInfo :=
  Eval vm_compute in
  {| txHash := bitcoinTxHash (L := modelSpv) sweepTx1; txOutputValue := 35400 |}.

(** Two more deposits, of 17000 and 10000 satoshi, revealed after the
    first sweep. *)
Definition reveal3 : RevealInfo :=
  {| fundingOutputIndex := 0;
     depositor := 0x934b98637ca318a4d6e7ca6ffd1690b8e77df637;
     blindingFactor := 0xf9f0c90d00039525;
     walletPubKeyHash := wallet;
     refundPubKeyHash := 0x28e081f285138ccbe389c1eb8985716230129f89;
     refundLocktime := 0x60bcea61;
     vault := 0 |}.

Definition reveal4 : RevealInfo :=
  {| fundingOutputIndex := 0;
     depositor := 0x934b98637ca318a4d6e7ca6ffd1690b8e77df637;
     blindingFactor := 0xf9f0c90d00039526;
     walletPubKeyHash := wallet;
     refundPubKeyHash := 0x28e081f285138ccbe389c1eb8985716230129f89;
     refundLocktime := 0x60bcea61;
     vault := 0 |}.

Definition fundingTx3 : BitcoinTxInfo :=
  Eval vm_compute in
  (tx (vector [input 0x3333 0])
     (vector [output 17000 (p2sh (SpvModel.hash160 (expectedScript reveal3)))])).

Definition fundingTx4 : BitcoinTxInfo :=
  Eval vm_compute in
  (tx (vector [input 0x4444 0])
     (vector [output 10000 (p2wsh (SpvModel.hash256 (expectedScript reveal4)))])).

Definition outpoint3 : Z * Z :=
  Eval vm_compute in
  ((bitcoinTxHash (L := modelSpv) fundingTx3, 0)).
Definition outpoint4 : Z * Z :=
  Eval vm_compute in
  ((bitcoinTxHash (L := modelSpv) fundingTx4, 0)).

Definition revealedAgain : State :=
  Eval vm_compute in
  (run (L := modelSpv) swept
      [(env, CallRevealDeposit fundingTx3 reveal3);
       (env, CallRevealDeposit fundingTx4 reveal4)]).

(** The second sweep: the output of the first, then the two new deposits;
    fee 1600. *)
Definition sweepTx2 : BitcoinTxInfo :=
  Eval vm_compute in
  (tx (vector [input (txHash previousSweep1) 0; input (fst outpoint3) 0;
              input (fst outpoint4) 0])
     (vector [output 60800 (p2wpkh wallet)])).



(** A second sweep that spends the output of the first and nothing else. *)
Definition sweepTxNoDeposit : BitcoinTxInfo :=
  Eval vm_compute in
  (tx (vector [input (txHash previousSweep1) 0])
     (vector [output 35000 (p2wpkh wallet)])).

Definition sweptAgain : State :=
  Eval vm_compute in
  (run (L := modelSpv) revealedAgain
      [(env, CallSweep sweepTx2 (proofOf sweepTx2 6) previousSweep1)]).

(** The second sweep again, its first input now naming output 7 of the
    first sweep transaction, which has one output only. *)
Definition sweepTxIndex7 : BitcoinTxInfo :=
  Eval vm_compute in
  (tx (vector [input (txHash previousSweep1) 7; input (fst outpoint3) 0;
              input (fst outpoint4) 0])
     (vector [output 60800 (p2wpkh wallet)])).

(** The variables of the input loop of that sweep when it starts. *)
Definition loopStart : SweepLoop :=
  {| lDeposits := deposits revealedAgain;
     lInputsValue := 0;
     lDepositors := [0; 0];
     lDepositedAmounts := [0; 0];
     lProcessedDepositsCount := O;
     lPreviousSweepFlag := false;
     lInputStartingIndex := 1 |}.


(** The first sweep with its output paid to a script hash (P2SH) instead of
    the wallet's public key hash. *)
Definition scriptHash : bytes := hex "86a303cdd2e2eab1d1679f1a813835dc5a1b6532".

Definition sweepTxToScriptHash : BitcoinTxInfo :=
  Eval vm_compute in
  (tx (vector [input (fst outpoint1) 0; input (fst outpoint2) 0])
     (vector [output 35400 (p2sh scriptHash)])).

(** The first sweep with two outputs. *)
Definition sweepTxTwoOutputs : BitcoinTxInfo :=
  Eval vm_compute in
  (tx (vector [input (fst outpoint1) 0; input (fst outpoint2) 0])
     (vector [output 30000 (p2wpkh wallet); output 5400 (p2wpkh wallet)])).



(** A deposit of 500 satoshi, revealed next to the first deposit, and a
    sweep of the two with a fee of 2000: a fee share of 1000. *)
Definition reveal5 : RevealInfo :=
  {| fundingOutputIndex := 0;
     depositor := 0x7ac2d9378a1c47e589dfb8095ca95ed2140d2726;
     blindingFactor := 0xf9f0c90d00039527;
     walletPubKeyHash := wallet;
     refundPubKeyHash := 0x28e081f285138ccbe389c1eb8985716230129f89;
     refundLocktime := 0x60bcea61;
     vault := 0 |}.

Definition fundingTx5 : BitcoinTxInfo :=
  Eval vm_compute in
  (tx (vector [input 0x5555 0])
     (vector [output 500 (p2sh (SpvModel.hash160 (expectedScript reveal5)))])).

Definition outpoint5 : Z * Z :=
  Eval vm_compute in
  ((bitcoinTxHash (L := modelSpv) fundingTx5, 0)).

Definition revealedSmall : State :=
  Eval vm_compute in
  (run (L := modelSpv) deployed
      [(env, CallRevealDeposit fundingTx1 reveal1);
       (env, CallRevealDeposit fundingTx5 reveal5)]).

Definition sweepTxSmall : BitcoinTxInfo :=
  Eval vm_compute in
  (tx (vector [input (fst outpoint1) 0; input (fst outpoint5) 0])
     (vector [output 23500 (p2wpkh wallet)])).

(** The storage after the input loop of that sweep. *)
Definition revealedSmallSwept : State :=
  Eval vm_compute in
  (match processSweepTxInputs (L := modelSpv) env revealedSmall
                             (inputVector sweepTxSmall) noPreviousSweep with
  | Ok (s1, _, _, _) => s1
  | Err _ => revealedSmall
  end).

Definition sweepProof2 : BitcoinTxProof := Eval vm_compute in (proofOf sweepTx2 6).
Definition sweepProofIndex7 : BitcoinTxProof := Eval vm_compute in (proofOf sweepTxIndex7 6).
Definition sweepProofNoDeposit : BitcoinTxProof := Eval vm_compute in (proofOf sweepTxNoDeposit 6).
Definition sweepProofSmall : BitcoinTxProof := Eval vm_compute in (proofOf sweepTxSmall 6).
Definition sweepProofToScriptHash : BitcoinTxProof := Eval vm_compute in (proofOf sweepTxToScriptHash 6).
Definition sweepProofTwoOutputs : BitcoinTxProof := Eval vm_compute in (proofOf sweepTxTwoOutputs 6).

(** The calls of the scenario up to the first sweep, and the two reveals
    after it. *)
Definition history1 : list (Env * Call) :=
  [(env, CallRevealDeposit fundingTx1 reveal1);
   (env, CallRevealDeposit fundingTx2 reveal2);
   (env, CallSweep sweepTx1 sweepProof1 noPreviousSweep)].

Definition history2 : list (Env * Call) :=
  [(env, CallRevealDeposit fundingTx3 reveal3);
   (env, CallRevealDeposit fundingTx4 reveal4)].

End Scenario.

(** ** A model of the assembler's libraries

    An implementation of [BitcoinJs] to run the assembler on concrete
    UTXOs: scripts are recognised by their byte patterns, raw transactions
    are read in the serialization without witnesses, an address is written
    as the hexadecimal form of its output script, and keys, signatures and
    digests are stand-ins built on the checksum of [SpvModel]. *)

Module JsModel.
Import DepositSweep.

Definition hexDigit (n : Z) : ascii :=
  ascii_of_nat (Z.to_nat (if n <? 10 then 48 + n else 87 + n)).

Fixpoint toHexString (bs : bytes) : string :=
  match bs with
  | [] => EmptyString
  | b :: rest =>
      String (hexDigit (byteZ b / 16)) (String (hexDigit (byteZ b mod 16)) (toHexString rest))
  end.

Definition isP2PKHScript (s : bytes) : bool :=
  bool_decide (take 3 s = hex "76a914") && (length s =? 25)%nat
  && bool_decide (drop 23 s = hex "88ac").

Definition isP2WPKHScript (s : bytes) : bool :=
  bool_decide (take 2 s = hex "0014") && (length s =? 22)%nat.

Definition isP2SHScript (s : bytes) : bool :=
  bool_decide (take 2 s = hex "a914") && (length s =? 23)%nat
  && bool_decide (drop 22 s = hex "87").

Definition isP2WSHScript (s : bytes) : bool :=
  bool_decide (take 2 s = hex "0020") && (length s =? 34)%nat.

Definition p2pkhOutputOfHash (h : bytes) : bytes := hex "76a914" ++ h ++ hex "88ac".
Definition p2wpkhOutputOfHash (h : bytes) : bytes := hex "0014" ++ h.

(** The key pair of a private key: the string itself; its public key is a
    stand-in of the right shape (33 bytes, prefix 02). *)
Definition bytesOfString (s : string) : bytes :=
  List.map (fun c => zbyte (Z.of_nat (nat_of_ascii c))) (list_ascii_of_string s).

Definition publicKey (walletKeyPair : string) : bytes :=
  hex "02" ++ encodeBE 32 (SpvModel.checksum (bytesOfString walletKeyPair)).

Definition publicKeyHash (pk : bytes) : bytes := SpvModel.hash160 pk.

Definition toBitcoinJsLibNetwork (n : BitcoinNetwork) : outcome BitcoinNetwork :=
  match n with
  | Unknown => Throw "network not supported"
  | _ => Done n
  end.

Definition fromWIF (walletPrivateKey : string) (_ : BitcoinNetwork) : outcome string :=
  if String.eqb walletPrivateKey "" then Throw "Invalid checksum"
  else Done walletPrivateKey.

Definition publicKeyToAddress (pk : bytes) (_ : BitcoinNetwork) (witness_ : bool) : string :=
  toHexString (if witness_ then p2wpkhOutputOfHash (publicKeyHash pk)
               else p2pkhOutputOfHash (publicKeyHash pk)).

Definition toNumber (z : Z) : outcome Z :=
  if Z.abs z <=? 2 ^ 53 - 1 then Done z else Throw "overflow".

Definition isSatoshi (v : Z) : bool := (0 <=? v) && (v <=? 21 * 10 ^ 14).
Definition isUInt32 (i : Z) : bool := (0 <=? i) && (i <? 2 ^ 32).
Definition isHash256bit (h : bytes) : bool := (length h =? 32)%nat.

(** The offset at which the inputs of a raw transaction end. *)
Fixpoint skipInputs (raw : bytes) (count : nat) (offset : Z) : result Z :=
  match count with
  | O => Ok offset
  | S count' =>
      let* l := SpvModel.determineInputLengthAt raw offset in
      let* offset' := checked_add offset l in
      skipInputs raw count' offset'
  end.

Definition previousOutputOf (transactionHex_ : string) (i : Z) : outcome TxOutput :=
  let raw := hex transactionHex_ in
  match (let* '(compactLength, count) := SpvModel.parseVarIntAt raw 4 in
         let* outputsAt := skipInputs raw (Z.to_nat count) (5 + compactLength) in
         let* out := SpvModel.extractOutputAtIndex (drop (Z.to_nat outputsAt) raw) i in
         let* v := SpvModel.extractValue out in
         Ok {| script := drop 9 out; outValue := v |}) with
  | Ok o => Done o
  | Err _ => Throw "TypeError: Cannot read properties of undefined"
  end.

Definition p2pkhAddressOfOutput (s : bytes) (_ : BitcoinNetwork) : outcome string :=
  if isP2PKHScript s then Done (toHexString s) else Throw "Output is invalid".

Definition p2wpkhAddressOfOutput (s : bytes) (_ : BitcoinNetwork) : outcome string :=
  if isP2WPKHScript s then Done (toHexString s) else Throw "Output is invalid".

Definition compile (stack : list bytes) : bytes :=
  concat (List.map (fun b => zbyte (len b) :: b) stack).

Definition decompile (s : bytes) : option (list Chunk) :=
  if isP2WPKHScript s then Some [Opcode 0; Data (drop 2 s)] else None.

Definition serializeInput (i : TxInput) : bytes :=
  hash i ++ encodeLE 4 (index i) ++ [zbyte (len (inScript i))] ++ inScript i
  ++ encodeLE 4 (sequence i).

Definition serializeOutput (o : TxOutput) : bytes :=
  encodeLE 8 (outValue o) ++ [zbyte (len (script o))] ++ script o.

Definition serialize (t : Transaction) : bytes :=
  encodeLE 4 (txVersion t)
  ++ zbyte (Z.of_nat (length (ins t))) :: concat (List.map serializeInput (ins t))
  ++ zbyte (Z.of_nat (length (outs t))) :: concat (List.map serializeOutput (outs t))
  ++ encodeLE 4 (txLocktime t).

Definition digest (bs : bytes) : bytes := encodeBE 32 (SpvModel.hash256 bs).

End JsModel.

Definition modelJs : DepositSweep.BitcoinJs := {|
  DepositSweep.Network := DepositSweep.BitcoinNetwork;
  DepositSweep.Signer := string;
  DepositSweep.toBitcoinJsLibNetwork := JsModel.toBitcoinJsLibNetwork;
  DepositSweep.fromWIF := JsModel.fromWIF;
  DepositSweep.publicKey := JsModel.publicKey;
  DepositSweep.publicKeyHex := fun k => JsModel.toHexString (JsModel.publicKey k);
  DepositSweep.publicKeyToAddress := JsModel.publicKeyToAddress;
  DepositSweep.createOutputScriptFromAddress := hex;
  DepositSweep.toNumber := JsModel.toNumber;
  DepositSweep.isHash256bit := JsModel.isHash256bit;
  DepositSweep.isUInt32 := JsModel.isUInt32;
  DepositSweep.isSatoshi := JsModel.isSatoshi;
  DepositSweep.previousOutputOf := JsModel.previousOutputOf;
  DepositSweep.isP2PKHScript := JsModel.isP2PKHScript;
  DepositSweep.isP2WPKHScript := JsModel.isP2WPKHScript;
  DepositSweep.isP2SHScript := JsModel.isP2SHScript;
  DepositSweep.isP2WSHScript := JsModel.isP2WSHScript;
  DepositSweep.p2pkhAddressOfKey :=
    fun pk _ => JsModel.toHexString (JsModel.p2pkhOutputOfHash (JsModel.publicKeyHash pk));
  DepositSweep.p2wpkhAddressOfKey :=
    fun pk _ => JsModel.toHexString (JsModel.p2wpkhOutputOfHash (JsModel.publicKeyHash pk));
  DepositSweep.p2pkhAddressOfOutput := JsModel.p2pkhAddressOfOutput;
  DepositSweep.p2wpkhAddressOfOutput := JsModel.p2wpkhAddressOfOutput;
  DepositSweep.p2pkhOutputOfHash := JsModel.p2pkhOutputOfHash;
  DepositSweep.p2pkhInput := fun signature pk => JsModel.compile [signature; pk];
  DepositSweep.hashForSignature :=
    fun t i s ty => JsModel.digest (JsModel.serialize t ++ s ++ [zbyte ty]);
  DepositSweep.hashForWitnessV0 :=
    fun t i s v ty => JsModel.digest (JsModel.serialize t ++ s ++ encodeLE 8 v ++ [zbyte ty]);
  DepositSweep.sign := fun k h => SpvModel.hash160 (h ++ JsModel.publicKey k);
  DepositSweep.signatureEncode := fun s ty => s ++ [zbyte ty];
  DepositSweep.decompile := JsModel.decompile;
  DepositSweep.compile := JsModel.compile;
  DepositSweep.computeHash160 :=
    fun h => JsModel.toHexString (SpvModel.hash160 (hex h));
  DepositSweep.isCompressedPublicKey :=
    fun h => (String.length h =? 66)%nat
             && (String.prefix "02" h || String.prefix "03" h);
  DepositSweep.assembleDepositScript :=
    fun d => hex (DepositSweep.depositor d) ++ hex (DepositSweep.blindingFactor d)
             ++ hex (DepositSweep.walletPublicKeyHash d)
             ++ hex (DepositSweep.refundPublicKeyHash d)
             ++ hex (DepositSweep.refundLocktime d);
  DepositSweep.getId := fun t => rev (JsModel.digest (JsModel.serialize t));
  DepositSweep.toHex := fun t => JsModel.toHexString (JsModel.serialize t)
|}.

(** ** The scenario, seen from the wallet

    The wallet sweeps the deposits of 25000 and 12000 satoshi with a fee of
    1600, and later its main UTXO of 35400 with deposits of 17000 and 10000. *)

Module WalletScenario.
Import DepositSweep.

Definition raw (t : BitcoinTxInfo) : bytes :=
  encodeBE 4 (version t) ++ inputVector t ++ outputVector t ++ encodeBE 4 (locktime t).

Definition walletPrivateKey : string := "wallet-private-key".

Definition walletKeyHash : string :=
  JsModel.toHexString (JsModel.publicKeyHash (JsModel.publicKey walletPrivateKey)).

Definition utxoOf (t : BitcoinTxInfo) (v : Z) : Utxo :=
  {| transactionHash := rev (encodeBE 32 (bitcoinTxHash (L := modelSpv) t));
     outputIndex := 0;
     value := v;
     transactionHex := JsModel.toHexString (raw t) |}.

Definition depositOf (v : Z) (blinding : string) : Deposit :=
  {| depositor := "934b98637ca318a4d6e7ca6ffd1690b8e77df637";
     amount := v;
     blindingFactor := blinding;
     walletPublicKeyHash := walletKeyHash;
     refundPublicKeyHash := "28e081f285138ccbe389c1eb8985716230129f89";
     refundLocktime := "60bcea61";
     vault := None |}.

Definition utxo1 : Utxo := utxoOf Scenario.fundingTx1 25000.
Definition utxo2 : Utxo := utxoOf Scenario.fundingTx2 12000.
Definition utxo3 : Utxo := utxoOf Scenario.fundingTx3 17000.
Definition utxo4 : Utxo := utxoOf Scenario.fundingTx4 10000.

Definition deposit1 : Deposit := depositOf 25000 "f9f0c90d00039523".
Definition deposit2 : Deposit := depositOf 12000 "f9f0c90d00039524".
Definition deposit3 : Deposit := depositOf 17000 "f9f0c90d00039525".
Definition deposit4 : Deposit := depositOf 10000 "f9f0c90d00039526".

(** The wallet's main UTXO: a P2WPKH output of 35400 to its own key. *)
Definition mainTx : BitcoinTxInfo :=
  Wire.tx (Wire.vector [Wire.input 0x7777 0])
          (Wire.vector [Wire.output 35400
             (JsModel.p2wpkhOutputOfHash
                (JsModel.publicKeyHash (JsModel.publicKey walletPrivateKey)))]).

Definition mainUtxo : Utxo := utxoOf mainTx 35400.

Definition walletScript : bytes :=
  JsModel.p2wpkhOutputOfHash (JsModel.publicKeyHash (JsModel.publicKey walletPrivateKey)).

End WalletScenario.
(** ** Deployment of the contract *)

(** The [immutable] variables of [Bridge], set once by the constructor. *)
Record Immutables : Type := {
  bank : Z;                          (* Bank *)
  relay : Z;                         (* IRelay *)
  immTxProofDifficultyFactor : Z     (* uint256 txProofDifficultyFactor *)
}.

(** The constructor of [Bridge], run by [deployer]: [Ownable]'s
    constructor makes the deployer the owner, and the mappings are empty. *)
Definition constructor (deployer _bank _relay _txProofDifficultyFactor : Z)
  : result (State * Immutables) :=
  require (negb (_bank =? 0)) "Bank address cannot be zero";;
  require (negb (_relay =? 0)) "Relay address cannot be zero";;
  Ok (initialState deployer,
      {| bank := _bank; relay := _relay;
         immTxProofDifficultyFactor := _txProofDifficultyFactor |}).

(** ** The scenario, continued: vaults and other callers *)

Module VaultScenario.
Import Scenario.

Definition someVault : Z := 0x7a017a017a017a017a017a017a017a017a017a01.

(** A caller that is not the owner of the contract. *)
Definition stranger : Env :=
  {| txProofDifficultyFactor := 6;
     currentEpochDifficulty := 1;
     prevEpochDifficulty := 1;
     timestamp := 1700000500;
     sender := 0xb0b |}.

(** The first reveal of the scenario, routed to [someVault]. *)
Definition reveal1ToVault : RevealInfo :=
  {| fundingOutputIndex := fundingOutputIndex reveal1;
     depositor := depositor reveal1;
     blindingFactor := blindingFactor reveal1;
     walletPubKeyHash := walletPubKeyHash reveal1;
     refundPubKeyHash := refundPubKeyHash reveal1;
     refundLocktime := refundLocktime reveal1;
     vault := someVault |}.

(** The first sweep of the scenario, with a call of [setVaultStatus] by a
    caller that is not the owner in between. *)
Definition historyWithStranger : list (Env * Call) :=
  [(env, CallRevealDeposit fundingTx1 reveal1);
   (stranger, CallSetVaultStatus someVault true);
   (stranger, CallRevealDeposit fundingTx2 reveal2);
   (stranger, CallSweep sweepTx1 sweepProof1 noPreviousSweep)].

(** A block whose timestamp is a multiple of [2^32]. *)
Definition envWrapped : Env :=
  {| txProofDifficultyFactor := 6;
     currentEpochDifficulty := 1;
     prevEpochDifficulty := 1;
     timestamp := 2 ^ 32;
     sender := 0xa11ce |}.

(** The relay of the scenario, with three confirmations required. *)
Definition envThree : Env :=
  {| txProofDifficultyFactor := 3;
     currentEpochDifficulty := 1;
     prevEpochDifficulty := 1;
     timestamp := 1700000000;
     sender := 0xa11ce |}.

End VaultScenario.

(** ** Signed inputs of an assembled sweep *)

Module DepositSweepSigned.
Import DepositSweep.

Section Assembler.
Context {J : BitcoinJs}.







End Assembler.
End DepositSweepSigned.

(** ** Inputs the assembler refuses *)

Module DepositSweepFaults.
Import DepositSweep.

Section Assembler.
Context {J : BitcoinJs}.

(** A main UTXO that fails a check of [signMainUtxoInput], with the message
    of the error thrown. *)
Inductive MainUtxoFault (walletKeyPair : Signer) (bitcoinNetwork : BitcoinNetwork)
    (m : Utxo) : string -> Prop :=
| MainNotOwned previousOutput :
    previousOutputOf (transactionHex m) (outputIndex m) = Done previousOutput ->
    ownsUtxo walletKeyPair (script previousOutput) bitcoinNetwork = Done false ->
    MainUtxoFault walletKeyPair bitcoinNetwork m "UTXO does not belong to the wallet"
| MainUnknownType previousOutput :
    previousOutputOf (transactionHex m) (outputIndex m) = Done previousOutput ->
    ownsUtxo walletKeyPair (script previousOutput) bitcoinNetwork = Done true ->
    isP2PKHScript (script previousOutput) = false ->
    isP2WPKHScript (script previousOutput) = false ->
    MainUtxoFault walletKeyPair bitcoinNetwork m "Unknown type of main UTXO"
| MainNotDecompiled previousOutput :
    previousOutputOf (transactionHex m) (outputIndex m) = Done previousOutput ->
    ownsUtxo walletKeyPair (script previousOutput) bitcoinNetwork = Done true ->
    isP2PKHScript (script previousOutput) = false ->
    isP2WPKHScript (script previousOutput) = true ->
    decompile (script previousOutput) = None ->
    MainUtxoFault walletKeyPair bitcoinNetwork m "Invalid script format".

(** A deposit UTXO that fails a check of the signing loop, with the message
    of the error thrown. *)
Inductive DepositFault (walletKeyPair : Signer) (p : Utxo * Deposit) : string -> Prop :=
| DepositUnsupported previousOutput :
    previousOutputOf (transactionHex (fst p)) (outputIndex (fst p)) = Done previousOutput ->
    isP2SHScript (script previousOutput) = false ->
    isP2WSHScript (script previousOutput) = false ->
    DepositFault walletKeyPair p "Unsupported UTXO script type"
| DepositAmountMismatch previousOutput depositAmount :
    previousOutputOf (transactionHex (fst p)) (outputIndex (fst p)) = Done previousOutput ->
    isP2SHScript (script previousOutput) || isP2WSHScript (script previousOutput) = true ->
    toNumber (amount (snd p)) = Done depositAmount ->
    outValue previousOutput <> depositAmount ->
    DepositFault walletKeyPair p "Mismatch between amount in deposit and deposit tx"
| DepositOtherWallet previousOutput :
    previousOutputOf (transactionHex (fst p)) (outputIndex (fst p)) = Done previousOutput ->
    isP2SHScript (script previousOutput) || isP2WSHScript (script previousOutput) = true ->
    toNumber (amount (snd p)) = Done (outValue previousOutput) ->
    computeHash160 (publicKeyHex walletKeyPair) <> walletPublicKeyHash (snd p) ->
    DepositFault walletKeyPair p "Wallet public key does not correspond to wallet private key"
| DepositKeyNotCompressed previousOutput :
    previousOutputOf (transactionHex (fst p)) (outputIndex (fst p)) = Done previousOutput ->
    isP2SHScript (script previousOutput) || isP2WSHScript (script previousOutput) = true ->
    toNumber (amount (snd p)) = Done (outValue previousOutput) ->
    computeHash160 (publicKeyHex walletKeyPair) = walletPublicKeyHash (snd p) ->
    isCompressedPublicKey (publicKeyHex walletKeyPair) = false ->
    DepositFault walletKeyPair p "Wallet public key must be compressed".

End Assembler.
End DepositSweepFaults.

(** ** Submitting a sweep (TypeScript)

    [submitDepositSweepTransaction] fetches the raw transactions of the
    UTXOs from a Bitcoin client, assembles the sweep and broadcasts it.  A
    call of an [async] method resolves or rejects, and may change the client
    it is called on: it takes the state of the client and returns its
    outcome with the state after it. *)

Module DepositSweepSubmit.
Import DepositSweep.

(** An [async] computation over the state [W] of the client. *)
Definition Async (W A : Type) : Type := W -> outcome A * W.

Definition resolve {W A : Type} (a : A) : Async W A := fun w => (Done a, w).

(** [await]: a rejection is thrown on, the state staying as the rejected
    call left it. *)
Definition await {W A B : Type} (m : Async W A) (k : A -> Async W B) : Async W B :=
  fun w => match m w with
           | (Done a, w') => k a w'
           | (Throw message, w') => (Throw message, w')
           end.

Notation "'await*' x ':=' e 'in' k" := (await e (fun x => k))
  (at level 10, x name, e at level 100, k at level 200).

(** A synchronous computation inside an [async] function. *)
Definition sync {W A : Type} (o : outcome A) : Async W A := fun w => (o, w).

(** The methods of [BitcoinClient] that the function calls. *)
Class BitcoinClient (W : Type) : Type := {
  getRawTransaction : bytes -> Async W string;       (* its [transactionHex] *)
  getNetwork : Async W BitcoinNetwork;
  broadcast : string -> Async W unit
}.

(** What [submitDepositSweepTransaction] returns. *)
Record SubmittedSweep : Type := {
  submittedTransactionHash : bytes;
  submittedMainUtxoHash : bytes;
  submittedMainUtxoOutputIndex : Z;
  submittedMainUtxoValue : Z
}.

Section Submit.
Context {J : BitcoinJs} {W : Type} {C : BitcoinClient W}.

(** [{ ...utxo, transactionHex: raw.transactionHex }] *)
Definition withRaw (utxo : Utxo) (hex_ : string) : Utxo :=
  {| transactionHash := transactionHash utxo;
     outputIndex := outputIndex utxo;
     value := value utxo;
     transactionHex := hex_ |}.

(** [for (const utxo of utxos)]: the raw transaction of each UTXO is
    fetched, in order. *)
Fixpoint fetchRawTransactions (utxos : list Utxo) : Async W (list Utxo) :=
  match utxos with
  | [] => resolve []
  | utxo :: rest =>
      await* utxoRawTransaction := getRawTransaction (transactionHash utxo) in
      await* utxosWithRaw := fetchRawTransactions rest in
      resolve (withRaw utxo utxoRawTransaction :: utxosWithRaw)
  end.

Definition fetchMainUtxo (mainUtxo : option Utxo) : Async W (option Utxo) :=
  match mainUtxo with
  | Some m =>
      await* mainUtxoRawTransaction := getRawTransaction (transactionHash m) in
      resolve (Some (withRaw m mainUtxoRawTransaction))
  | None => resolve None
  end.

Definition submitDepositSweepTransaction (fee : Z) (walletPrivateKey : string)
    (witness_ : bool) (utxos : list Utxo) (deposits : list Deposit)
    (mainUtxo : option Utxo) : Async W SubmittedSweep :=
  await* utxosWithRaw := fetchRawTransactions utxos in
  await* mainUtxoWithRaw := fetchMainUtxo mainUtxo in
  await* bitcoinNetwork := getNetwork in
  await* assembled :=
    sync (assembleDepositSweepTransaction bitcoinNetwork fee walletPrivateKey witness_
                                          utxosWithRaw deposits mainUtxoWithRaw) in
  await* _ := broadcast (rawTransaction assembled) in
  resolve {| submittedTransactionHash := sweepTransactionHash assembled;
             submittedMainUtxoHash := newMainUtxoHash assembled;
             submittedMainUtxoOutputIndex := newMainUtxoOutputIndex assembled;
             submittedMainUtxoValue := newMainUtxoValue assembled |}.

(** The three reads that come before the assembly. *)
Definition fetchSweepInputs (utxos : list Utxo) (mainUtxo : option Utxo)
  : Async W (list Utxo * option Utxo * BitcoinNetwork) :=
  await* utxosWithRaw := fetchRawTransactions utxos in
  await* mainUtxoWithRaw := fetchMainUtxo mainUtxo in
  await* bitcoinNetwork := getNetwork in
  resolve (utxosWithRaw, mainUtxoWithRaw, bitcoinNetwork).

End Submit.

(** A client that serves raw transactions from a table and records what it
    is asked to broadcast, as the client of the tests does. *)
Record MockClient : Type := {
  rawTransactions : list (bytes * string);
  network : BitcoinNetwork;
  broadcastLog : list string
}.

Fixpoint lookupRaw (table : list (bytes * string)) (h : bytes) : option string :=
  match table with
  | [] => None
  | (h', raw) :: rest => if decide (h' = h) then Some raw else lookupRaw rest h
  end.

Definition mockClient : BitcoinClient MockClient := {|
  getRawTransaction := fun h w =>
    match lookupRaw (rawTransactions w) h with
    | Some raw => (Done raw, w)
    | None => (Throw "Transaction not found", w)
    end;
  getNetwork := fun w => (Done (network w), w);
  broadcast := fun raw w =>
    (Done tt, {| rawTransactions := rawTransactions w;
                 network := network w;
                 broadcastLog := broadcastLog w ++ [raw] |})
|}.

End DepositSweepSubmit.

(** The client of the wallet scenario: it knows the funding transactions
    and has broadcast nothing yet. *)
Module SubmitScenario.
Import DepositSweep DepositSweepSubmit WalletScenario.

Definition client : MockClient :=
  {| rawTransactions :=
       [(transactionHash utxo1, transactionHex utxo1);
        (transactionHash utxo2, transactionHex utxo2);
        (transactionHash utxo3, transactionHex utxo3);
        (transactionHash utxo4, transactionHex utxo4);
        (transactionHash mainUtxo, transactionHex mainUtxo)];
     network := Testnet;
     broadcastLog := [] |}.

(** The UTXOs as the caller knows them, without their raw transactions. *)
Definition plain (u : Utxo) : Utxo :=
  {| transactionHash := transactionHash u; outputIndex := outputIndex u;
     value := value u; transactionHex := "" |}.

End SubmitScenario.

(** ** The redemption transaction (TypeScript)

    [createRedemptionTransaction], over the interface of the packages it
    imports ([bcoin], [wif], [ethers]). *)

Module Redemption.
Import DepositSweep.

(** The double nearest to an integer, ties to even: what an arithmetic
    operation on JavaScript numbers returns for an integer result (below
    [2^1024]).  Integers up to [2^53] in absolute value are doubles. *)
Definition roundToDouble (z : Z) : Z :=
  let n := Z.abs z in
  if n <=? 2 ^ 53 then z
  else
    let e := Z.log2 n - 52 in
    let q := Z.shiftr n e in
    let r := Z.land n (Z.ones e) in
    let half := Z.shiftl 1 (e - 1) in
    let q' := if (r <? half) || ((r =? half) && Z.even q) then q else q + 1 in
    Z.sgn z * Z.shiftl q' e.

(** [a + b] and [a - b] on numbers that hold integers. *)
Definition numberAdd (a b : Z) : Z := roundToDouble (a + b).
Definition numberSub (a b : Z) : Z := roundToDouble (a - b).

Record RedemptionRequest : Type := {
  address : string;
  requestAmount : Z;              (* amount: BigNumber *)
  requestFeeShare : Z;            (* feeShare: BigNumber *)
  treasuryFee : Z                 (* BigNumber *)
}.

(** [UnspentTransactionOutput & RawTransaction] of this module: the value
    is a number. *)
Record MainUtxo : Type := {
  mainTransactionHash : string;
  mainOutputIndex : Z;
  mainValue : Z;
  mainTransactionHex : string
}.

Record DecodedKey : Type := {
  privateKey : bytes;
  compressed : bool
}.

(** An output of a [bcoin.MTX]. *)
Record MtxOutput : Type := {
  outputScript : bytes;
  outputValue : Z
}.

Class Bcoin : Type := {
  KeyRing : Type;
  Address : Type;
  Coin : Type;
  (** The part of an [MTX] that [fund] and [sign] set. *)
  MtxInputs : Type;
  noInputs : MtxInputs;
  wifDecode : string -> outcome DecodedKey;
  newKeyRing : bool -> bytes -> bool -> outcome KeyRing;
  getAddress : KeyRing -> string;                     (* getAddress("string") *)
  coinFromTX : string -> Z -> outcome Coin;           (* Coin.fromTX(MTX.fromRaw(hex), index, -1) *)
  addressFromString : string -> outcome Address;
  isPubkeyhash : Address -> bool;
  isWitnessPubkeyhash : Address -> bool;
  isScripthash : Address -> bool;
  isWitnessScripthash : Address -> bool;
  scriptFromAddress : Address -> outcome bytes;       (* Script.fromAddress of an Address *)
  scriptFromString : string -> outcome bytes;         (* Script.fromAddress of a string *)
  bigToNumber : Z -> outcome Z;                       (* BigNumber.toNumber *)
  isOutputValue : Z -> bool;                          (* the assertion of an output's value *)
  outputValueError : string;                          (* ... and its message *)
  fund : MtxInputs -> list MtxOutput -> list Coin -> string -> Z
         -> outcome (MtxInputs * list MtxOutput);
  signMtx : MtxInputs -> list MtxOutput -> KeyRing -> outcome MtxInputs;
  toRawHex : MtxInputs -> list MtxOutput -> string
}.

(** [bcoin.MTX]: the inputs, which the library manages, and the outputs. *)
Record Mtx {B : Bcoin} : Type := {
  mtxInputs : MtxInputs;
  mtxOutputs : list MtxOutput
}.

Section Create.
Context {B : Bcoin}.

Definition newMtx : Mtx := {| mtxInputs := noInputs; mtxOutputs := [] |}.

(** [transaction.addOutput({ script, value })] *)
Definition mtxAddOutput (transaction : Mtx) (script_ : bytes) (value_ : Z) : outcome Mtx :=
  if isOutputValue value_ then
    Done {| mtxInputs := mtxInputs transaction;
            mtxOutputs := mtxOutputs transaction
                          ++ [ {| outputScript := script_; outputValue := value_ |} ] |}
  else Throw outputValueError.

(** The variables of the loop over the requests. *)
Record RequestLoop : Type := {
  loopTransaction : Mtx;
  txFee : Z;
  totalOutputValue : Z
}.

(** One round of [for (const request of redemptionRequests)]. *)
Definition processRequest (st : RequestLoop) (request : RedemptionRequest)
  : outcome RequestLoop :=
  let outputValue_ := requestAmount request - requestFeeShare request - treasuryFee request in
  do* outputNumber := bigToNumber outputValue_ in
  let totalOutputValue' := numberAdd (totalOutputValue st) outputNumber in
  do* feeNumber := bigToNumber (requestFeeShare request) in
  let txFee' := numberAdd (txFee st) feeNumber in
  do* address_ := addressFromString (address request) in
  if isPubkeyhash address_ || isWitnessPubkeyhash address_
     || isScripthash address_ || isWitnessScripthash address_ then
    do* script_ := scriptFromAddress address_ in
    do* outputNumber' := bigToNumber outputValue_ in
    do* transaction := mtxAddOutput (loopTransaction st) script_ outputNumber' in
    Done {| loopTransaction := transaction;
            txFee := txFee';
            totalOutputValue := totalOutputValue' |}
  else Throw "Redemption address must be P2PKH, P2WPKH, P2SH or P2WSH".

Fixpoint processRequests (st : RequestLoop) (requests : list RedemptionRequest)
  : outcome RequestLoop :=
  match requests with
  | [] => Done st
  | request :: rest =>
      do* st' := processRequest st request in
      processRequests st' rest
  end.

(** The transaction as it is handed to [fund], with the fee [fund] is to
    leave to the miners. *)
Definition prepareRedemption (walletAddress : string) (mainUtxo : MainUtxo)
    (redemptionRequests : list RedemptionRequest) : outcome (Mtx * Z) :=
  do* st := processRequests {| loopTransaction := newMtx; txFee := 0;
                               totalOutputValue := 0 |} redemptionRequests in
  let changeOutputValue :=
    numberSub (numberSub (mainValue mainUtxo) (totalOutputValue st)) (txFee st) in
  do* transaction :=
    (if 0 <? changeOutputValue then
       do* script_ := scriptFromString walletAddress in
       mtxAddOutput (loopTransaction st) script_ changeOutputValue
     else Done (loopTransaction st)) in
  Done (transaction, txFee st).

Definition createRedemptionTransaction (walletPrivateKey : string) (mainUtxo : MainUtxo)
    (redemptionRequests : list RedemptionRequest) (witness_ : bool) : outcome string :=
  if (length redemptionRequests <? 1)%nat then
    Throw "There must be at least one request to redeem"
  else
    do* decodedWalletPrivateKey := wifDecode walletPrivateKey in
    do* walletKeyRing :=
      newKeyRing witness_ (privateKey decodedWalletPrivateKey)
                 (compressed decodedWalletPrivateKey) in
    let walletAddress := getAddress walletKeyRing in
    do* inputCoin := coinFromTX (mainTransactionHex mainUtxo) (mainOutputIndex mainUtxo) in
    let inputCoins := [inputCoin] in
    do* '(transaction, txFee_) := prepareRedemption walletAddress mainUtxo redemptionRequests in
    do* '(inputs, outputs) :=
      fund (mtxInputs transaction) (mtxOutputs transaction) inputCoins walletAddress txFee_ in
    do* inputs' := signMtx inputs outputs walletKeyRing in
    Done (toRawHex inputs' outputs).

(** *** What the redemption transaction is made of *)

(** The value of the output of a request. *)
Definition requestOutputValue (request : RedemptionRequest) : Z :=
  requestAmount request - requestFeeShare request - treasuryFee request.

Definition totalOf (f : RedemptionRequest -> Z) (requests : list RedemptionRequest) : Z :=
  fold_right Z.add 0 (List.map f requests).

Definition isStandardAddress (a : Address) : bool :=
  isPubkeyhash a || isWitnessPubkeyhash a || isScripthash a || isWitnessScripthash a.

(** A request the loop accepts: its two amounts convert to numbers, its
    address parses and is of a standard type, and the value of its output
    is one an output can hold. *)
Definition requestAccepted (request : RedemptionRequest) : Prop :=
  exists outputNumber feeNumber address_ script_,
    bigToNumber (requestOutputValue request) = Done outputNumber /\
    bigToNumber (requestFeeShare request) = Done feeNumber /\
    addressFromString (address request) = Done address_ /\
    isStandardAddress address_ = true /\
    scriptFromAddress address_ = Done script_ /\
    isOutputValue outputNumber = true.

(** The output of a request the loop accepts, its amounts being converted
    to the numbers they are. *)
Definition requestOutput (request : RedemptionRequest) (output : MtxOutput) : Prop :=
  exists address_,
    bigToNumber (requestOutputValue request) = Done (requestOutputValue request) /\
    bigToNumber (requestFeeShare request) = Done (requestFeeShare request) /\
    addressFromString (address request) = Done address_ /\
    isStandardAddress address_ = true /\
    scriptFromAddress address_ = Done (outputScript output) /\
    isOutputValue (requestOutputValue request) = true /\
    outputValue output = requestOutputValue request /\
    0 <= requestOutputValue request /\ 0 <= requestFeeShare request.

End Create.

(** A model of the library, to run the function: an address is its own
    script in hexadecimal, standard when it is a P2PKH, P2WPKH, P2SH or
    P2WSH script; [fund] adds the coins as inputs and nothing else. *)
Definition modelBcoin : Bcoin := {|
  KeyRing := string;
  Address := bytes;
  Coin := string * Z;
  MtxInputs := list (string * Z);
  noInputs := [];
  wifDecode := fun k =>
    if String.eqb k "" then Throw "Invalid checksum"
    else Done {| privateKey := JsModel.bytesOfString k; compressed := true |};
  newKeyRing := fun witness_ key _ =>
    Done (JsModel.toHexString
            (if witness_
             then JsModel.p2wpkhOutputOfHash (JsModel.publicKeyHash (hex "02" ++ key))
             else JsModel.p2pkhOutputOfHash (JsModel.publicKeyHash (hex "02" ++ key))));
  getAddress := fun ring => ring;
  coinFromTX := fun hex_ i => if String.eqb hex_ "" then Throw "Out of bounds read" else Done (hex_, i);
  addressFromString := fun s =>
    match hex s with
    | [] => Throw "Invalid address"
    | script_ => Done script_
    end;
  isPubkeyhash := JsModel.isP2PKHScript;
  isWitnessPubkeyhash := JsModel.isP2WPKHScript;
  isScripthash := JsModel.isP2SHScript;
  isWitnessScripthash := JsModel.isP2WSHScript;
  scriptFromAddress := fun a => Done a;
  scriptFromString := fun s => Done (hex s);
  bigToNumber := JsModel.toNumber;
  isOutputValue := fun v => (0 <=? v) && (v <=? 2 ^ 53 - 1);
  outputValueError := "Value must be a uint64.";
  fund := fun inputs outputs coins _ _ => Done (inputs ++ coins, outputs);
  signMtx := fun inputs _ _ => Done inputs;
  toRawHex := fun inputs outputs =>
    JsModel.toHexString
      (concat (List.map (fun o => encodeLE 8 (outputValue o) ++ outputScript o) outputs))
|}.

End Redemption.

(** A redemption of two requests from a main UTXO of 1000000 satoshi. *)
Module RedemptionScenario.
Import Redemption.

Definition mainUtxo : MainUtxo :=
  {| mainTransactionHash := "3d28bb5bf73379da51bc683f4d0ed31d7b024466c619d80ebd9378077d900be3";
     mainOutputIndex := 1;
     mainValue := 1000000;
     mainTransactionHex := "0100000001" |}.

(** 300000 to a P2PKH address, 200000 to a P2WPKH address. *)
Definition request1 : RedemptionRequest :=
  {| address := "76a9144130879211c54df460e484ddf9aac009cb38ee7488ac";
     requestAmount := 300000; requestFeeShare := 1600; treasuryFee := 1000 |}.

Definition request2 : RedemptionRequest :=
  {| address := "00144130879211c54df460e484ddf9aac009cb38ee74";
     requestAmount := 200000; requestFeeShare := 1400; treasuryFee := 800 |}.

(** A request to an address that is no standard script. *)
Definition requestOdd : RedemptionRequest :=
  {| address := "6a0401020304";
     requestAmount := 100000; requestFeeShare := 1000; treasuryFee := 0 |}.

Definition walletKey : string := "wallet-private-key".

End RedemptionScenario.


(** ** DKG results for the wallet registry (TypeScript)

    [signDkgResult] and [hashDKGMembers] of the integration tests'
    [ecdsa-wallet-registry] utilities, over the functions of [ethers] they
    call.  Member identifiers and indices are numbers that hold integers. *)

Module EcdsaDkg.
Import DepositSweep.

(** [array.splice(start, 1)]: a negative [start] counts from the end, and a
    [start] at or past the end removes nothing. *)
Definition splice1 {A : Type} (array : list A) (start : Z) : list A :=
  let len := Z.of_nat (length array) in
  let actualStart := if start <? 0 then Z.max (len + start) 0 else Z.min start len in
  delete (Z.to_nat actualStart) array.

(** [for (let i = 0; i < misbehavedMembersIndices.length; i++)], from round
    [i] on: a zero index is skipped, any other removes the element at
    [index - i - 1]. *)
Fixpoint removeMisbehaved (i : Z) (misbehavedMembersIndices : list Z)
    (activeDkgMembers : list Z) : list Z :=
  match misbehavedMembersIndices with
  | [] => activeDkgMembers
  | index :: rest =>
      removeMisbehaved (i + 1) rest
        (if negb (index =? 0) then splice1 activeDkgMembers (index - i - 1)
         else activeDkgMembers)
  end.

Class Ethers : Type := {
  EthersSigner : Type;
  (** [keccak256(defaultAbiCoder.encode(["uint32[]"], [members]))] *)
  hashUint32Array : list Z -> outcome string;
  (** [solidityKeccak256(["bytes", "uint8[]", "uint256"], [key, indices, block])] *)
  hashDkgResult : bytes -> list Z -> Z -> outcome string;
  (** [signer.signMessage(arrayify(hash))] *)
  signMessage : EthersSigner -> string -> outcome string;
  hexConcat : list string -> string
}.

Record Operator {E : Ethers} : Type := {
  operatorId : Z;
  operatorSigner : EthersSigner
}.

Record DkgResult : Type := {
  submitterMemberIndex : Z;
  groupPubKey : bytes;
  misbehavedMembersIndices : list Z;
  dkgSignatures : string;
  signingMembersIndices : list Z;
  members : list Z;
  membersHash : string
}.

Section Dkg.
Context {E : Ethers}.

(** The members that are hashed: all of them, or those left by the loop
    when indices of misbehaved members are given. *)
Definition activeDkgMembers (members_ : list Z) (misbehaved : option (list Z)) : list Z :=
  match misbehaved with
  | Some indices =>
      if (0 <? length indices)%nat then removeMisbehaved 0 indices members_ else members_
  | None => members_
  end.

Definition hashDKGMembers (members_ : list Z) (misbehaved : option (list Z))
  : outcome string :=
  hashUint32Array (activeDkgMembers members_ misbehaved).

(** [signatures.length === numberOfSignatures], with
    [numberOfSignatures = signers.length / 2 + 1] a number that is not an
    integer when the number of signers is odd: the two are equal exactly
    when twice the one is twice the other. *)
Definition reachedNumberOfSignatures (signaturesLength signersLength : nat) : bool :=
  (2 * signaturesLength =? signersLength + 2)%nat.

(** The arrays the loop of [signDkgResult] fills. *)
Record SigningLoop : Type := {
  loopMembers : list Z;
  loopSigningMembersIndices : list Z;
  loopSignatures : list string
}.

(** [for (let i = 0; i < signers.length; i++)], from round [i] on. *)
Fixpoint signingLoop (signersLength : nat) (resultHash : string) (i : nat)
    (signers : list Operator) (st : SigningLoop) : outcome SigningLoop :=
  match signers with
  | [] => Done st
  | operator :: rest =>
      let members' := loopMembers st ++ [operatorId operator] in
      if reachedNumberOfSignatures (length (loopSignatures st)) signersLength then
        signingLoop signersLength resultHash (S i) rest
          {| loopMembers := members';
             loopSigningMembersIndices := loopSigningMembersIndices st;
             loopSignatures := loopSignatures st |}
      else
        let signerIndex := Z.of_nat i + 1 in
        do* signature := signMessage (operatorSigner operator) resultHash in
        signingLoop signersLength resultHash (S i) rest
          {| loopMembers := members';
             loopSigningMembersIndices := loopSigningMembersIndices st ++ [signerIndex];
             loopSignatures := loopSignatures st ++ [signature] |}
  end.

Definition signDkgResult (signers : list Operator) (groupPublicKey : bytes)
    (misbehavedMembersIndices_ : list Z) (startBlock submitterIndex : Z)
  : outcome (DkgResult * list Z * string) :=
  do* resultHash := hashDkgResult groupPublicKey misbehavedMembersIndices_ startBlock in
  do* st := signingLoop (length signers) resultHash 0 signers
              {| loopMembers := []; loopSigningMembersIndices := [];
                 loopSignatures := [] |} in
  let signaturesBytes := hexConcat (loopSignatures st) in
  do* membersHash_ := hashDKGMembers (loopMembers st) (Some misbehavedMembersIndices_) in
  Done ({| submitterMemberIndex := submitterIndex;
           groupPubKey := groupPublicKey;
           misbehavedMembersIndices := misbehavedMembersIndices_;
           dkgSignatures := signaturesBytes;
           signingMembersIndices := loopSigningMembersIndices st;
           members := loopMembers st;
           membersHash := membersHash_ |},
        loopSigningMembersIndices st, signaturesBytes).

(** *** What is removed, and who signs *)

(** The members whose position, counted from [position], is not listed. *)
Fixpoint membersNotListed (position : Z) (members_ : list Z) (listed : list Z) : list Z :=
  match members_ with
  | [] => []
  | member :: rest =>
      if existsb (Z.eqb position) listed then membersNotListed (position + 1) rest listed
      else member :: membersNotListed (position + 1) rest listed
  end.

(** Indices that increase strictly, all between [low] (excluded) and [high]. *)
Fixpoint increasingWithin (low high : Z) (indices : list Z) : Prop :=
  match indices with
  | [] => True
  | index :: rest => low < index <= high /\ increasingWithin index high rest
  end.

(** The number of members that sign, of [n]: one more than half of them
    when [n] is even, all of them when it is odd. *)
Definition signingCount (n : nat) : nat :=
  if Nat.even n then Nat.min n (n / 2 + 1) else n.

(** The members the loop lets sign, of those [left], with [count]
    signatures collected. *)
Definition signingNext (n count left : nat) : nat :=
  if Nat.even n then Nat.min left (n / 2 + 1 - count) else left.

End Dkg.

(** A model of [ethers] to run the functions: hashes and signatures are
    replaced by simple stand-ins. *)
Definition modelEthers : Ethers := {|
  EthersSigner := string;
  hashUint32Array := fun l =>
    if forallb (fun x => (0 <=? x) && (x <? 2 ^ 32)) l
    then Done (JsModel.toHexString (encodeBE 32 (SpvModel.keccak256 (concat (List.map (encodeBE 4) l)))))
    else Throw "value out-of-bounds";
  hashDkgResult := fun key indices startBlock =>
    if forallb (fun x => (0 <=? x) && (x <? 2 ^ 8)) indices
    then Done (JsModel.toHexString
                 (encodeBE 32 (SpvModel.keccak256
                    (key ++ concat (List.map (encodeBE 32) indices) ++ encodeBE 32 startBlock))))
    else Throw "value out-of-bounds";
  signMessage := fun signer h =>
    Done (JsModel.toHexString (SpvModel.hash160 (JsModel.bytesOfString (signer ++ h))));
  hexConcat := fun l => fold_right String.append EmptyString l
|}.

End EcdsaDkg.

Module DkgScenario.
Import EcdsaDkg.

(** A group of four and a group of five operators. *)
Definition operators (ids : list Z) : list (Operator (E := modelEthers)) :=
  List.map (fun id => @Build_Operator modelEthers id
                        (String (ascii_of_nat (Z.to_nat (64 + id))) EmptyString))
           ids.

Definition groupOfFour : list (Operator (E := modelEthers)) := operators [11; 12; 13; 14].
Definition groupOfFive : list (Operator (E := modelEthers)) := operators [11; 12; 13; 14; 15].

End DkgScenario.

(** ** What the Bank is asked to credit *)

Section BankCredits.
Context {L : SpvLibrary}.

(** The amounts a call passes to [bank.increaseBalances]: those of a
    sweep that is accepted. *)
Definition creditsOf (env : Env) (s : State) (c : Call) : list Z :=
  match c with
  | CallSweep sweepTx sweepProof previousSweep =>
      match sweep env s sweepTx sweepProof previousSweep with
      | Ok (_, (_, credits)) => credits
      | Err _ => []
      end
  | _ => []
  end.

(** All the amounts credited along a sequence of calls. *)
Fixpoint bankCredits (s : State) (calls : list (Env * Call)) : list Z :=
  match calls with
  | [] => []
  | ec :: rest => creditsOf (fst ec) s (snd ec) ++ bankCredits (step s ec) rest
  end.

End BankCredits.


(** * Properties *)

(** ** Results and checked arithmetic *)

Lemma bind_Ok_inv {A B : Type} (r : result A) (k : A -> result B) (b : B) :
  bind r k = Ok b -> exists a, r = Ok a /\ k a = Ok b.
Proof. destruct r as [a|e]; simpl; [eauto | discriminate]. Qed.

Lemma bind_Err_inv {A B : Type} (r : result A) (k : A -> result B) (e : Error) :
  bind r k = Err e -> r = Err e \/ exists a, r = Ok a /\ k a = Err e.
Proof. destruct r as [a|e']; simpl; [eauto | intros [= ->]; auto]. Qed.

Lemma require_Ok_inv (c : bool) (m : string) (u : unit) :
  require c m = Ok u -> c = true.
Proof. destruct c; [reflexivity | discriminate]. Qed.

Lemma require_true (m : string) : require true m = Ok tt.
Proof. reflexivity. Qed.

Lemma require_false (m : string) : require false m = Err (Revert m).
Proof. reflexivity. Qed.

Lemma checked_add_Ok (a b c : Z) :
  checked_add a b = Ok c -> c = a + b /\ a + b <= MAX_UINT256.
Proof.
  unfold checked_add. destruct (Z.leb_spec (a + b) MAX_UINT256); [|discriminate].
  intros [= <-]. auto.
Qed.

Lemma checked_sub_Ok (a b c : Z) :
  checked_sub a b = Ok c -> c = a - b /\ b <= a.
Proof.
  unfold checked_sub. destruct (Z.leb_spec b a); [|discriminate].
  intros [= <-]. auto.
Qed.

Lemma checked_sub_lt (a b : Z) :
  a < b -> checked_sub a b = Err (Panic PANIC_ARITHMETIC).
Proof. intros H. unfold checked_sub. destruct (Z.leb_spec b a); [lia | reflexivity]. Qed.

Lemma checked_sub_le (a b : Z) : b <= a -> checked_sub a b = Ok (a - b).
Proof. intros H. unfold checked_sub. destruct (Z.leb_spec b a); [reflexivity | lia]. Qed.

Lemma checked_mul_Ok (a b c : Z) :
  checked_mul a b = Ok c -> c = a * b /\ a * b <= MAX_UINT256.
Proof.
  unfold checked_mul. destruct (Z.leb_spec (a * b) MAX_UINT256); [|discriminate].
  intros [= <-]. auto.
Qed.

Lemma checked_mul_le (a b : Z) : a * b <= MAX_UINT256 -> checked_mul a b = Ok (a * b).
Proof.
  intros H. unfold checked_mul. destruct (Z.leb_spec (a * b) MAX_UINT256); [reflexivity | lia].
Qed.

Lemma checked_div_Ok (a b c : Z) :
  checked_div a b = Ok c -> c = a / b /\ b <> 0.
Proof.
  unfold checked_div. destruct (Z.eqb_spec b 0); [discriminate|].
  intros [= <-]. auto.
Qed.

Lemma checked_div_zero (a : Z) : checked_div a 0 = Err (Panic PANIC_DIVISION_BY_ZERO).
Proof. reflexivity. Qed.

Lemma array_set_Ok {A : Type} (a : list A) (i : nat) (x : A) (a' : list A) :
  array_set a i x = Ok a' -> (i < length a)%nat /\ a' = <[i := x]> a.
Proof.
  unfold array_set. destruct (decide (i < length a)%nat); [|discriminate].
  intros [= <-]. auto.
Qed.

Lemma array_set_out {A : Type} (a : list A) (i : nat) (x : A) :
  (length a <= i)%nat -> array_set a i x = Err (Panic PANIC_ARRAY_OUT_OF_BOUNDS).
Proof.
  intros H. unfold array_set. destruct (decide (i < length a)%nat); [lia | reflexivity].
Qed.

(** Splits a hypothesis [bind r k = Ok b] into the two steps it records. *)
Ltac inv_bind H :=
  let a := fresh "v" in
  let Ha := fresh "Hstep" in
  apply bind_Ok_inv in H as (a & Ha & H).

(** Closes a conjunction of closed equations by evaluating each. *)
Ltac by_computation :=
  repeat match goal with |- _ /\ _ => split end; vm_compute; reflexivity.

Ltac inv_require H :=
  let u := fresh "u" in
  let Hr := fresh "Hreq" in
  apply bind_Ok_inv in H as (u & Hr & H);
  apply require_Ok_inv in Hr.

(** ** The input loop of [processSweepTxInputs] *)

Section InputLoop.
Context {L : SpvLibrary}.
Variable env : Env.
Variable vector : bytes.
Variable previousSweep : SweepInfo.

Lemma processSweepTxInput_Ok (st st' : SweepLoop) :
  processSweepTxInput env vector previousSweep st = Ok st' ->
  exists inputTxHash inputTxIndex inputLength,
    parseTxInputAt vector (lInputStartingIndex st)
      = Ok (inputTxHash, inputTxIndex, inputLength) /\
    checked_add (lInputStartingIndex st) inputLength = Ok (lInputStartingIndex st') /\
    RoundOutcome env previousSweep st st' inputTxHash inputTxIndex.
Proof.
  unfold processSweepTxInput. intros H.
  inv_bind H. destruct v as [[h i] l]. exists h, i, l. split; [assumption|].
  inv_bind H. rename v into st1.
  inv_bind H. injection H as <-. simpl.
  unfold isRevealed.
  destruct (negb (revealedAt (getDeposit (lDeposits st) (depositKey h i)) =? 0)) eqn:Hrev.
  - inv_require Hstep0. apply Z.eqb_eq in Hreq.
    inv_bind Hstep0. apply array_set_Ok in Hstep2 as [Hlt1 ->].
    inv_bind Hstep0. apply array_set_Ok in Hstep2 as [Hlt2 ->].
    inv_bind Hstep0. unfold array_get in Hstep2.
    rewrite list_lookup_insert_eq in Hstep2 by assumption. injection Hstep2 as <-.
    inv_bind Hstep0. apply checked_add_Ok in Hstep2 as [-> _].
    injection Hstep0 as <-. simpl in *.
    split; [assumption|].
    apply RoundDeposit; simpl; auto.
  - destruct (negb (lPreviousSweepFlag st) && (txHash previousSweep =? h)) eqn:Hprev;
      [|discriminate].
    apply andb_true_iff in Hprev as [Hflag Hh].
    apply negb_true_iff in Hflag. apply Z.eqb_eq in Hh.
    inv_bind Hstep0. apply checked_add_Ok in Hstep2 as [-> _].
    injection Hstep0 as <-. simpl in *.
    split; [assumption|].
    apply RoundPreviousSweep; simpl; auto.
Qed.


Lemma processSweepTxInput_unknown (st : SweepLoop) (h i l : Z) :
  parseTxInputAt vector (lInputStartingIndex st) = Ok (h, i, l) ->
  isRevealed (lDeposits st) (depositKey h i) = false ->
  lPreviousSweepFlag st = true \/ txHash previousSweep <> h ->
  processSweepTxInput env vector previousSweep st = Err (Revert "Unknown input type").
Proof.
  intros Hp Hrev Hs. unfold processSweepTxInput. rewrite Hp. simpl.
  unfold isRevealed in Hrev. rewrite Hrev.
  destruct Hs as [-> | Hne]; [reflexivity|].
  apply Z.eqb_neq in Hne. rewrite Hne, andb_false_r. reflexivity.
Qed.

End InputLoop.

Section InputLoopInvariants.
Context {L : SpvLibrary}.
Variable env : Env.
Variable vector : bytes.
Variable previousSweep : SweepInfo.

Lemma getDeposit_insert (deps : gmap Z DepositInfo) (k k' : Z) (d : DepositInfo) :
  getDeposit (<[k := d]> deps) k' = if decide (k = k') then d else getDeposit deps k'.
Proof.
  unfold getDeposit. rewrite lookup_insert. destruct (decide (k = k')); reflexivity.
Qed.

(** Induction over a successful run of the loop: it ends at once, or it
    performs a round on the input at the current offset and goes on. *)
Lemma sweepInputsLoop_ind (P : nat -> SweepLoop -> SweepLoop -> Prop) :
  (forall st, P O st st) ->
  (forall rounds st,
      len vector <= lInputStartingIndex st ->
      inputOutpointsFrom vector (S rounds) (lInputStartingIndex st) = [] ->
      P (S rounds) st st) ->
  (forall rounds st st1 st' h i,
      lInputStartingIndex st < len vector ->
      inputOutpointsFrom vector (S rounds) (lInputStartingIndex st)
        = (h, i) :: inputOutpointsFrom vector rounds (lInputStartingIndex st1) ->
      RoundOutcome env previousSweep st st1 h i ->
      sweepInputsLoop env vector previousSweep rounds st1 = Ok st' ->
      P rounds st1 st' ->
      P (S rounds) st st') ->
  forall rounds st st',
    sweepInputsLoop env vector previousSweep rounds st = Ok st' -> P rounds st st'.
Proof.
  intros Hzero Hbreak Hround. induction rounds as [|rounds IH]; intros st st' H.
  - injection H as <-. apply Hzero.
  - simpl in H. destruct (Z.leb_spec (len vector) (lInputStartingIndex st)) as [Hend|Hin].
    + injection H as <-. apply Hbreak; [assumption|].
      simpl. destruct (Z.leb_spec (len vector) (lInputStartingIndex st)); [reflexivity|lia].
    + inv_bind H. rename v into st1.
      destruct (processSweepTxInput_Ok env vector previousSweep st st1 Hstep)
        as (h & i & l & Hparse & Hnext & Hout).
      apply (Hround rounds st st1 st' h i); auto.
      simpl. destruct (Z.leb_spec (len vector) (lInputStartingIndex st)); [lia|].
      rewrite Hparse, Hnext. reflexivity.
Qed.

Lemma sameButSwept_refl (deps : gmap Z DepositInfo) : sameButSwept deps deps.
Proof. intros k. auto. Qed.

Lemma sameButSwept_trans (d1 d2 d3 : gmap Z DepositInfo) :
  sameButSwept d1 d2 -> sameButSwept d2 d3 -> sameButSwept d1 d3.
Proof.
  intros H12 H23 k. destruct (H12 k) as (?&?&?&?), (H23 k) as (?&?&?&?).
  repeat split; congruence.
Qed.

Lemma sameButSwept_sweptRecord (deps : gmap Z DepositInfo) (k : Z) :
  sameButSwept deps (<[k := sweptRecord env (getDeposit deps k)]> deps).
Proof.
  intros k'. rewrite getDeposit_insert.
  destruct (decide (k = k')) as [<-|]; simpl; auto.
Qed.

Lemma RoundOutcome_same (st st1 : SweepLoop) (h i : Z) :
  RoundOutcome env previousSweep st st1 h i ->
  sameButSwept (lDeposits st) (lDeposits st1).
Proof.
  intros [key deposit ? ? ? ? -> | ? ? ? ->].
  - apply sameButSwept_sweptRecord.
  - apply sameButSwept_refl.
Qed.

Lemma sweepInputsLoop_same (rounds : nat) (st st' : SweepLoop) :
  sweepInputsLoop env vector previousSweep rounds st = Ok st' ->
  sameButSwept (lDeposits st) (lDeposits st').
Proof.
  revert rounds st st'.
  apply (sweepInputsLoop_ind (fun _ st st' => sameButSwept (lDeposits st) (lDeposits st'))).
  - intros. apply sameButSwept_refl.
  - intros. apply sameButSwept_refl.
  - intros rounds st st1 st' h i _ _ Hout _ IH.
    eapply sameButSwept_trans; [eapply RoundOutcome_same; eassumption | exact IH].
Qed.

Lemma isRevealed_same (deps deps' : gmap Z DepositInfo) (k : Z) :
  sameButSwept deps deps' -> isRevealed deps' k = isRevealed deps k.
Proof. intros H. unfold isRevealed. destruct (H k) as (_&_&->&_). reflexivity. Qed.

Lemma depositKeysOf_same (deps deps' : gmap Z DepositInfo) (ops : list (Z * Z)) :
  sameButSwept deps deps' -> depositKeysOf deps' ops = depositKeysOf deps ops.
Proof.
  intros H. unfold depositKeysOf. induction (List.map outpointKey ops) as [|k ks IH];
    [reflexivity|]. simpl. rewrite (isRevealed_same _ _ k H), IH. reflexivity.
Qed.

Lemma amountOf_same (deps deps' : gmap Z DepositInfo) (ks : list Z) :
  sameButSwept deps deps' -> List.map (amountOf deps') ks = List.map (amountOf deps) ks.
Proof.
  intros H. apply map_ext. intros k. unfold amountOf. destruct (H k) as (_&->&_). reflexivity.
Qed.

Lemma depositorOf_same (deps deps' : gmap Z DepositInfo) (ks : list Z) :
  sameButSwept deps deps' ->
  List.map (depositorOf deps') ks = List.map (depositorOf deps) ks.
Proof.
  intros H. apply map_ext. intros k. unfold depositorOf. destruct (H k) as (->&_). reflexivity.
Qed.

Lemma depositKeysOf_cons (deps : gmap Z DepositInfo) (o : Z * Z) (ops : list (Z * Z)) :
  depositKeysOf deps (o :: ops)
  = if isRevealed deps (outpointKey o) then outpointKey o :: depositKeysOf deps ops
    else depositKeysOf deps ops.
Proof. reflexivity. Qed.

End InputLoopInvariants.

Section InputLoopSummary.
Context {L : SpvLibrary}.
Variable env : Env.
Variable vector : bytes.
Variable previousSweep : SweepInfo.

Abbreviation loop := (sweepInputsLoop env vector previousSweep).
Abbreviation visited rounds st := (inputOutpointsFrom vector rounds (lInputStartingIndex st)).
Abbreviation credited rounds st := (depositKeysOf (lDeposits st) (visited rounds st)).

(** Once the previous sweep is accounted for, it stays so. *)
Lemma sweepInputsLoop_flag (rounds : nat) (st st' : SweepLoop) :
  loop rounds st = Ok st' ->
  lPreviousSweepFlag st = true -> lPreviousSweepFlag st' = true.
Proof.
  revert rounds st st'.
  apply (sweepInputsLoop_ind env vector previousSweep
           (fun _ st st' => lPreviousSweepFlag st = true -> lPreviousSweepFlag st' = true));
    auto.
  intros rounds st st1 st' h i _ _ Hout _ IH Hflag. apply IH.
  destruct Hout; congruence.
Qed.

(** The arrays are filled from [processedDepositsCount] on with the
    depositors and amounts of the deposits among the inputs. *)
Lemma sweepInputsLoop_arrays (rounds : nat) (st st' : SweepLoop) :
  loop rounds st = Ok st' ->
  let keys := credited rounds st in
  let c := lProcessedDepositsCount st in
  lProcessedDepositsCount st' = (c + length keys)%nat /\
  lDepositedAmounts st' =
    take c (lDepositedAmounts st) ++ List.map (amountOf (lDeposits st)) keys
    ++ drop (c + length keys) (lDepositedAmounts st) /\
  lDepositors st' =
    take c (lDepositors st) ++ List.map (depositorOf (lDeposits st)) keys
    ++ drop (c + length keys) (lDepositors st).
Proof.
  revert rounds st st'.
  apply (sweepInputsLoop_ind env vector previousSweep
    (fun rounds st st' =>
       let keys := credited rounds st in
       let c := lProcessedDepositsCount st in
       lProcessedDepositsCount st' = (c + length keys)%nat /\
       lDepositedAmounts st' =
         take c (lDepositedAmounts st) ++ List.map (amountOf (lDeposits st)) keys
         ++ drop (c + length keys) (lDepositedAmounts st) /\
       lDepositors st' =
         take c (lDepositors st) ++ List.map (depositorOf (lDeposits st)) keys
         ++ drop (c + length keys) (lDepositors st))).
  - intros st. simpl. rewrite Nat.add_0_r, !take_drop. auto.
  - intros rounds st _ ->. simpl. rewrite Nat.add_0_r, !take_drop. auto.
  - intros rounds st st1 st' h i _ -> Hout _ IH.
    pose proof (RoundOutcome_same env previousSweep st st1 h i Hout) as Hsame.
    cbv zeta in IH. rewrite (depositKeysOf_same _ _ _ Hsame) in IH.
    rewrite (amountOf_same _ _ _ Hsame), (depositorOf_same _ _ _ Hsame) in IH.
    destruct IH as (IHc & IHa & IHd).
    cbv zeta. rewrite depositKeysOf_cons. unfold outpointKey. simpl fst. simpl snd.
    destruct Hout as [key deposit Hrev Hswept Hlt1 Hlt2 _ _ Hd Ha Hc _
                     | Hrev _ _ _ _ Hd Ha Hc _].
    + subst key deposit. rewrite Hrev. simpl length. simpl List.map.
      rewrite Hc, Ha, Hd in *. clear Ha Hd Hc.
      split; [lia|].
      split.
      * rewrite IHa.
        rewrite (take_S_r _ _ (amount (getDeposit (lDeposits st) (depositKey h i))))
          by (apply list_lookup_insert_eq; assumption).
        rewrite take_insert_ge by lia.
        rewrite drop_insert_lt by lia.
        rewrite <- app_assoc. simpl.
        replace (lProcessedDepositsCount st
                 + S (length (depositKeysOf (lDeposits st)
                        (inputOutpointsFrom vector rounds (lInputStartingIndex st1)))))%nat
          with (S (lProcessedDepositsCount st)
                + length (depositKeysOf (lDeposits st)
                        (inputOutpointsFrom vector rounds (lInputStartingIndex st1))))%nat
          by lia.
        reflexivity.
      * rewrite IHd.
        rewrite (take_S_r _ _ (dDepositor (getDeposit (lDeposits st) (depositKey h i))))
          by (apply list_lookup_insert_eq; assumption).
        rewrite take_insert_ge by lia.
        rewrite drop_insert_lt by lia.
        rewrite <- app_assoc. simpl.
        replace (lProcessedDepositsCount st
                 + S (length (depositKeysOf (lDeposits st)
                        (inputOutpointsFrom vector rounds (lInputStartingIndex st1)))))%nat
          with (S (lProcessedDepositsCount st)
                + length (depositKeysOf (lDeposits st)
                        (inputOutpointsFrom vector rounds (lInputStartingIndex st1))))%nat
          by lia.
        reflexivity.
    + rewrite Hrev. rewrite Hc, Ha, Hd in *. auto.
Qed.

(** The value of the inputs: the amounts of the deposits, and the output
    of the previous sweep if an input consumed it. *)
Lemma sweepInputsLoop_value (rounds : nat) (st st' : SweepLoop) :
  loop rounds st = Ok st' ->
  lInputsValue st' =
    lInputsValue st + sumZ (List.map (amountOf (lDeposits st)) (credited rounds st))
    + (if negb (lPreviousSweepFlag st) && lPreviousSweepFlag st'
       then txOutputValue previousSweep else 0).
Proof.
  revert rounds st st'.
  apply (sweepInputsLoop_ind env vector previousSweep
    (fun rounds st st' =>
       lInputsValue st' =
         lInputsValue st + sumZ (List.map (amountOf (lDeposits st)) (credited rounds st))
         + (if negb (lPreviousSweepFlag st) && lPreviousSweepFlag st'
            then txOutputValue previousSweep else 0))).
  - intros st. simpl. rewrite andb_negb_l. lia.
  - intros rounds st _ ->. simpl. rewrite andb_negb_l. lia.
  - intros rounds st st1 st' h i _ -> Hout Hloop IH.
    pose proof (RoundOutcome_same env previousSweep st st1 h i Hout) as Hsame.
    rewrite (depositKeysOf_same _ _ _ Hsame), (amountOf_same _ _ _ Hsame) in IH.
    rewrite depositKeysOf_cons. unfold outpointKey. simpl fst. simpl snd.
    pose proof (sweepInputsLoop_flag rounds st1 st' Hloop) as Hmono.
    destruct Hout as [key deposit Hrev _ _ _ _ Hv _ _ _ Hf
                     | Hrev Hf0 _ _ Hv _ _ _ Hf1].
    + subst key deposit. rewrite Hrev. simpl. rewrite IH, Hv, Hf.
      unfold amountOf. lia.
    + rewrite Hrev. rewrite IH, Hv, Hf0, Hf1, (Hmono Hf1). simpl. lia.
Qed.

(** Every input is a revealed deposit, but for at most one: the input
    that consumes the previous sweep, whose transaction hash it spends. *)
Lemma sweepInputsLoop_inputs (rounds : nat) (st st' : SweepLoop) :
  loop rounds st = Ok st' ->
  length (visited rounds st) =
    (length (credited rounds st)
     + (if negb (lPreviousSweepFlag st) && lPreviousSweepFlag st' then 1 else 0))%nat /\
  (lPreviousSweepFlag st = false -> lPreviousSweepFlag st' = true ->
   exists i, In (txHash previousSweep, i) (visited rounds st) /\
             isRevealed (lDeposits st) (depositKey (txHash previousSweep) i) = false).
Proof.
  revert rounds st st'.
  apply (sweepInputsLoop_ind env vector previousSweep
    (fun rounds st st' =>
       length (visited rounds st) =
         (length (credited rounds st)
          + (if negb (lPreviousSweepFlag st) && lPreviousSweepFlag st' then 1 else 0))%nat /\
       (lPreviousSweepFlag st = false -> lPreviousSweepFlag st' = true ->
        exists i, In (txHash previousSweep, i) (visited rounds st) /\
                  isRevealed (lDeposits st) (depositKey (txHash previousSweep) i) = false))).
  - intros st. simpl. rewrite andb_negb_l. split; [reflexivity | congruence].
  - intros rounds st _ ->. simpl. rewrite andb_negb_l. split; [reflexivity | congruence].
  - intros rounds st st1 st' h i _ -> Hout Hloop [IHn IHp].
    pose proof (RoundOutcome_same env previousSweep st st1 h i Hout) as Hsame.
    rewrite (depositKeysOf_same _ _ _ Hsame) in IHn.
    rewrite depositKeysOf_cons. unfold outpointKey. simpl fst. simpl snd.
    pose proof (sweepInputsLoop_flag rounds st1 st' Hloop) as Hmono.
    destruct Hout as [key deposit Hrev _ _ _ _ _ _ _ _ Hf
                     | Hrev Hf0 Hh _ _ _ _ _ Hf1].
    + subst key deposit. rewrite Hrev. simpl length. rewrite IHn, Hf. split; [lia|].
      intros H0 H1. rewrite Hf in IHp. destruct (IHp H0 H1) as (j & Hin & Hj).
      exists j. split; [right; assumption|].
      rewrite <- (isRevealed_same _ _ _ Hsame). assumption.
    + rewrite Hrev. simpl length. rewrite IHn, Hf0, Hf1, (Hmono Hf1). simpl.
      split; [lia|]. intros _ _. exists i. subst h. split; [left; reflexivity | assumption].
Qed.

End InputLoopSummary.

Section InputLoopRecords.
Context {L : SpvLibrary}.
Variable env : Env.
Variable vector : bytes.
Variable previousSweep : SweepInfo.

Abbreviation loop' := (sweepInputsLoop env vector previousSweep).
Abbreviation credited' rounds st :=
  (depositKeysOf (lDeposits st) (inputOutpointsFrom vector rounds (lInputStartingIndex st))).

Lemma RoundOutcome_swept_frame (st st1 : SweepLoop) (h i k : Z) :
  RoundOutcome env previousSweep st st1 h i ->
  sweptAt (getDeposit (lDeposits st) k) <> 0 ->
  getDeposit (lDeposits st1) k = getDeposit (lDeposits st) k.
Proof.
  intros [key deposit _ Hswept _ _ -> | _ _ _ ->] Hk; [|reflexivity].
  rewrite getDeposit_insert. destruct (decide (key = k)) as [<-|]; [|reflexivity].
  subst deposit. contradiction.
Qed.

(** A record whose [sweptAt] is set is left as it is. *)
Lemma sweepInputsLoop_swept_frame (rounds : nat) (st st' : SweepLoop) (k : Z) :
  loop' rounds st = Ok st' ->
  sweptAt (getDeposit (lDeposits st) k) <> 0 ->
  getDeposit (lDeposits st') k = getDeposit (lDeposits st) k.
Proof.
  revert rounds st st'.
  apply (sweepInputsLoop_ind env vector previousSweep
    (fun _ st st' =>
       sweptAt (getDeposit (lDeposits st) k) <> 0 ->
       getDeposit (lDeposits st') k = getDeposit (lDeposits st) k)); auto.
  intros rounds st st1 st' h i _ _ Hout _ IH Hk.
  pose proof (RoundOutcome_swept_frame st st1 h i k Hout Hk) as H1.
  rewrite IH; [assumption | rewrite H1; assumption].
Qed.

(** The deposits credited were unswept when the loop began. *)
Lemma sweepInputsLoop_credited_unswept (rounds : nat) (st st' : SweepLoop) :
  loop' rounds st = Ok st' ->
  forall k, In k (credited' rounds st) -> sweptAt (getDeposit (lDeposits st) k) = 0.
Proof.
  revert rounds st st'.
  apply (sweepInputsLoop_ind env vector previousSweep
    (fun rounds st st' =>
       forall k, In k (credited' rounds st) -> sweptAt (getDeposit (lDeposits st) k) = 0)).
  - intros st k [].
  - intros rounds st _ -> k [].
  - intros rounds st st1 st' h i _ -> Hout _ IH k.
    pose proof (RoundOutcome_same env previousSweep st st1 h i Hout) as Hsame.
    rewrite depositKeysOf_cons. unfold outpointKey. simpl fst. simpl snd.
    rewrite <- (depositKeysOf_same _ _ _ Hsame).
    assert (Hrest : In k (credited' rounds st1) -> sweptAt (getDeposit (lDeposits st) k) = 0).
    { intros Hin. destruct (Z.eq_dec (sweptAt (getDeposit (lDeposits st) k)) 0) as [|Hne];
        [assumption|].
      pose proof (RoundOutcome_swept_frame st st1 h i k Hout Hne) as Heq.
      specialize (IH k Hin). rewrite Heq in IH. contradiction. }
    destruct (isRevealed (lDeposits st) (depositKey h i)) eqn:Hrev; [|exact Hrest].
    intros [<- | Hin]; [|auto].
    destruct Hout as [key deposit _ Hswept _ _ _ _ _ _ _ _ | Hrev' _ _ _ _ _ _ _ _];
      [assumption | congruence].
Qed.

(** The records after the loop: the credited deposits are marked swept at
    [block.timestamp], every other record is as before. *)
Lemma sweepInputsLoop_records (rounds : nat) (st st' : SweepLoop) :
  loop' rounds st = Ok st' ->
  forall k,
    (In k (credited' rounds st) ->
     getDeposit (lDeposits st') k = sweptRecord env (getDeposit (lDeposits st) k)) /\
    (~ In k (credited' rounds st) ->
     getDeposit (lDeposits st') k = getDeposit (lDeposits st) k).
Proof.
  revert rounds st st'.
  apply (sweepInputsLoop_ind env vector previousSweep
    (fun rounds st st' =>
       forall k,
         (In k (credited' rounds st) ->
          getDeposit (lDeposits st') k = sweptRecord env (getDeposit (lDeposits st) k)) /\
         (~ In k (credited' rounds st) ->
          getDeposit (lDeposits st') k = getDeposit (lDeposits st) k))).
  - intros st k. split; [intros [] | reflexivity].
  - intros rounds st _ -> k. split; [intros [] | reflexivity].
  - intros rounds st st1 st' h i _ -> Hout _ IH k.
    pose proof (RoundOutcome_same env previousSweep st st1 h i Hout) as Hsame.
    rewrite depositKeysOf_cons. unfold outpointKey. simpl fst. simpl snd.
    rewrite <- (depositKeysOf_same _ _ _ Hsame).
    destruct (IH k) as [IHin IHout]. clear IH.
    destruct Hout as [key deposit Hrev _ _ _ Hd _ _ _ _ _ | Hrev _ _ Hd _ _ _ _ _].
    + subst key deposit. rewrite Hrev.
      assert (H1 : getDeposit (lDeposits st1) k =
                   if decide (depositKey h i = k)
                   then sweptRecord env (getDeposit (lDeposits st) (depositKey h i))
                   else getDeposit (lDeposits st) k)
        by (rewrite Hd; apply getDeposit_insert).
      destruct (in_dec Z.eq_dec k (credited' rounds st1)) as [Hin|Hnin].
      * split; [|intros Hn; exfalso; apply Hn; right; assumption].
        intros _. rewrite (IHin Hin), H1.
        destruct (decide (depositKey h i = k)) as [<-|]; reflexivity.
      * rewrite (IHout Hnin), H1.
        destruct (decide (depositKey h i = k)) as [<-|Hne].
        -- split; [reflexivity | intros Hn; exfalso; apply Hn; left; reflexivity].
        -- split; [intros [Heq|Hin]; [contradiction | contradiction] | reflexivity].
    + rewrite Hrev. rewrite Hd in IHin, IHout |- *. split; assumption.
Qed.

(** With a non-zero timestamp no deposit occurs twice among the inputs of a
    sweep that succeeds. *)
Lemma sweepInputsLoop_NoDup (rounds : nat) (st st' : SweepLoop) :
  uint32 (timestamp env) <> 0 ->
  loop' rounds st = Ok st' ->
  List.NoDup (credited' rounds st).
Proof.
  intros Hts. revert rounds st st'.
  apply (sweepInputsLoop_ind env vector previousSweep
    (fun rounds st st' => List.NoDup (credited' rounds st))).
  - intros st. constructor.
  - intros rounds st _ ->. constructor.
  - intros rounds st st1 st' h i _ -> Hout Hloop IH.
    pose proof (RoundOutcome_same env previousSweep st st1 h i Hout) as Hsame.
    rewrite depositKeysOf_cons. unfold outpointKey. simpl fst. simpl snd.
    rewrite <- (depositKeysOf_same _ _ _ Hsame).
    destruct (isRevealed (lDeposits st) (depositKey h i)) eqn:Hrev; [|assumption].
    constructor; [|assumption].
    intros Hin.
    pose proof (sweepInputsLoop_credited_unswept rounds st1 st' Hloop _ Hin) as H0.
    destruct Hout as [key deposit _ _ _ _ Hd _ _ _ _ _ | Hrev' _ _ _ _ _ _ _ _];
      [|congruence].
    subst key. rewrite Hd, getDeposit_insert in H0.
    destruct (decide (depositKey h i = depositKey h i)); [|contradiction].
    simpl in H0. contradiction.
Qed.

End InputLoopRecords.

(** ** [processSweepTxInputs] and [sweep], step by step *)

Section SweepSteps.
Context {L : SpvLibrary}.

(** The loop as [processSweepTxInputs] starts it. *)
Lemma processSweepTxInputs_Ok (env : Env) (s s1 : State) (vector : bytes)
    (previousSweep : SweepInfo) (value : Z) (depositors depositedAmounts : list Z) :
  processSweepTxInputs env s vector previousSweep
    = Ok (s1, value, depositors, depositedAmounts) ->
  exists compactLength inputsCount start size st',
    parseVarInt vector = Ok (compactLength, inputsCount) /\
    checked_add 1 compactLength = Ok start /\
    (if txHash previousSweep =? 0 then Ok inputsCount else checked_sub inputsCount 1)
      = Ok size /\
    sweepInputsLoop env vector previousSweep (Z.to_nat inputsCount)
      {| lDeposits := deposits s;
         lInputsValue := 0;
         lDepositors := replicate (Z.to_nat size) 0;
         lDepositedAmounts := replicate (Z.to_nat size) 0;
         lProcessedDepositsCount := O;
         lPreviousSweepFlag := txHash previousSweep =? 0;
         lInputStartingIndex := start |} = Ok st' /\
    lPreviousSweepFlag st' = true /\
    s1 = {| owner := owner s; isVaultTrusted := isVaultTrusted s;
            deposits := lDeposits st'; sweeps := sweeps s |} /\
    value = lInputsValue st' /\
    depositors = lDepositors st' /\
    depositedAmounts = lDepositedAmounts st'.
Proof.
  unfold processSweepTxInputs. intros H.
  inv_bind H. destruct v as [cl n].
  inv_bind H. rename v into start.
  inv_bind H. rename v into size.
  inv_bind H. rename v into st'.
  inv_require H. injection H as <- <- <- <-.
  rewrite length_replicate in Hstep2.
  exists cl, n, start, size, st'. repeat split; assumption.
Qed.

(** What a successful [processSweepTxInputs] computed, in terms of the
    deposits among the inputs of the transaction. *)
Lemma processSweepTxInputs_summary (env : Env) (s s1 : State) (vector : bytes)
    (previousSweep : SweepInfo) (value : Z) (depositors depositedAmounts : list Z) :
  processSweepTxInputs env s vector previousSweep
    = Ok (s1, value, depositors, depositedAmounts) ->
  let keys := sweptDepositKeys s vector in
  (exists pad : nat,
     depositedAmounts = List.map (amountOf (deposits s)) keys ++ replicate pad 0 /\
     depositors = List.map (depositorOf (deposits s)) keys ++ replicate pad 0) /\
  value = sumZ (List.map (amountOf (deposits s)) keys)
          + (if txHash previousSweep =? 0 then 0 else txOutputValue previousSweep) /\
  length (sweepInputOutpoints vector)
    = (length keys + (if (txHash previousSweep =? 0)%Z then 0 else 1))%nat /\
  (txHash previousSweep <> 0 ->
   exists i, In (txHash previousSweep, i) (sweepInputOutpoints vector) /\
             isRevealed (deposits s) (depositKey (txHash previousSweep) i) = false) /\
  (forall k, In k keys -> sweptAt (getDeposit (deposits s) k) = 0) /\
  (forall k, In k keys ->
             getDeposit (deposits s1) k = sweptRecord env (getDeposit (deposits s) k)) /\
  (forall k, ~ In k keys -> getDeposit (deposits s1) k = getDeposit (deposits s) k) /\
  (uint32 (timestamp env) <> 0 -> List.NoDup keys) /\
  owner s1 = owner s /\ isVaultTrusted s1 = isVaultTrusted s /\ sweeps s1 = sweeps s.
Proof.
  intros H.
  destruct (processSweepTxInputs_Ok _ _ _ _ _ _ _ _ H)
    as (cl & n & start & size & st' & Hparse & Hstart & Hsize & Hloop & Hflag
        & -> & -> & -> & ->).
  assert (Hkeys : sweptDepositKeys s vector
                  = depositKeysOf (deposits s) (inputOutpointsFrom vector (Z.to_nat n) start)).
  { unfold sweptDepositKeys, sweepInputOutpoints. rewrite Hparse, Hstart. reflexivity. }
  assert (Hops : sweepInputOutpoints vector = inputOutpointsFrom vector (Z.to_nat n) start).
  { unfold sweepInputOutpoints. rewrite Hparse, Hstart. reflexivity. }
  cbv zeta. rewrite Hkeys, Hops. simpl deposits. simpl owner. simpl isVaultTrusted.
  simpl sweeps.
  pose proof (sweepInputsLoop_arrays _ _ _ _ _ _ Hloop) as (_ & Ha & Hd).
  pose proof (sweepInputsLoop_value _ _ _ _ _ _ Hloop) as Hv.
  pose proof (sweepInputsLoop_inputs _ _ _ _ _ _ Hloop) as (Hn & Hp).
  pose proof (sweepInputsLoop_credited_unswept _ _ _ _ _ _ Hloop) as Hu.
  pose proof (sweepInputsLoop_records _ _ _ _ _ _ Hloop) as Hr.
  simpl in Ha, Hd, Hv, Hn, Hp, Hu, Hr. rewrite Hflag in Hv, Hn.
  rewrite andb_true_r in Hv, Hn.
  repeat split.
  - exists (Z.to_nat size - length (depositKeysOf (deposits s)
                                      (inputOutpointsFrom vector (Z.to_nat n) start)))%nat.
    rewrite Ha, Hd, !drop_replicate. auto.
  - rewrite Hv. destruct (txHash previousSweep =? 0); simpl; lia.
  - rewrite Hn. destruct (txHash previousSweep =? 0); reflexivity.
  - intros Hne. apply Hp; [apply Z.eqb_neq; assumption | assumption].
  - exact Hu.
  - intros k Hin. apply (Hr k). assumption.
  - intros k Hin. apply (Hr k). assumption.
  - intros Hts. exact (sweepInputsLoop_NoDup _ _ _ _ _ _ Hts Hloop).
Qed.

Lemma reduceByFeeShare_Ok (feeShare : Z) (amounts credits : list Z) :
  reduceByFeeShare feeShare amounts = Ok credits ->
  credits = List.map (fun a => a - feeShare) amounts /\
  List.Forall (fun a => feeShare <= a) amounts.
Proof.
  revert credits. induction amounts as [|a rest IH]; intros credits H; simpl in H.
  - injection H as <-. split; [reflexivity | constructor].
  - inv_bind H. apply checked_sub_Ok in Hstep as [-> Hle].
    inv_bind H. injection H as <-.
    destruct (IH _ Hstep) as [-> Hall].
    split; [reflexivity | constructor; assumption].
Qed.

Lemma reduceByFeeShare_short (feeShare : Z) (amounts : list Z) :
  List.Exists (fun a => a < feeShare) amounts ->
  reduceByFeeShare feeShare amounts = Err (Panic PANIC_ARITHMETIC).
Proof.
  induction 1 as [a rest Hlt | a rest _ IH]; simpl.
  - rewrite (checked_sub_lt _ _ Hlt). reflexivity.
  - unfold checked_sub. destruct (Z.leb_spec feeShare a); simpl; [|reflexivity].
    rewrite IH. reflexivity.
Qed.

Lemma reduceByFeeShare_enough (feeShare : Z) (amounts : list Z) :
  List.Forall (fun a => feeShare <= a) amounts ->
  reduceByFeeShare feeShare amounts = Ok (List.map (fun a => a - feeShare) amounts).
Proof.
  induction 1 as [|a rest Hle _ IH]; simpl; [reflexivity|].
  rewrite (checked_sub_le _ _ Hle). simpl. rewrite IH. reflexivity.
Qed.

Lemma sumZ_app (l1 l2 : list Z) : sumZ (l1 ++ l2) = sumZ l1 + sumZ l2.
Proof. induction l1 as [|a l1 IH]; simpl; [reflexivity | rewrite IH; lia]. Qed.

Lemma sumZ_replicate_0 (n : nat) : sumZ (replicate n 0) = 0.
Proof. induction n as [|n IH]; simpl; [reflexivity | rewrite IH; reflexivity]. Qed.

Lemma sumZ_map_sub (f : Z) (l : list Z) :
  sumZ (List.map (fun a => a - f) l) = sumZ l - Z.of_nat (length l) * f.
Proof. induction l as [|a l IH]; simpl length; simpl; [lia | rewrite IH; lia]. Qed.

Lemma validateSweepTxProof_Ok (env : Env) (sweepTx : BitcoinTxInfo)
    (sweepProof : BitcoinTxProof) (h : Z) :
  validateSweepTxProof env sweepTx sweepProof = Ok h ->
  h = bitcoinTxHash sweepTx /\
  validateVin (inputVector sweepTx) = Ok true /\
  validateVout (outputVector sweepTx) = Ok true /\
  checkProofFromTxHash env (bitcoinTxHash sweepTx) sweepProof = Ok tt.
Proof.
  unfold validateSweepTxProof. intros H.
  inv_bind H. inv_require H. subst v.
  inv_bind H. inv_require H. subst v.
  inv_bind H. injection H as <-. destruct v. auto.
Qed.

(** The steps of a sweep that succeeds. *)
Lemma sweep_Ok (env : Env) (s s' : State) (sweepTx : BitcoinTxInfo)
    (sweepProof : BitcoinTxProof) (previousSweep : SweepInfo)
    (depositors credits : list Z) :
  sweep env s sweepTx sweepProof previousSweep = Ok (s', (depositors, credits)) ->
  exists wallet outputValue resolved s1 inputsValue depositedAmounts,
    validateSweepTxProof env sweepTx sweepProof = Ok (bitcoinTxHash sweepTx) /\
    processSweepTxOutput (outputVector sweepTx) = Ok (wallet, outputValue) /\
    resolvePreviousSweep s wallet previousSweep = Ok resolved /\
    processSweepTxInputs env s (inputVector sweepTx) resolved
      = Ok (s1, inputsValue, depositors, depositedAmounts) /\
    outputValue <= inputsValue /\
    depositedAmounts <> [] /\
    reduceByFeeShare ((inputsValue - outputValue) / Z.of_nat (length depositedAmounts))
                     depositedAmounts = Ok credits /\
    s' = {| owner := owner s1; isVaultTrusted := isVaultTrusted s1;
            deposits := deposits s1;
            sweeps := <[wallet := sweepHash (bitcoinTxHash sweepTx) outputValue]>
                        (sweeps s1) |}.
Proof.
  unfold sweep. intros H.
  inv_bind H. rename v into h.
  destruct (validateSweepTxProof_Ok _ _ _ _ Hstep) as (-> & _).
  inv_bind H. destruct v as [wallet outputValue].
  inv_bind H. rename v into resolved.
  inv_bind H. destruct v as [[[s1 inputsValue] ds] amounts].
  inv_bind H. apply checked_sub_Ok in Hstep3 as [-> Hle].
  inv_bind H. apply checked_div_Ok in Hstep3 as [-> Hnz].
  inv_bind H. injection H as <- <- <-.
  exists wallet, outputValue, resolved, s1, inputsValue, amounts.
  repeat split; try assumption.
  intros ->. apply Hnz. reflexivity.
Qed.


End SweepSteps.

Section SweepAccounting.
Context {L : SpvLibrary}.

(** When the loop visits every input the vector declares, the arrays hold
    the deposits among the inputs and nothing else. *)
Lemma processSweepTxInputs_complete (env : Env) (s s1 : State) (vector : bytes)
    (previousSweep : SweepInfo) (value : Z) (depositors depositedAmounts : list Z) :
  processSweepTxInputs env s vector previousSweep
    = Ok (s1, value, depositors, depositedAmounts) ->
  length (sweepInputOutpoints vector) = declaredInputs vector ->
  depositedAmounts = List.map (amountOf (deposits s)) (sweptDepositKeys s vector) /\
  depositors = List.map (depositorOf (deposits s)) (sweptDepositKeys s vector).
Proof.
  intros H Hall.
  destruct (processSweepTxInputs_Ok _ _ _ _ _ _ _ _ H)
    as (cl & n & start & size & st' & Hparse & Hstart & Hsize & Hloop & Hflag
        & -> & -> & -> & ->).
  unfold sweptDepositKeys. unfold sweepInputOutpoints, declaredInputs in *.
  rewrite Hparse, Hstart in *.
  pose proof (sweepInputsLoop_arrays _ _ _ _ _ _ Hloop) as (_ & Ha & Hd).
  pose proof (sweepInputsLoop_inputs _ _ _ _ _ _ Hloop) as (Hn & _).
  simpl in Ha, Hd, Hn. rewrite Hflag, andb_true_r in Hn.
  rewrite Ha, Hd, !drop_replicate.
  set (keys := depositKeysOf (deposits s) (inputOutpointsFrom vector (Z.to_nat n) start)) in *.
  assert (Hpad : (Z.to_nat size - length keys = 0)%nat).
  { destruct (txHash previousSweep =? 0); simpl in Hn.
    - injection Hsize as <-. lia.
    - apply checked_sub_Ok in Hsize as [-> Hle]. lia. }
  rewrite Hpad. simpl. rewrite !app_nil_r. auto.
Qed.

(** C1.  In every sweep that is accepted, the fee is the value of the inputs
    (the registered amounts of the deposits among them, and the output of
    the resolved previous sweep when the wallet has one) less the value of
    the single output; the fee share is the fee divided by the number [N] of
    credited entries, rounded down, and [N >= 1]; every credit is the
    registered amount of its deposit less the fee share; and the credits
    add up to the amounts less [fee - fee mod N], so the remainder of the
    division is charged to nobody.  [pad] counts the array slots the loop
    left unfilled: none when it visits every input the vector declares. *)
Theorem sweep_fee_allocation (env : Env) (s s' : State) (sweepTx : BitcoinTxInfo)
    (sweepProof : BitcoinTxProof) (previousSweep : SweepInfo)
    (depositors credits : list Z) :
  sweep env s sweepTx sweepProof previousSweep = Ok (s', (depositors, credits)) ->
  exists (wallet outputValue : Z) (resolved : SweepInfo) (pad : nat),
    processSweepTxOutput (outputVector sweepTx) = Ok (wallet, outputValue) /\
    resolvePreviousSweep s wallet previousSweep = Ok resolved /\
    let keys := sweptDepositKeys s (inputVector sweepTx) in
    let depositedAmounts := List.map (amountOf (deposits s)) keys ++ replicate pad 0 in
    let inputsValue :=
      sumZ (List.map (amountOf (deposits s)) keys)
      + (if txHash resolved =? 0 then 0 else txOutputValue resolved) in
    let N := Z.of_nat (length depositedAmounts) in
    let fee := inputsValue - outputValue in
    let feeShare := fee / N in
    1 <= N /\
    0 <= fee /\
    depositors = List.map (depositorOf (deposits s)) keys ++ replicate pad 0 /\
    credits = List.map (fun a => a - feeShare) depositedAmounts /\
    sumZ credits = sumZ depositedAmounts - (fee - fee mod N) /\
    (length (sweepInputOutpoints (inputVector sweepTx))
       = declaredInputs (inputVector sweepTx) -> pad = O).
Proof.
  intros H.
  destruct (sweep_Ok _ _ _ _ _ _ _ _ H)
    as (wallet & outputValue & resolved & s1 & inputsValue & amounts
        & _ & Hout & Hres & Hin & Hle & Hne & Hred & _).
  pose proof (processSweepTxInputs_summary _ _ _ _ _ _ _ _ Hin)
    as ((pad & Ha & Hd) & Hv & _).
  exists wallet, outputValue, resolved, pad.
  split; [assumption|]. split; [assumption|].
  cbv zeta. rewrite <- Ha, <- Hv.
  destruct (reduceByFeeShare_Ok _ _ _ Hred) as [Hc _].
  assert (HN : 1 <= Z.of_nat (length amounts)).
  { destruct amounts; [contradiction | simpl length; lia]. }
  repeat split; try assumption; try lia.
  - rewrite Hc, sumZ_map_sub.
    pose proof (Z.div_mod (inputsValue - outputValue) (Z.of_nat (length amounts))) as Hdm.
    lia.
  - intros Hall.
    destruct (processSweepTxInputs_complete _ _ _ _ _ _ _ _ Hin Hall) as [Ha' _].
    rewrite Ha' in Ha. apply (f_equal (@length Z)) in Ha.
    rewrite length_app, length_replicate in Ha. lia.
Qed.

End SweepAccounting.

Section SweepAccountingWitness.
Import Scenario.

Lemma sweep_fee_allocation_witness :
  sweep (L := modelSpv) env revealed sweepTx1 sweepProof1 noPreviousSweep
    = Ok (swept, ([depositor reveal1; depositor reveal2], [24200; 11200])) /\
  exists (wallet outputValue : Z) (resolved : SweepInfo) (pad : nat),
    processSweepTxOutput (L := modelSpv) (outputVector sweepTx1) = Ok (wallet, outputValue) /\
    resolvePreviousSweep (L := modelSpv) revealed wallet noPreviousSweep = Ok resolved /\
    let keys := sweptDepositKeys (L := modelSpv) revealed (inputVector sweepTx1) in
    let depositedAmounts := List.map (amountOf (deposits revealed)) keys ++ replicate pad 0 in
    let inputsValue :=
      sumZ (List.map (amountOf (deposits revealed)) keys)
      + (if txHash resolved =? 0 then 0 else txOutputValue resolved) in
    let N := Z.of_nat (length depositedAmounts) in
    let fee := inputsValue - outputValue in
    let feeShare := fee / N in
    1 <= N /\
    0 <= fee /\
    [depositor reveal1; depositor reveal2]
      = List.map (depositorOf (deposits revealed)) keys ++ replicate pad 0 /\
    [24200; 11200] = List.map (fun a => a - feeShare) depositedAmounts /\
    sumZ [24200; 11200] = sumZ depositedAmounts - (fee - fee mod N) /\
    (length (sweepInputOutpoints (L := modelSpv) (inputVector sweepTx1))
       = declaredInputs (L := modelSpv) (inputVector sweepTx1) -> pad = O).
Proof.
  split; [vm_compute; reflexivity|].
  apply (sweep_fee_allocation (L := modelSpv) env revealed swept sweepTx1 sweepProof1
           noPreviousSweep).
  vm_compute. reflexivity.
Defined.

End SweepAccountingWitness.

(** ** Validated input vectors in the model of the library

    The fee allocation above and the failure of a sweep without deposits
    below are stated for a loop that visits every input the vector
    declares.  [validateVin], which [sweep] requires, is what guarantees
    it: here it is proved of the model of the library. *)

Section ModelWalk.

Lemma byteZ_nonneg (b : byte) : 0 <= byteZ b.
Proof. unfold byteZ. lia. Qed.

Lemma beZ_nonneg (bs : bytes) : 0 <= beZ bs.
Proof.
  unfold beZ.
  assert (H : forall acc, 0 <= acc ->
            0 <= fold_left (fun acc b => Z.shiftl acc 8 + byteZ b) bs acc).
  { induction bs as [|b bs IH]; intros acc Hacc; simpl; [assumption|].
    apply IH. pose proof (byteZ_nonneg b).
    pose proof (proj2 (Z.shiftl_nonneg acc 8) Hacc). lia. }
  apply H. lia.
Qed.

Lemma leZ_nonneg (bs : bytes) : 0 <= leZ bs.
Proof. apply beZ_nonneg. Qed.

Lemma byteAt_nonneg (bs : bytes) (i x : Z) : SpvModel.byteAt bs i = Ok x -> 0 <= x.
Proof.
  unfold SpvModel.byteAt. destruct (i <? 0); [discriminate|].
  destruct (bs !! Z.to_nat i); [|discriminate].
  intros [= <-]. apply byteZ_nonneg.
Qed.

(** A compact-size integer that is read without overrun: the length of its
    data is at most 8 and its value is not negative. *)
Lemma parseVarIntAt_bounds (b : bytes) (at_ dataLen n : Z) :
  SpvModel.parseVarIntAt b at_ = Ok (dataLen, n) ->
  dataLen <> SpvModel.ERR_BAD_ARG ->
  0 <= dataLen <= 8 /\ 0 <= n.
Proof.
  unfold SpvModel.parseVarIntAt, SpvModel.determineVarIntDataLengthAt.
  intros H Hne.
  destruct (SpvModel.byteAt b at_) as [flag|e] eqn:Hflag; simpl in H; [|discriminate].
  pose proof (byteAt_nonneg _ _ _ Hflag) as Hf.
  destruct (flag =? 0xff); simpl in H.
  - destruct (len b <? 1 + 8 + at_); [injection H as <- <-; contradiction|].
    destruct (SpvModel.slice b (1 + at_) 8) as [d|]; simpl in H; [|discriminate].
    injection H as <- <-. pose proof (leZ_nonneg d). lia.
  - destruct (flag =? 0xfe); simpl in H.
    + destruct (len b <? 1 + 4 + at_); [injection H as <- <-; contradiction|].
      destruct (SpvModel.slice b (1 + at_) 4) as [d|]; simpl in H; [|discriminate].
      injection H as <- <-. pose proof (leZ_nonneg d). lia.
    + destruct (flag =? 0xfd); simpl in H.
      * destruct (len b <? 1 + 2 + at_); [injection H as <- <-; contradiction|].
        destruct (SpvModel.slice b (1 + at_) 2) as [d|]; simpl in H; [|discriminate].
        injection H as <- <-. pose proof (leZ_nonneg d). lia.
      * injection H as <- <-. lia.
Qed.

(** An input whose length is determined holds its 36-byte outpoint, and the
    length is positive. *)
Lemma determineInputLengthAt_bounds (v : bytes) (at_ l : Z) :
  SpvModel.determineInputLengthAt v at_ = Ok l ->
  l <> SpvModel.ERR_BAD_ARG ->
  37 + at_ <= len v /\ 41 <= l.
Proof.
  unfold SpvModel.determineInputLengthAt, SpvModel.extractScriptSigLenAt.
  intros H Hne.
  destruct (Z.ltb_spec (len v) (37 + at_)) as [Hshort|Hlong].
  - simpl in H. injection H as <-. contradiction.
  - destruct (SpvModel.parseVarIntAt v (at_ + 36)) as [[dl n]|e] eqn:Hp; simpl in H;
      [|discriminate].
    destruct (Z.eqb_spec dl SpvModel.ERR_BAD_ARG) as [->|Hdl].
    + injection H as <-. contradiction.
    + injection H as <-.
      destruct (parseVarIntAt_bounds _ _ _ _ Hp Hdl). lia.
Qed.

Lemma slice_Ok (bs : bytes) (start n : Z) :
  0 <= start -> 0 <= n -> start + n <= len bs ->
  exists s, SpvModel.slice bs start n = Ok s.
Proof.
  intros H1 H2 H3. unfold SpvModel.slice.
  apply Z.leb_le in H1, H2, H3. rewrite H1, H2, H3. simpl. eauto.
Qed.

Lemma parseTxInputAt_model (v : bytes) (at_ l : Z) :
  0 <= at_ ->
  SpvModel.determineInputLengthAt v at_ = Ok l ->
  l <> SpvModel.ERR_BAD_ARG ->
  exists h i, parseTxInputAt (L := modelSpv) v at_ = Ok (h, i, l).
Proof.
  intros Hat Hl Hne.
  destruct (determineInputLengthAt_bounds _ _ _ Hl Hne) as [Hlen _].
  unfold parseTxInputAt. simpl.
  unfold SpvModel.extractInputTxIdLeAt, SpvModel.extractTxIndexLeAt.
  destruct (slice_Ok v at_ 32) as [s1 ->]; [lia..|].
  destruct (slice_Ok v (at_ + 32) 4) as [s2 ->]; [lia..|].
  simpl. rewrite Hl. simpl. eauto.
Qed.

(** The walk of [validateVin] and the walk of the input loop go together:
    when the former accepts [rounds] inputs from [offset], the latter visits
    [rounds] inputs. *)
Lemma validateElements_walk (v : bytes) (rounds : nat) (offset : Z) :
  0 <= offset ->
  SpvModel.validateElements SpvModel.determineInputLengthAt v rounds offset = Ok true ->
  length (inputOutpointsFrom (L := modelSpv) v rounds offset) = rounds.
Proof.
  revert offset. induction rounds as [|rounds IH]; intros offset Hoff H; [reflexivity|].
  simpl in H |- *.
  destruct (len v <=? offset); [discriminate|].
  destruct (SpvModel.determineInputLengthAt v offset) as [l|e] eqn:Hl; simpl in H;
    [|discriminate].
  destruct (Z.eqb_spec l SpvModel.ERR_BAD_ARG) as [->|Hne]; [discriminate|].
  destruct (parseTxInputAt_model _ _ _ Hoff Hl Hne) as (h & i & ->).
  destruct (determineInputLengthAt_bounds _ _ _ Hl Hne) as [_ Hpos].
  destruct (checked_add offset l) as [offset'|e] eqn:Hadd; simpl in H; [|discriminate].
  simpl. f_equal. apply IH; [|assumption].
  unfold checked_add in Hadd. destruct (offset + l <=? MAX_UINT256); [|discriminate].
  injection Hadd as <-. lia.
Qed.

(** In the model of the library, the input loop visits every input of a
    vector that [validateVin] accepts. *)
Lemma validateVin_walk (v : bytes) :
  SpvModel.validateVin v = Ok true ->
  length (sweepInputOutpoints (L := modelSpv) v) = declaredInputs (L := modelSpv) v.
Proof.
  unfold SpvModel.validateVin, SpvModel.validateVector, sweepInputOutpoints, declaredInputs.
  simpl. unfold SpvModel.parseVarInt.
  destruct (SpvModel.parseVarIntAt v 0) as [[dl n]|e] eqn:Hp; simpl; [|discriminate].
  destruct (n =? 0); simpl; [discriminate|].
  destruct (Z.eqb_spec dl SpvModel.ERR_BAD_ARG) as [->|Hne]; [discriminate|].
  intros H.
  destruct (parseVarIntAt_bounds _ _ _ _ Hp Hne) as [Hdl _].
  unfold checked_add.
  destruct (Z.leb_spec (1 + dl) MAX_UINT256) as [_|Hbig];
    [|unfold MAX_UINT256 in Hbig; lia].
  apply validateElements_walk; [lia | assumption].
Qed.

(** So a sweep the model accepts has visited every input, and its arrays
    hold the deposits among the inputs and nothing else. *)
Lemma sweep_model_complete (env : Env) (s s' : State) (sweepTx : BitcoinTxInfo)
    (sweepProof : BitcoinTxProof) (previousSweep : SweepInfo)
    (depositors credits : list Z) :
  sweep (L := modelSpv) env s sweepTx sweepProof previousSweep
    = Ok (s', (depositors, credits)) ->
  depositors = List.map (depositorOf (deposits s))
                        (sweptDepositKeys (L := modelSpv) s (inputVector sweepTx)) /\
  length credits = length (sweptDepositKeys (L := modelSpv) s (inputVector sweepTx)) /\
  sweptDepositKeys (L := modelSpv) s (inputVector sweepTx) <> [].
Proof.
  intros H.
  destruct (sweep_Ok _ _ _ _ _ _ _ _ H)
    as (wallet & outputValue & resolved & s1 & inputsValue & amounts
        & Hproof & _ & _ & Hin & _ & Hne & Hred & _).
  destruct (validateSweepTxProof_Ok _ _ _ _ Hproof) as (_ & Hvin & _).
  pose proof (validateVin_walk _ Hvin) as Hall.
  destruct (processSweepTxInputs_complete _ _ _ _ _ _ _ _ Hin Hall) as [Ha Hd].
  destruct (reduceByFeeShare_Ok _ _ _ Hred) as [Hc _].
  split; [assumption|]. split.
  - rewrite Hc, Ha, !length_map. reflexivity.
  - intros Hnil. rewrite Hnil in Ha. contradiction.
Qed.

End ModelWalk.

(** ** The chain of sweeps of a wallet *)

Section SweepChain.
Context {L : SpvLibrary}.


End SweepChain.

Section SweepChainExamples.
Import Scenario.



End SweepChainExamples.

(** ** Sequences of calls: records once revealed, once swept *)

Section Sequences.
Context {L : SpvLibrary}.

Lemma revealDeposit_Ok (env : Env) (s s' : State) (fundingTx : BitcoinTxInfo)
    (reveal : RevealInfo) (ev : DepositRevealed) :
  revealDeposit env s fundingTx reveal = Ok (s', ev) ->
  let key := depositKey (bitcoinTxHash fundingTx) (fundingOutputIndex reveal) in
  exists fundingOutput fundingOutputHash,
    ((vault reveal =? 0) || vaultTrusted (isVaultTrusted s) (vault reveal)) = true /\
    extractOutputAtIndex (outputVector fundingTx) (fundingOutputIndex reveal)
      = Ok fundingOutput /\
    extractHash fundingOutput = Ok fundingOutputHash /\
    checkScriptHash fundingOutputHash (expectedScript reveal) = Ok tt /\
    revealedAt (getDeposit (deposits s) key) = 0 /\
    s' = {| owner := owner s;
            isVaultTrusted := isVaultTrusted s;
            deposits :=
              <[key := {| dDepositor := depositor reveal;
                          amount := reverseUint64 (fundingOutputAmount fundingOutput);
                          revealedAt := uint32 (timestamp env);
                          dVault := vault reveal;
                          sweptAt := sweptAt (getDeposit (deposits s) key) |}]>
                (deposits s);
            sweeps := sweeps s |}.
Proof.
  unfold revealDeposit. intros H.
  inv_require H. inv_bind H. rename v into fundingOutput.
  inv_bind H. rename v into fundingOutputHash.
  inv_bind H. destruct v.
  inv_require H. apply Z.eqb_eq in Hreq0. injection H as <- <-.
  exists fundingOutput, fundingOutputHash. repeat split; assumption.
Qed.

Lemma setVaultStatus_deposits (env : Env) (s s' : State) (v : Z) (t : bool) :
  setVaultStatus env s v t = Ok s' -> deposits s' = deposits s /\ sweeps s' = sweeps s.
Proof.
  unfold setVaultStatus. intros H. inv_require H. injection H as <-. auto.
Qed.

Lemma depositKeysOf_revealed (deps : gmap Z DepositInfo) (ops : list (Z * Z)) (k : Z) :
  In k (depositKeysOf deps ops) <->
  In k (List.map outpointKey ops) /\ isRevealed deps k = true.
Proof. unfold depositKeysOf. apply filter_In. Qed.

(** The deposits of the storage after a sweep. *)
Lemma sweep_deposits (env : Env) (s s' : State) (sweepTx : BitcoinTxInfo)
    (sweepProof : BitcoinTxProof) (previousSweep : SweepInfo) (out : list Z * list Z) :
  sweep env s sweepTx sweepProof previousSweep = Ok (s', out) ->
  let keys := sweptDepositKeys s (inputVector sweepTx) in
  (forall k, In k keys -> sweptAt (getDeposit (deposits s) k) = 0) /\
  (forall k, In k keys ->
             getDeposit (deposits s') k = sweptRecord env (getDeposit (deposits s) k)) /\
  (forall k, ~ In k keys -> getDeposit (deposits s') k = getDeposit (deposits s) k) /\
  (uint32 (timestamp env) <> 0 -> List.NoDup keys).
Proof.
  destruct out as [ds cs]. intros H.
  destruct (sweep_Ok _ _ _ _ _ _ _ _ H)
    as (wallet & outputValue & resolved & s1 & inputsValue & amounts
        & _ & _ & _ & Hin & _ & _ & _ & ->).
  pose proof (processSweepTxInputs_summary _ _ _ _ _ _ _ _ Hin)
    as (_ & _ & _ & _ & Hu & Hk & Hn & Hd & _).
  simpl. auto.
Qed.

(** A call never changes a [sweptAt] that is set. *)
Lemma step_sweptAt_frozen (s : State) (ec : Env * Call) (k : Z) :
  sweptAt (getDeposit (deposits s) k) <> 0 ->
  sweptAt (getDeposit (deposits (step s ec)) k) = sweptAt (getDeposit (deposits s) k).
Proof.
  intros Hk. destruct ec as [env c]. unfold step. simpl fst. simpl snd.
  destruct (exec env s c) as [s'|e] eqn:Hexec; [|reflexivity].
  destruct c as [v t | ftx r | stx p prev]; simpl in Hexec.
  - destruct (setVaultStatus_deposits _ _ _ _ _ Hexec) as [-> _]. reflexivity.
  - inv_bind Hexec. destruct v as [s1 ev]. injection Hexec as <-.
    destruct (revealDeposit_Ok _ _ _ _ _ _ Hstep) as (fo & foh & _ & _ & _ & _ & _ & ->).
    simpl. rewrite getDeposit_insert.
    destruct (decide (depositKey (bitcoinTxHash ftx) (fundingOutputIndex r) = k)) as [<-|];
      reflexivity.
  - inv_bind Hexec. destruct v as [s1 out]. injection Hexec as <-.
    destruct (sweep_deposits _ _ _ _ _ _ _ Hstep) as (Hu & _ & Hn & _).
    destruct (in_dec Z.eq_dec k (sweptDepositKeys s (inputVector stx))) as [Hin|Hnin].
    + exfalso. apply Hk. apply Hu. assumption.
    + rewrite (Hn k Hnin). reflexivity.
Qed.

Lemma step_sweptAreRevealed (s : State) (ec : Env * Call) :
  sweptAreRevealed s -> sweptAreRevealed (step s ec).
Proof.
  intros Hinv. destruct ec as [env c]. unfold step. simpl fst. simpl snd.
  destruct (exec env s c) as [s'|e] eqn:Hexec; [|assumption].
  destruct c as [v t | ftx r | stx p prev]; simpl in Hexec.
  - destruct (setVaultStatus_deposits _ _ _ _ _ Hexec) as [Hd _].
    intros k. rewrite Hd. apply Hinv.
  - inv_bind Hexec. destruct v as [s1 ev]. injection Hexec as <-.
    destruct (revealDeposit_Ok _ _ _ _ _ _ Hstep) as (fo & foh & _ & _ & _ & _ & Hrev & ->).
    intros k. simpl. rewrite getDeposit_insert.
    destruct (decide (depositKey (bitcoinTxHash ftx) (fundingOutputIndex r) = k)) as [<-|];
      [|apply Hinv].
    simpl. intros Hs. exfalso. apply (Hinv _ Hs). assumption.
  - inv_bind Hexec. destruct v as [s1 out]. injection Hexec as <-.
    destruct (sweep_deposits _ _ _ _ _ _ _ Hstep) as (_ & Hk & Hn & _).
    intros k.
    destruct (in_dec Z.eq_dec k (sweptDepositKeys s (inputVector stx))) as [Hin|Hnin].
    + rewrite (Hk k Hin). simpl. intros _.
      apply depositKeysOf_revealed in Hin as [_ Hrev].
      unfold isRevealed in Hrev. apply negb_true_iff, Z.eqb_neq in Hrev. assumption.
    + rewrite (Hn k Hnin). apply Hinv.
Qed.


Lemma initialState_sweptAreRevealed (owner_ : Z) : sweptAreRevealed (initialState owner_).
Proof. intros k H. exfalso. apply H. reflexivity. Qed.

Lemma run_sweptAreRevealed (calls : list (Env * Call)) (s : State) :
  sweptAreRevealed s -> sweptAreRevealed (run s calls).
Proof.
  revert s. induction calls as [|ec calls IH]; intros s Hinv; [assumption|].
  simpl. apply IH. apply step_sweptAreRevealed. assumption.
Qed.


(** A sweep with a swept deposit among its inputs fails. *)
Lemma sweep_of_swept_fails (env : Env) (s : State) (sweepTx : BitcoinTxInfo)
    (sweepProof : BitcoinTxProof) (previousSweep : SweepInfo) (o : Z * Z) :
  In o (sweepInputOutpoints (inputVector sweepTx)) ->
  revealedAt (getDeposit (deposits s) (outpointKey o)) <> 0 ->
  sweptAt (getDeposit (deposits s) (outpointKey o)) <> 0 ->
  exists e, sweep env s sweepTx sweepProof previousSweep = Err e.
Proof.
  intros Hin Hrev Hswept.
  destruct (sweep env s sweepTx sweepProof previousSweep) as [[s' out]|e] eqn:H;
    [exfalso | exists e; reflexivity].
  destruct (sweep_deposits _ _ _ _ _ _ _ H) as (Hu & _).
  apply Hswept. apply Hu. apply depositKeysOf_revealed. split.
  - apply in_map. assumption.
  - unfold isRevealed. apply negb_true_iff, Z.eqb_neq. assumption.
Qed.

(** The deposits a call credits were unswept before it and, the timestamp
    not being a multiple of [2^32], are swept after it; none occurs twice. *)
Lemma creditedBy_spec (s : State) (ec : Env * Call) :
  uint32 (timestamp (fst ec)) <> 0 ->
  let keys := creditedBy (fst ec) s (snd ec) in
  List.NoDup keys /\
  (forall k, In k keys -> sweptAt (getDeposit (deposits s) k) = 0) /\
  (forall k, In k keys -> sweptAt (getDeposit (deposits (step s ec)) k) <> 0).
Proof.
  destruct ec as [env c]. simpl fst. simpl snd. intros Hts.
  destruct c as [v t | ftx r | stx p prev]; simpl;
    try (split; [constructor | split; intros k []]).
  unfold step. simpl.
  destruct (sweep env s stx p prev) as [[s' out]|e] eqn:H; simpl;
    [|split; [constructor | split; intros k []]].
  destruct (sweep_deposits _ _ _ _ _ _ _ H) as (Hu & Hk & _ & Hd).
  split; [auto|]. split; [assumption|].
  intros k Hin. rewrite (Hk k Hin). simpl. assumption.
Qed.

Lemma creditLog_spec (calls : list (Env * Call)) (s : State) :
  (forall ec, In ec calls -> uint32 (timestamp (fst ec)) <> 0) ->
  List.NoDup (creditLog s calls) /\
  (forall k, In k (creditLog s calls) -> sweptAt (getDeposit (deposits s) k) = 0) /\
  (forall k, In k (creditLog s calls) ->
             sweptAt (getDeposit (deposits (run s calls)) k) <> 0).
Proof.
  revert s. induction calls as [|ec calls IH]; intros s Hts; simpl.
  - split; [constructor | split; intros k []].
  - assert (Hec : uint32 (timestamp (fst ec)) <> 0) by (apply Hts; left; reflexivity).
    destruct (creditedBy_spec s ec Hec) as (Hnd & Hbefore & Hafter).
    destruct (IH (step s ec) (fun ec' H => Hts ec' (or_intror H)))
      as (IHnd & IHbefore & IHafter).
    split; [|split].
    + apply List.NoDup_app; try assumption.
      intros k Hin1 Hin2. apply (Hafter k Hin1). apply IHbefore. assumption.
    + intros k Hin. apply in_app_or in Hin as [Hin|Hin]; [auto|].
      destruct (Z.eq_dec (sweptAt (getDeposit (deposits s) k)) 0) as [|Hne]; [assumption|].
      pose proof (step_sweptAt_frozen s ec k Hne) as Hfr.
      rewrite (IHbefore k Hin) in Hfr. congruence.
    + intros k Hin. apply in_app_or in Hin as [Hin|Hin]; [|auto].
      pose proof (Hafter k Hin) as Hne.
      clear - Hne. revert Hne. generalize (step s ec). clear.
      induction calls as [|ec calls IH]; intros s Hne; [assumption|].
      simpl. apply IH. rewrite step_sweptAt_frozen; assumption.
Qed.

End Sequences.

Section NoDoubleSweep.
Context {L : SpvLibrary}.


End NoDoubleSweep.

Section NoDoubleSweepWitness.
Import Scenario.


End NoDoubleSweepWitness.

(** ** The input that consumes the previous sweep *)

Section PreviousSweepInput.
Context {L : SpvLibrary}.

(** C4, as amended.  In a round of the input loop on an input that is not a
    revealed deposit: when the previous sweep is not yet accounted for and
    the transaction hash of the input's outpoint equals
    [previousSweep.txHash], the input is counted as the previous sweep (its
    value added, the flag set) whatever the output index of the outpoint,
    which the contract parses but does not compare; otherwise the round
    reverts with "Unknown input type".  At most one input of a transaction
    [processSweepTxInputs] accepts is not a revealed deposit. *)
Theorem previous_sweep_input_match (env : Env) (vector : bytes)
    (previousSweep : SweepInfo) (st : SweepLoop) (h i l : Z) :
  (parseTxInputAt vector (lInputStartingIndex st) = Ok (h, i, l) ->
   isRevealed (lDeposits st) (depositKey h i) = false ->
   (lPreviousSweepFlag st = false -> txHash previousSweep = h ->
    lInputsValue st + txOutputValue previousSweep <= MAX_UINT256 ->
    lInputStartingIndex st + l <= MAX_UINT256 ->
    processSweepTxInput env vector previousSweep st
      = Ok {| lDeposits := lDeposits st;
              lInputsValue := lInputsValue st + txOutputValue previousSweep;
              lDepositors := lDepositors st;
              lDepositedAmounts := lDepositedAmounts st;
              lProcessedDepositsCount := lProcessedDepositsCount st;
              lPreviousSweepFlag := true;
              lInputStartingIndex := lInputStartingIndex st + l |}) /\
   (lPreviousSweepFlag st = true \/ txHash previousSweep <> h ->
    processSweepTxInput env vector previousSweep st = Err (Revert "Unknown input type"))) /\
  (forall s s1 value depositors depositedAmounts,
      processSweepTxInputs env s vector previousSweep
        = Ok (s1, value, depositors, depositedAmounts) ->
      (length (sweepInputOutpoints vector) <= length (sweptDepositKeys s vector) + 1)%nat).
Proof.
  split.
  - intros Hparse Hrev. split.
    + intros Hflag Hh Hv Hnext. unfold processSweepTxInput. rewrite Hparse. simpl.
      unfold isRevealed in Hrev. rewrite Hrev, Hflag. simpl.
      apply Z.eqb_eq in Hh. rewrite Hh. simpl.
      unfold checked_add.
      destruct (Z.leb_spec (lInputsValue st + txOutputValue previousSweep) MAX_UINT256);
        [|lia].
      simpl.
      destruct (Z.leb_spec (lInputStartingIndex st + l) MAX_UINT256); [|lia].
      reflexivity.
    + apply (processSweepTxInput_unknown env vector previousSweep st h i l Hparse Hrev).
  - intros s s1 value depositors depositedAmounts H.
    pose proof (processSweepTxInputs_summary _ _ _ _ _ _ _ _ H) as (_ & _ & Hn & _).
    rewrite Hn. destruct (txHash previousSweep =? 0); lia.
Qed.

End PreviousSweepInput.

Section PreviousSweepInputExamples.
Import Scenario.

Lemma previous_sweep_input_match_witness :
  parseTxInputAt (L := modelSpv) (inputVector sweepTxIndex7) (lInputStartingIndex loopStart)
    = Ok (txHash previousSweep1, 7, 41) /\
  isRevealed (lDeposits loopStart)
             (depositKey (L := modelSpv) (txHash previousSweep1) 7) = false /\
  processSweepTxInput (L := modelSpv) env (inputVector sweepTxIndex7) previousSweep1 loopStart
    = Ok {| lDeposits := lDeposits loopStart;
            lInputsValue := lInputsValue loopStart + txOutputValue previousSweep1;
            lDepositors := lDepositors loopStart;
            lDepositedAmounts := lDepositedAmounts loopStart;
            lProcessedDepositsCount := lProcessedDepositsCount loopStart;
            lPreviousSweepFlag := true;
            lInputStartingIndex := lInputStartingIndex loopStart + 41 |}.
Proof.
  assert (Hparse : parseTxInputAt (L := modelSpv) (inputVector sweepTxIndex7)
                                  (lInputStartingIndex loopStart)
                   = Ok (txHash previousSweep1, 7, 41))
    by (vm_compute; reflexivity).
  assert (Hrev : isRevealed (lDeposits loopStart)
                            (depositKey (L := modelSpv) (txHash previousSweep1) 7) = false)
    by (vm_compute; reflexivity).
  assert (Hvalue : lInputsValue loopStart + txOutputValue previousSweep1 <= MAX_UINT256)
    by (vm_compute; discriminate).
  assert (Hnext : lInputStartingIndex loopStart + 41 <= MAX_UINT256)
    by (vm_compute; discriminate).
  exact (conj Hparse (conj Hrev
           (proj1 (proj1 (previous_sweep_input_match (L := modelSpv) env
                            (inputVector sweepTxIndex7) previousSweep1 loopStart
                            (txHash previousSweep1) 7 41) Hparse Hrev)
                  eq_refl eq_refl Hvalue Hnext))).
Defined.

(** The first input of this sweep names output 7 of the previous sweep
    transaction, whose single output has index 0; it is counted as the
    previous sweep all the same, and the sweep is accepted with the credits
    of the sweep that spends output 0. *)
Lemma previous_sweep_input_match_counterexample :
  sweepInputOutpoints (L := modelSpv) (inputVector sweepTxIndex7)
    = [(txHash previousSweep1, 7); outpoint3; outpoint4] /\
  sweptDepositKeys (L := modelSpv) revealedAgain (inputVector sweepTxIndex7)
    = [outpointKey (L := modelSpv) outpoint3; outpointKey (L := modelSpv) outpoint4] /\
  isOk (sweep (L := modelSpv) env revealedAgain sweepTxIndex7
              sweepProofIndex7 previousSweep1) = true /\
  (let credits r := match r with Ok (_, out) => Some out | Err _ => None end in
   credits (sweep (L := modelSpv) env revealedAgain sweepTxIndex7
                  sweepProofIndex7 previousSweep1)
   = Some ([depositor reveal3; depositor reveal4], [16200; 9200])).
Proof. by_computation. Qed.

End PreviousSweepInputExamples.

(** ** The output of a sweep *)

Section SweepOutput.
Context {L : SpvLibrary}.

(** What [processSweepTxOutput] checks: the vector declares one output,
    and the hash [extractHash] reads from it has 20 bytes. *)
Lemma processSweepTxOutput_Ok (vout : bytes) (wallet value : Z) :
  processSweepTxOutput vout = Ok (wallet, value) ->
  exists compactLength output walletPubKeyHashBytes,
    parseVarInt vout = Ok (compactLength, 1) /\
    extractOutputAtIndex vout 0 = Ok output /\
    extractValue output = Ok value /\
    extractHash output = Ok walletPubKeyHashBytes /\
    length walletPubKeyHashBytes = 20%nat /\
    wallet = beZ walletPubKeyHashBytes.
Proof.
  unfold processSweepTxOutput. intros H.
  inv_bind H. destruct v as [cl n].
  inv_require H. apply Z.eqb_eq in Hreq. subst n.
  inv_bind H. rename v into output.
  inv_bind H. rename v into value'.
  inv_bind H. rename v into h.
  inv_require H. apply Z.eqb_eq in Hreq. injection H as <- <-.
  exists cl, output, h. unfold len in Hreq. repeat split; try assumption. lia.
Qed.

Lemma processSweepTxOutput_count (vout : bytes) (compactLength outputsCount : Z) :
  parseVarInt vout = Ok (compactLength, outputsCount) ->
  outputsCount <> 1 ->
  processSweepTxOutput vout = Err (Revert "Sweep transaction must have a single output").
Proof.
  intros Hparse Hne. unfold processSweepTxOutput. rewrite Hparse. simpl.
  apply Z.eqb_neq in Hne. rewrite Hne. reflexivity.
Qed.

End SweepOutput.

Section SweepOutputExamples.
Import Scenario.

(** C5 at the failing input.  The single output of this sweep is a
    pay-to-script-hash output, [OP_HASH160 <20 bytes> OP_EQUAL]: neither
    P2PKH nor P2WPKH.  The hash [extractHash] reads from it has 20 bytes,
    which is all [processSweepTxOutput] requires: the sweep is accepted,
    the deposits are credited and the sweep is recorded under the script
    hash as if it were a wallet's public key hash.  (A sweep with two
    outputs is rejected.) *)
Theorem sweep_accepts_script_hash_output :
  outputVector sweepTxToScriptHash
    = hex "01" ++ hex "488a000000000000" ++ hex "17"
      ++ hex "a914" ++ scriptHash ++ hex "87" /\
  processSweepTxOutput (L := modelSpv) (outputVector sweepTxToScriptHash)
    = Ok (beZ scriptHash, 35400) /\
  (let outcome r := match r with
                    | Ok (s', out) => Some (getSweep (sweeps s') (beZ scriptHash) =? 0, out)
                    | Err _ => None
                    end in
   outcome (sweep (L := modelSpv) env revealed sweepTxToScriptHash
                  sweepProofToScriptHash noPreviousSweep)
   = Some (false, ([depositor reveal1; depositor reveal2], [24200; 11200]))) /\
  sweep (L := modelSpv) env revealed sweepTxTwoOutputs
        sweepProofTwoOutputs noPreviousSweep
    = Err (Revert "Sweep transaction must have a single output").
Proof. by_computation. Qed.

End SweepOutputExamples.

(** ** SPV proofs *)

Section SpvProof.
Context {L : SpvLibrary}.


End SpvProof.

Section SpvProofWitness.
Import Scenario.


End SpvProofWitness.

(** ** A fee share above the amount of a deposit *)

Section FeeShareAboveAmount.
Context {L : SpvLibrary}.

(** C7, as amended.  Take a sweep whose proof, output and inputs are
    accepted and whose fee [inputsValue - outputValue] is not negative,
    with at least one credited entry.  The sweep has no [require] on the
    fee share, but the subtraction [depositedAmounts[i] -= feeShare] is
    checked: when the fee share is above one of the amounts the sweep
    reverts with an arithmetic panic, and nothing is credited; when it is
    above none, the sweep succeeds and credits every amount less the fee
    share. *)
Theorem fee_share_above_amount_reverts (env : Env) (s s1 : State)
    (sweepTx : BitcoinTxInfo) (sweepProof : BitcoinTxProof)
    (previousSweep resolved : SweepInfo)
    (wallet outputValue inputsValue : Z) (depositors depositedAmounts : list Z) :
  validateSweepTxProof env sweepTx sweepProof = Ok (bitcoinTxHash sweepTx) ->
  processSweepTxOutput (outputVector sweepTx) = Ok (wallet, outputValue) ->
  resolvePreviousSweep s wallet previousSweep = Ok resolved ->
  processSweepTxInputs env s (inputVector sweepTx) resolved
    = Ok (s1, inputsValue, depositors, depositedAmounts) ->
  outputValue <= inputsValue ->
  depositedAmounts <> [] ->
  let feeShare := (inputsValue - outputValue) / Z.of_nat (length depositedAmounts) in
  (List.Exists (fun a => a < feeShare) depositedAmounts ->
   sweep env s sweepTx sweepProof previousSweep = Err (Panic PANIC_ARITHMETIC)) /\
  (List.Forall (fun a => feeShare <= a) depositedAmounts ->
   sweep env s sweepTx sweepProof previousSweep
     = Ok ({| owner := owner s1;
              isVaultTrusted := isVaultTrusted s1;
              deposits := deposits s1;
              sweeps := <[wallet := sweepHash (bitcoinTxHash sweepTx) outputValue]>
                          (sweeps s1) |},
           (depositors, List.map (fun a => a - feeShare) depositedAmounts))).
Proof.
  intros Hproof Hout Hres Hin Hfee Hne feeShare.
  assert (Hsweep : sweep env s sweepTx sweepProof previousSweep
                   = (let* credits := reduceByFeeShare feeShare depositedAmounts in
                      Ok ({| owner := owner s1;
                             isVaultTrusted := isVaultTrusted s1;
                             deposits := deposits s1;
                             sweeps := <[wallet := sweepHash (bitcoinTxHash sweepTx)
                                                             outputValue]> (sweeps s1) |},
                          (depositors, credits)))).
  { unfold sweep. rewrite Hproof. simpl. rewrite Hout. simpl. rewrite Hres. simpl.
    rewrite Hin. simpl. rewrite (checked_sub_le _ _ Hfee). simpl.
    unfold checked_div.
    destruct (Z.eqb_spec (Z.of_nat (length depositedAmounts)) 0) as [Hz|_].
    - destruct depositedAmounts; [contradiction | simpl length in Hz; lia].
    - reflexivity. }
  rewrite Hsweep. split.
  - intros Hex. rewrite (reduceByFeeShare_short _ _ Hex). reflexivity.
  - intros Hall. rewrite (reduceByFeeShare_enough _ _ Hall). reflexivity.
Qed.

End FeeShareAboveAmount.

Section FeeShareAboveAmountExamples.
Import Scenario.

Lemma fee_share_above_amount_reverts_witness :
  validateSweepTxProof (L := modelSpv) env sweepTxSmall sweepProofSmall
    = Ok (bitcoinTxHash (L := modelSpv) sweepTxSmall) /\
  processSweepTxOutput (L := modelSpv) (outputVector sweepTxSmall) = Ok (wallet, 23500) /\
  resolvePreviousSweep (L := modelSpv) revealedSmall wallet noPreviousSweep
    = Ok noPreviousSweep /\
  processSweepTxInputs (L := modelSpv) env revealedSmall (inputVector sweepTxSmall)
                       noPreviousSweep
    = Ok (revealedSmallSwept, 25500, [depositor reveal1; depositor reveal5], [25000; 500]) /\
  sweep (L := modelSpv) env revealedSmall sweepTxSmall sweepProofSmall
        noPreviousSweep
    = Err (Panic PANIC_ARITHMETIC).
Proof.
  assert (Hproof : validateSweepTxProof (L := modelSpv) env sweepTxSmall
                     sweepProofSmall
                   = Ok (bitcoinTxHash (L := modelSpv) sweepTxSmall))
    by (vm_compute; reflexivity).
  assert (Hout : processSweepTxOutput (L := modelSpv) (outputVector sweepTxSmall)
                 = Ok (wallet, 23500))
    by (vm_compute; reflexivity).
  assert (Hres : resolvePreviousSweep (L := modelSpv) revealedSmall wallet noPreviousSweep
                 = Ok noPreviousSweep)
    by (vm_compute; reflexivity).
  assert (Hin : processSweepTxInputs (L := modelSpv) env revealedSmall
                  (inputVector sweepTxSmall) noPreviousSweep
                = Ok (revealedSmallSwept, 25500,
                      [depositor reveal1; depositor reveal5], [25000; 500]))
    by (vm_compute; reflexivity).
  refine (conj Hproof (conj Hout (conj Hres (conj Hin _)))).
  refine (proj1 (fee_share_above_amount_reverts (L := modelSpv) env revealedSmall
                   revealedSmallSwept sweepTxSmall sweepProofSmall
                   noPreviousSweep noPreviousSweep wallet 23500 25500
                   [depositor reveal1; depositor reveal5] [25000; 500]
                   Hproof Hout Hres Hin _ _) _).
  - vm_compute. discriminate.
  - discriminate.
  - right. left. vm_compute. reflexivity.
Defined.

(** The two deposits of 25000 and 500 satoshi are swept into an output of
    23500: the fee is 2000 and the fee share 1000, above the second amount.
    The proof, the output and the inputs are accepted; the sweep reverts. *)
Lemma fee_share_above_amount_counterexample :
  validateSweepTxProof (L := modelSpv) env sweepTxSmall sweepProofSmall
    = Ok (bitcoinTxHash (L := modelSpv) sweepTxSmall) /\
  processSweepTxOutput (L := modelSpv) (outputVector sweepTxSmall) = Ok (wallet, 23500) /\
  List.map (amountOf (deposits revealedSmall))
           (sweptDepositKeys (L := modelSpv) revealedSmall (inputVector sweepTxSmall))
    = [25000; 500] /\
  (25000 + 500 - 23500) / 2 = 1000 /\
  sweep (L := modelSpv) env revealedSmall sweepTxSmall sweepProofSmall
        noPreviousSweep
    = Err (Panic PANIC_ARITHMETIC).
Proof. by_computation. Qed.

End FeeShareAboveAmountExamples.

(** ** Revealing a deposit *)

Section Reveal.
Context {L : SpvLibrary}.

(** What a reveal wrote in a record stays: later calls change [sweptAt]
    at most. *)
Lemma step_revealed_frozen (s : State) (ec : Env * Call) (k : Z) :
  revealedAt (getDeposit (deposits s) k) <> 0 ->
  dDepositor (getDeposit (deposits (step s ec)) k) = dDepositor (getDeposit (deposits s) k) /\
  amount (getDeposit (deposits (step s ec)) k) = amount (getDeposit (deposits s) k) /\
  revealedAt (getDeposit (deposits (step s ec)) k) = revealedAt (getDeposit (deposits s) k) /\
  dVault (getDeposit (deposits (step s ec)) k) = dVault (getDeposit (deposits s) k).
Proof.
  intros Hk. destruct ec as [env c]. unfold step. simpl fst. simpl snd.
  destruct (exec env s c) as [s'|e] eqn:Hexec; [|auto].
  destruct c as [v t | ftx r | stx p prev]; simpl in Hexec.
  - destruct (setVaultStatus_deposits _ _ _ _ _ Hexec) as [-> _]. auto.
  - inv_bind Hexec. destruct v as [s1 ev]. injection Hexec as <-.
    destruct (revealDeposit_Ok _ _ _ _ _ _ Hstep) as (fo & foh & _ & _ & _ & _ & Hrev & ->).
    simpl. rewrite getDeposit_insert.
    destruct (decide (depositKey (bitcoinTxHash ftx) (fundingOutputIndex r) = k)) as [<-|];
      [contradiction | auto].
  - inv_bind Hexec. destruct v as [s1 out]. injection Hexec as <-.
    destruct (sweep_deposits _ _ _ _ _ _ _ Hstep) as (_ & Hin & Hnin & _).
    destruct (in_dec Z.eq_dec k (sweptDepositKeys s (inputVector stx))) as [Hk'|Hk'].
    + rewrite (Hin k Hk'). simpl. auto.
    + rewrite (Hnin k Hk'). auto.
Qed.

Lemma run_revealed_frozen (calls : list (Env * Call)) (s : State) (k : Z) :
  revealedAt (getDeposit (deposits s) k) <> 0 ->
  dDepositor (getDeposit (deposits (run s calls)) k) = dDepositor (getDeposit (deposits s) k) /\
  amount (getDeposit (deposits (run s calls)) k) = amount (getDeposit (deposits s) k) /\
  revealedAt (getDeposit (deposits (run s calls)) k) = revealedAt (getDeposit (deposits s) k) /\
  dVault (getDeposit (deposits (run s calls)) k) = dVault (getDeposit (deposits s) k).
Proof.
  revert s. induction calls as [|ec calls IH]; intros s Hk; [auto|].
  simpl. destruct (step_revealed_frozen s ec k Hk) as (Hd & Ha & Hr & Hv).
  destruct (IH (step s ec)) as (Hd' & Ha' & Hr' & Hv'); [rewrite Hr; assumption|].
  rewrite Hd', Ha', Hr', Hv'. auto.
Qed.



End Reveal.

Section RevealWitness.
Import Scenario.


End RevealWitness.

(** ** The sweep transaction assembler *)

Module DepositSweepFacts.
Import DepositSweep.

Section Assembler.
Context {J : BitcoinJs}.

Lemma andThen_Done {A B : Type} (o : outcome A) (k : A -> outcome B) (a : A) :
  o = Done a -> andThen o k = k a.
Proof. intros ->. reflexivity. Qed.

Lemma sameShape_refl (t : Transaction) : sameShape t t.
Proof. repeat split. Qed.

Lemma sameShape_trans (t1 t2 t3 : Transaction) :
  sameShape t1 t2 -> sameShape t2 t3 -> sameShape t1 t3.
Proof. intros (?&?&?) (?&?&?). repeat split; congruence. Qed.

Lemma map_insert_same {A B : Type} (f : A -> B) (l : list A) (i : nat) (x y : A) :
  l !! i = Some x -> f y = f x -> List.map f (<[i := y]> l) = List.map f l.
Proof.
  revert i. induction l as [|a l IH]; intros [|i] Hl Hf; simpl in *; try discriminate.
  - injection Hl as ->. rewrite Hf. reflexivity.
  - rewrite (IH i Hl Hf). reflexivity.
Qed.

Lemma setInputScript_Done (t : Transaction) (inputIndex : nat) (s : bytes) :
  (inputIndex < length (ins t))%nat ->
  exists t', setInputScript t inputIndex s = Done t' /\ sameShape t t'.
Proof.
  intros Hlt. unfold setInputScript.
  destruct (ins t !! inputIndex) as [i|] eqn:Hi.
  - eexists. split; [reflexivity|]. repeat split; simpl.
    + apply (map_insert_same inputOutpoint _ _ i); [assumption | reflexivity].
    + apply length_insert.
  - apply lookup_ge_None in Hi. lia.
Qed.

Lemma setInputWitness_Done (t : Transaction) (inputIndex : nat) (w : list bytes) :
  (inputIndex < length (ins t))%nat ->
  exists t', setInputWitness t inputIndex w = Done t' /\ sameShape t t'.
Proof.
  intros Hlt. unfold setInputWitness.
  destruct (ins t !! inputIndex) as [i|] eqn:Hi.
  - eexists. split; [reflexivity|]. repeat split; simpl.
    + apply (map_insert_same inputOutpoint _ _ i); [assumption | reflexivity].
    + apply length_insert.
  - apply lookup_ge_None in Hi. lia.
Qed.

Lemma signMainUtxoInput_Done (t : Transaction) (walletKeyPair : Signer)
    (bitcoinNetwork : BitcoinNetwork) (previousOutput : TxOutput) :
  (0 < length (ins t))%nat ->
  ownsUtxo walletKeyPair (script previousOutput) bitcoinNetwork = Done true ->
  (isP2PKHScript (script previousOutput) = true \/
   (isP2PKHScript (script previousOutput) = false /\
    isP2WPKHScript (script previousOutput) = true /\
    exists publicKeyHash,
      decompile (script previousOutput) = Some [Opcode 0; Data publicKeyHash] /\
      length publicKeyHash = 20%nat)) ->
  exists t', signMainUtxoInput t 0 previousOutput walletKeyPair bitcoinNetwork = Done t' /\
             sameShape t t'.
Proof.
  intros Hlen Howns Hkind. unfold signMainUtxoInput. rewrite Howns. simpl.
  destruct Hkind as [Hp | (Hp & Hw & pkh & Hdec & Hpkh)].
  - rewrite Hp. apply setInputScript_Done. assumption.
  - rewrite Hp, Hw, Hdec. apply Nat.eqb_eq in Hpkh. rewrite Hpkh.
    apply setInputWitness_Done. assumption.
Qed.

Lemma signDepositInput_Done (t : Transaction) (inputIndex : nat) (walletKeyPair : Signer)
    (p : Utxo * Deposit) :
  (inputIndex < length (ins t))%nat ->
  depositSignable walletKeyPair p ->
  exists t', signDepositInput t inputIndex (fst p) (snd p) walletKeyPair = Done t' /\
             sameShape t t'.
Proof.
  intros Hlt (po & Hpo & Hkind & Hamount & Hhash & Hcompressed).
  assert (Hscript : prepareDepositScript (snd p) (outValue po) walletKeyPair
                    = Done (assembleDepositScript (snd p))).
  { unfold prepareDepositScript. rewrite Hamount. simpl. rewrite Z.eqb_refl. simpl.
    rewrite Hhash, String.eqb_refl. simpl. rewrite Hcompressed. reflexivity. }
  unfold signDepositInput. rewrite Hpo. simpl.
  destruct (isP2SHScript (script po)) eqn:Hsh.
  - unfold signP2SHDepositInput. rewrite Hscript. simpl.
    apply setInputScript_Done. assumption.
  - destruct Hkind as [Hk|Hk]; [discriminate|]. rewrite Hk.
    unfold signP2WSHDepositInput. rewrite Hscript. simpl.
    apply setInputWitness_Done. assumption.
Qed.

Lemma signDepositInputs_Done (pairs : list (Utxo * Deposit)) (t : Transaction)
    (hasMainUtxo : bool) (depositIndex : nat) (walletKeyPair : Signer) :
  ((if hasMainUtxo then 1 else 0) + depositIndex + length pairs <= length (ins t))%nat ->
  List.Forall (depositSignable walletKeyPair) pairs ->
  exists t', signDepositInputs t hasMainUtxo depositIndex pairs walletKeyPair = Done t' /\
             sameShape t t'.
Proof.
  revert t depositIndex. induction pairs as [|[utxo deposit] pairs IH];
    intros t depositIndex Hlen Hall; simpl.
  - exists t. split; [reflexivity | apply sameShape_refl].
  - inversion Hall as [|? ? Hp Hrest]; subst. simpl length in Hlen.
    destruct (signDepositInput_Done t (if hasMainUtxo then S depositIndex else depositIndex)
                walletKeyPair (utxo, deposit)) as (t1 & Ht1 & Hshape1); [|assumption|].
    { destruct hasMainUtxo; lia. }
    simpl in Ht1. rewrite Ht1. simpl.
    destruct (IH t1 (S depositIndex)) as (t' & Ht' & Hshape'); [|assumption|].
    { destruct Hshape1 as (_ & _ & ->). lia. }
    exists t'. split; [assumption | eapply sameShape_trans; eassumption].
Qed.

Lemma addDepositInputs_Done (utxos : list Utxo) (t : Transaction) (outputValue : Z) :
  List.Forall (fun u => isHash256bit (rev (transactionHash u)) && isUInt32 (outputIndex u)
                        = true) utxos ->
  exists t',
    addDepositInputs utxos t outputValue = Done (t', outputValue + totalValue utxos) /\
    List.map inputOutpoint (ins t')
      = List.map inputOutpoint (ins t) ++ List.map utxoOutpoint utxos /\
    outs t' = outs t.
Proof.
  revert t outputValue. induction utxos as [|u utxos IH]; intros t outputValue Hall; simpl.
  - exists t. rewrite Z.add_0_r, app_nil_r. auto.
  - inversion Hall as [|? ? Hu Hrest]; subst.
    unfold addInput. rewrite Hu. simpl.
    match goal with |- context [addDepositInputs utxos ?t1 ?v] =>
      destruct (IH t1 v Hrest) as (t' & Ht' & Hins & Houts) end.
    exists t'. simpl in Hins, Houts. split; [|split].
    + rewrite Ht'. unfold totalValue. simpl. f_equal. f_equal. lia.
    + rewrite Hins, map_app. simpl. rewrite <- app_assoc. reflexivity.
    + assumption.
Qed.

End Assembler.
End DepositSweepFacts.

Module DepositSweepShape.
Import DepositSweep DepositSweepFacts.

Section Assembler.
Context {J : BitcoinJs}.

(** C9.  Given at least one deposit UTXO and as many deposits, a network
    and a key the libraries accept, outpoints and an output value that
    [addInput] and [addOutput] accept, and inputs that pass the checks of
    the signing functions, the assembler returns a transaction whose inputs
    spend the main UTXO first, when there is one, and then the deposit
    UTXOs in the order given, and which has exactly one output: it pays the
    wallet's address, and its value is the sum of the values of all the
    inputs less the fee.  That value is the value of the new main UTXO
    returned, at output index 0. *)
Theorem sweep_transaction_shape (bitcoinNetwork : BitcoinNetwork) (fee : Z)
    (walletPrivateKey : string) (witness_ : bool) (utxos : list Utxo)
    (deposits : list Deposit) (mainUtxo : option Utxo)
    (network : Network) (walletKeyPair : Signer) :
  utxos <> [] ->
  length utxos = length deposits ->
  toBitcoinJsLibNetwork bitcoinNetwork = Done network ->
  fromWIF walletPrivateKey network = Done walletKeyPair ->
  List.Forall (fun u => isHash256bit (rev (transactionHash u)) && isUInt32 (outputIndex u)
                        = true) (sweepInputs utxos mainUtxo) ->
  let outputValue := totalValue (sweepInputs utxos mainUtxo) - fee in
  toNumber outputValue = Done outputValue ->
  isSatoshi outputValue = true ->
  (forall m, mainUtxo = Some m -> mainUtxoSignable walletKeyPair bitcoinNetwork m) ->
  List.Forall (depositSignable walletKeyPair) (combine utxos deposits) ->
  exists transaction,
    assembleTransaction bitcoinNetwork fee walletPrivateKey witness_ utxos deposits mainUtxo
      = Done transaction /\
    List.map inputOutpoint (ins transaction)
      = List.map utxoOutpoint (sweepInputs utxos mainUtxo) /\
    outs transaction
      = [ {| script := createOutputScriptFromAddress
                         (publicKeyToAddress (publicKey walletKeyPair) bitcoinNetwork
                                             witness_);
             outValue := outputValue |} ] /\
    assembleDepositSweepTransaction bitcoinNetwork fee walletPrivateKey witness_ utxos
                                    deposits mainUtxo
      = Done {| sweepTransactionHash := getId transaction;
                newMainUtxoHash := getId transaction;
                newMainUtxoOutputIndex := 0;
                newMainUtxoValue := outputValue;
                rawTransaction := toHex transaction |}.
Proof.
  intros Hne Hlen Hnet Hkey Hadd outputValue Hnumber Hsat Hmain Hdeps.
  set (walletScript := createOutputScriptFromAddress
                         (publicKeyToAddress (publicKey walletKeyPair) bitcoinNetwork
                                             witness_)).
  (* the unsigned transaction: inputs, then the output *)
  assert (Hbuilt : exists tA vA t0,
    match mainUtxo with
    | Some m =>
        do* t := addInput newTransaction (rev (transactionHash m)) (outputIndex m) in
        Done (t, 0 + value m)
    | None => Done (newTransaction, 0)
    end = Done (tA, vA) /\
    addDepositInputs utxos tA vA = Done (t0, totalValue (sweepInputs utxos mainUtxo)) /\
    List.map inputOutpoint (ins t0) = List.map utxoOutpoint (sweepInputs utxos mainUtxo) /\
    outs t0 = []).
  { unfold sweepInputs in *. destruct mainUtxo as [m|]; simpl in Hadd |- *.
    - inversion Hadd as [|? ? Hm Hrest]; subst. unfold addInput. rewrite Hm. simpl.
      match goal with |- context [Done (?t1, ?v)] =>
        destruct (addDepositInputs_Done utxos t1 v Hrest) as (t0 & Ht0 & Hins & Houts);
        exists t1, v, t0 end.
      rewrite Ht0. simpl in Hins, Houts. unfold totalValue. simpl.
      split; [reflexivity|]. split; [f_equal; f_equal; unfold totalValue; lia | auto].
    - destruct (addDepositInputs_Done utxos newTransaction 0 Hadd) as (t0 & Ht0 & Hins & Houts).
      exists newTransaction, 0, t0. rewrite Ht0. simpl in Hins, Houts. auto. }
  destruct Hbuilt as (tA & vA & t0 & HtA & Ht0 & Hins0 & Houts0).
  set (t1 := {| txVersion := txVersion t0; txLocktime := txLocktime t0; ins := ins t0;
                outs := outs t0 ++ [ {| script := walletScript; outValue := outputValue |} ] |}).
  assert (Hlen1 : length (ins t1) = length (sweepInputs utxos mainUtxo)).
  { simpl. rewrite <- (length_map inputOutpoint), Hins0, length_map. reflexivity. }
  (* the main UTXO is signed *)
  assert (Hsigned1 : exists t2,
    match mainUtxo with
    | Some m =>
        do* previousOutput := previousOutputOf (transactionHex m) (outputIndex m) in
        signMainUtxoInput t1 0 previousOutput walletKeyPair bitcoinNetwork
    | None => Done t1
    end = Done t2 /\ sameShape t1 t2).
  { destruct mainUtxo as [m|]; [|exists t1; split; [reflexivity | apply sameShape_refl]].
    destruct (Hmain m eq_refl) as (po & Hpo & Howns & Hkind). rewrite Hpo. simpl.
    apply signMainUtxoInput_Done; try assumption.
    rewrite Hlen1. unfold sweepInputs. simpl. lia. }
  destruct Hsigned1 as (t2 & Ht2 & Hshape2).
  (* the deposit inputs are signed *)
  destruct (signDepositInputs_Done (combine utxos deposits) t2
              (bool_decide (is_Some mainUtxo)) 0 walletKeyPair) as (t3 & Ht3 & Hshape3);
    [|assumption|].
  { destruct Hshape2 as (_ & _ & ->). rewrite Hlen1, length_combine, <- Hlen, Nat.min_id.
    unfold sweepInputs. rewrite length_app.
    destruct mainUtxo as [m|]; simpl; lia. }
  assert (Hshape : sameShape t1 t3) by (eapply sameShape_trans; eassumption).
  destruct Hshape as (Hins3 & Houts3 & _).
  assert (Hassemble :
    assembleTransaction bitcoinNetwork fee walletPrivateKey witness_ utxos deposits mainUtxo
      = Done t3).
  { unfold assembleTransaction.
    assert (Hsome : (length utxos <? 1)%nat = false)
      by (destruct utxos; [contradiction | reflexivity]).
    rewrite Hsome. rewrite <- Hlen, Nat.eqb_refl. simpl negb. cbv iota.
    rewrite Hnet. simpl andThen at 1. rewrite Hkey. simpl andThen at 1.
    rewrite HtA. simpl andThen at 1. cbv beta iota.
    rewrite Ht0. simpl andThen at 1. cbv beta iota.
    fold outputValue. rewrite Hnumber. simpl andThen at 1.
    unfold addOutput. rewrite Hsat. simpl andThen at 1.
    fold walletScript. fold t1.
    rewrite Ht2. simpl andThen at 1. exact Ht3. }
  exists t3. split; [exact Hassemble|]. split; [|split].
  - rewrite Hins3. simpl. exact Hins0.
  - rewrite Houts3. simpl. rewrite Houts0. reflexivity.
  - unfold assembleDepositSweepTransaction. rewrite Hassemble. simpl.
    rewrite Houts3. simpl. rewrite Houts0. reflexivity.
Qed.

End Assembler.
End DepositSweepShape.

Module DepositSweepWitness.
Import DepositSweep DepositSweepShape WalletScenario.

(** The two sweeps of the wallet: deposits of 25000 and 12000 satoshi with a
    fee of 1600 give a single output of 35400; the main UTXO of 35400 with
    deposits of 17000 and 10000 gives 60800, the main UTXO spent first. *)
Lemma sweep_transaction_shape_witness :
  (exists transaction,
      assembleTransaction (J := modelJs) Testnet 1600 walletPrivateKey true
                          [utxo1; utxo2] [deposit1; deposit2] None = Done transaction /\
      List.map inputOutpoint (ins transaction)
        = List.map utxoOutpoint (sweepInputs [utxo1; utxo2] None) /\
      outs transaction
        = [ {| script := createOutputScriptFromAddress (BitcoinJs := modelJs)
                           (publicKeyToAddress (BitcoinJs := modelJs)
                              (publicKey (BitcoinJs := modelJs) walletPrivateKey)
                              Testnet true);
               outValue := totalValue (sweepInputs [utxo1; utxo2] None) - 1600 |} ] /\
      assembleDepositSweepTransaction (J := modelJs) Testnet 1600 walletPrivateKey true
                                      [utxo1; utxo2] [deposit1; deposit2] None
        = Done {| sweepTransactionHash := getId (BitcoinJs := modelJs) transaction;
                  newMainUtxoHash := getId (BitcoinJs := modelJs) transaction;
                  newMainUtxoOutputIndex := 0;
                  newMainUtxoValue := totalValue (sweepInputs [utxo1; utxo2] None) - 1600;
                  rawTransaction := toHex (BitcoinJs := modelJs) transaction |}) /\
  totalValue (sweepInputs [utxo1; utxo2] None) - 1600 = 35400 /\
  (exists transaction,
      assembleTransaction (J := modelJs) Testnet 1600 walletPrivateKey true
                          [utxo3; utxo4] [deposit3; deposit4] (Some mainUtxo)
        = Done transaction /\
      List.map inputOutpoint (ins transaction)
        = [utxoOutpoint mainUtxo; utxoOutpoint utxo3; utxoOutpoint utxo4] /\
      List.map outValue (outs transaction) = [60800]).
Proof.
  split; [|split; [vm_compute; reflexivity|]].
  - apply (sweep_transaction_shape (J := modelJs) Testnet 1600 walletPrivateKey true
             [utxo1; utxo2] [deposit1; deposit2] None Testnet walletPrivateKey).
    + discriminate.
    + reflexivity.
    + reflexivity.
    + reflexivity.
    + repeat constructor; vm_compute; reflexivity.
    + vm_compute. reflexivity.
    + vm_compute. reflexivity.
    + intros m Hm. discriminate Hm.
    + repeat constructor;
        (eexists; split; [vm_compute; reflexivity|];
         split; [first [left; vm_compute; reflexivity | right; vm_compute; reflexivity]|];
         split; [vm_compute; reflexivity|];
         split; vm_compute; reflexivity).
  - destruct (sweep_transaction_shape (J := modelJs) Testnet 1600 walletPrivateKey true
                [utxo3; utxo4] [deposit3; deposit4] (Some mainUtxo) Testnet walletPrivateKey)
      as (transaction & Hdone & Hins & Houts & _).
    + discriminate.
    + reflexivity.
    + reflexivity.
    + reflexivity.
    + repeat constructor; vm_compute; reflexivity.
    + vm_compute. reflexivity.
    + vm_compute. reflexivity.
    + intros m Hm. injection Hm as <-.
      eexists. split; [vm_compute; reflexivity|].
      split; [vm_compute; reflexivity|].
      right. split; [vm_compute; reflexivity|]. split; [vm_compute; reflexivity|].
      eexists. split; vm_compute; reflexivity.
    + repeat constructor;
        (eexists; split; [vm_compute; reflexivity|];
         split; [first [left; vm_compute; reflexivity | right; vm_compute; reflexivity]|];
         split; [vm_compute; reflexivity|];
         split; vm_compute; reflexivity).
    + exists transaction. split; [exact Hdone|]. split; [exact Hins|].
      rewrite Houts. vm_compute. reflexivity.
Defined.

End DepositSweepWitness.

(** ** A sweep that spends no deposit *)

Section NoDeposit.
Context {L : SpvLibrary}.

(** C10.  A sweep whose input processing returns empty arrays (no credited
    deposit) fails: with a division-by-zero panic at the fee share when the
    fee is not negative, with an arithmetic panic at the fee before that.
    So does every sweep none of whose inputs is a revealed deposit, when the
    input loop visits every input the vector declares; and a sweep that
    succeeds credits at least one entry. *)
Theorem sweep_without_deposits_fails (env : Env) (s : State) (sweepTx : BitcoinTxInfo)
    (sweepProof : BitcoinTxProof) (previousSweep : SweepInfo) :
  (forall wallet outputValue resolved s1 inputsValue depositors,
      validateSweepTxProof env sweepTx sweepProof = Ok (bitcoinTxHash sweepTx) ->
      processSweepTxOutput (outputVector sweepTx) = Ok (wallet, outputValue) ->
      resolvePreviousSweep s wallet previousSweep = Ok resolved ->
      processSweepTxInputs env s (inputVector sweepTx) resolved
        = Ok (s1, inputsValue, depositors, []) ->
      (outputValue <= inputsValue ->
       sweep env s sweepTx sweepProof previousSweep = Err (Panic PANIC_DIVISION_BY_ZERO)) /\
      (inputsValue < outputValue ->
       sweep env s sweepTx sweepProof previousSweep = Err (Panic PANIC_ARITHMETIC))) /\
  (sweptDepositKeys s (inputVector sweepTx) = [] ->
   length (sweepInputOutpoints (inputVector sweepTx)) = declaredInputs (inputVector sweepTx) ->
   exists e, sweep env s sweepTx sweepProof previousSweep = Err e) /\
  (forall s' depositors credits,
      sweep env s sweepTx sweepProof previousSweep = Ok (s', (depositors, credits)) ->
      credits <> []).
Proof.
  split; [|split].
  - intros wallet outputValue resolved s1 inputsValue depositors Hproof Hout Hres Hin.
    assert (Hsweep : sweep env s sweepTx sweepProof previousSweep
                     = (let* fee := checked_sub inputsValue outputValue in
                        let* feeShare := checked_div fee 0 in
                        let* credits := reduceByFeeShare feeShare [] in
                        Ok ({| owner := owner s1;
                               isVaultTrusted := isVaultTrusted s1;
                               deposits := deposits s1;
                               sweeps := <[wallet := sweepHash (bitcoinTxHash sweepTx)
                                                               outputValue]> (sweeps s1) |},
                            (depositors, credits)))).
    { unfold sweep. rewrite Hproof. simpl. rewrite Hout. simpl. rewrite Hres. simpl.
      rewrite Hin. reflexivity. }
    rewrite Hsweep. split; intros Hfee.
    + rewrite (checked_sub_le _ _ Hfee). reflexivity.
    + rewrite (checked_sub_lt _ _ Hfee). reflexivity.
  - intros Hnone Hall.
    destruct (sweep env s sweepTx sweepProof previousSweep) as [[s' [ds cs]]|e] eqn:H;
      [exfalso | exists e; reflexivity].
    destruct (sweep_Ok _ _ _ _ _ _ _ _ H)
      as (wallet & outputValue & resolved & s1 & inputsValue & amounts
          & _ & _ & _ & Hin & _ & Hne & _).
    destruct (processSweepTxInputs_complete _ _ _ _ _ _ _ _ Hin Hall) as [Ha _].
    rewrite Hnone in Ha. contradiction.
  - intros s' depositors credits H.
    destruct (sweep_Ok _ _ _ _ _ _ _ _ H)
      as (wallet & outputValue & resolved & s1 & inputsValue & amounts
          & _ & _ & _ & _ & _ & Hne & Hred & _).
    destruct (reduceByFeeShare_Ok _ _ _ Hred) as [-> _].
    destruct amounts; [contradiction | discriminate].
Qed.

End NoDeposit.

Section NoDepositWitness.
Import Scenario.

(** The second sweep that spends the output of the first and nothing else:
    its input is accepted as the previous sweep, the arrays are empty, and
    the fee share divides by zero. *)
Lemma sweep_without_deposits_fails_witness :
  validateSweepTxProof (L := modelSpv) env sweepTxNoDeposit sweepProofNoDeposit
    = Ok (bitcoinTxHash (L := modelSpv) sweepTxNoDeposit) /\
  processSweepTxOutput (L := modelSpv) (outputVector sweepTxNoDeposit) = Ok (wallet, 35000) /\
  resolvePreviousSweep (L := modelSpv) revealedAgain wallet previousSweep1
    = Ok previousSweep1 /\
  processSweepTxInputs (L := modelSpv) env revealedAgain (inputVector sweepTxNoDeposit)
                       previousSweep1
    = Ok (revealedAgain, 35400, [], []) /\
  sweptDepositKeys (L := modelSpv) revealedAgain (inputVector sweepTxNoDeposit) = [] /\
  length (sweepInputOutpoints (L := modelSpv) (inputVector sweepTxNoDeposit))
    = declaredInputs (L := modelSpv) (inputVector sweepTxNoDeposit) /\
  sweep (L := modelSpv) env revealedAgain sweepTxNoDeposit sweepProofNoDeposit
        previousSweep1
    = Err (Panic PANIC_DIVISION_BY_ZERO) /\
  exists e, sweep (L := modelSpv) env revealedAgain sweepTxNoDeposit
                  sweepProofNoDeposit previousSweep1 = Err e.
Proof.
  assert (Hproof : validateSweepTxProof (L := modelSpv) env sweepTxNoDeposit
                     sweepProofNoDeposit
                   = Ok (bitcoinTxHash (L := modelSpv) sweepTxNoDeposit))
    by (vm_compute; reflexivity).
  assert (Hout : processSweepTxOutput (L := modelSpv) (outputVector sweepTxNoDeposit)
                 = Ok (wallet, 35000))
    by (vm_compute; reflexivity).
  assert (Hres : resolvePreviousSweep (L := modelSpv) revealedAgain wallet previousSweep1
                 = Ok previousSweep1)
    by (vm_compute; reflexivity).
  assert (Hin : processSweepTxInputs (L := modelSpv) env revealedAgain
                  (inputVector sweepTxNoDeposit) previousSweep1
                = Ok (revealedAgain, 35400, [], []))
    by (vm_compute; reflexivity).
  assert (Hnone : sweptDepositKeys (L := modelSpv) revealedAgain
                    (inputVector sweepTxNoDeposit) = [])
    by (vm_compute; reflexivity).
  assert (Hall : length (sweepInputOutpoints (L := modelSpv) (inputVector sweepTxNoDeposit))
                 = declaredInputs (L := modelSpv) (inputVector sweepTxNoDeposit))
    by (vm_compute; reflexivity).
  assert (Hfee : 35000 <= 35400) by (vm_compute; discriminate).
  pose proof (sweep_without_deposits_fails (L := modelSpv) env revealedAgain sweepTxNoDeposit
                sweepProofNoDeposit previousSweep1) as (Hempty & Hnodep & _).
  exact (conj Hproof (conj Hout (conj Hres (conj Hin (conj Hnone (conj Hall
           (conj (proj1 (Hempty wallet 35000 previousSweep1 revealedAgain 35400 []
                               Hproof Hout Hres Hin) Hfee)
                 (Hnodep Hnone Hall)))))))).
Defined.

End NoDepositWitness.
(** ** Byte encodings *)

Section Encodings.

Lemma length_encodeBE (n : nat) (z : Z) : length (encodeBE n z) = n.
Proof.
  revert z. induction n as [|n IH]; intros z; simpl; [reflexivity|].
  rewrite length_app, IH. simpl. lia.
Qed.

Lemma byteZ_zbyte (z : Z) : byteZ (zbyte z) = z mod 256.
Proof.
  unfold byteZ, zbyte.
  change 0xff with (Z.ones 8). rewrite Z.land_ones by lia.
  change (2 ^ 8) with 256.
  pose proof (Z.mod_pos_bound z 256 ltac:(lia)) as Hb.
  destruct (Byte.of_N (Z.to_N (z mod 256))) as [b|] eqn:Hof.
  - apply Byte.to_of_N in Hof. rewrite Hof. lia.
  - apply Byte.of_N_None_iff in Hof. lia.
Qed.

Lemma beZ_snoc (bs : bytes) (b : byte) : beZ (bs ++ [b]) = 256 * beZ bs + byteZ b.
Proof.
  unfold beZ. rewrite fold_left_app. simpl. rewrite Z.shiftl_mul_pow2 by lia. lia.
Qed.

(** Decoding an encoded integer gives it back, cut to the width. *)
Lemma beZ_encodeBE (n : nat) (z : Z) : beZ (encodeBE n z) = z mod 2 ^ (8 * Z.of_nat n).
Proof.
  revert z. induction n as [|n IH]; intros z.
  - simpl. rewrite Z.mod_1_r. reflexivity.
  - simpl encodeBE. rewrite beZ_snoc, IH, byteZ_zbyte.
    rewrite Z.shiftr_div_pow2 by lia. change (2 ^ 8) with 256.
    replace (8 * Z.of_nat (S n)) with (8 + 8 * Z.of_nat n) by lia.
    rewrite Z.pow_add_r by lia. change (2 ^ 8) with 256.
    rewrite Z.rem_mul_r by lia. lia.
Qed.

Lemma encodeBE_mod (n : nat) (z : Z) :
  encodeBE n (z mod 2 ^ (8 * Z.of_nat n)) = encodeBE n z.
Proof.
  revert z. induction n as [|n IH]; intros z; [reflexivity|].
  simpl encodeBE.
  replace (8 * Z.of_nat (S n)) with (8 + 8 * Z.of_nat n) by lia.
  rewrite Z.pow_add_r by lia. change (2 ^ 8) with 256.
  f_equal.
  - rewrite <- (IH (Z.shiftr z 8)). f_equal.
    rewrite !Z.shiftr_div_pow2 by lia. change (2 ^ 8) with 256.
    rewrite Z.rem_mul_r by lia.
    rewrite Z.mul_comm, Z.div_add by lia.
    rewrite (Z.div_small (z mod 256)) by (apply Z.mod_pos_bound; lia). lia.
  - f_equal. unfold zbyte.
    change 0xff with (Z.ones 8). rewrite !Z.land_ones by lia. change (2 ^ 8) with 256.
    rewrite Z.rem_mul_r by lia.
    rewrite (Z.mul_comm 256), Z.mod_add by lia. rewrite Z.mod_mod by lia. reflexivity.
Qed.

(** Two encodings of the same width are equal exactly when the integers
    agree on that width. *)
Lemma encodeBE_inj (n : nat) (a b : Z) :
  encodeBE n a = encodeBE n b <-> a mod 2 ^ (8 * Z.of_nat n) = b mod 2 ^ (8 * Z.of_nat n).
Proof.
  split; intros H.
  - rewrite <- !beZ_encodeBE, H. reflexivity.
  - rewrite <- (encodeBE_mod n a), <- (encodeBE_mod n b), H. reflexivity.
Qed.

Lemma app_inj_length {A : Type} (l1 l2 r1 r2 : list A) :
  length l1 = length l2 -> l1 ++ r1 = l2 ++ r2 -> l1 = l2 /\ r1 = r2.
Proof. intros Hl H. apply app_inj_1; assumption. Qed.

End Encodings.

Section DepositScript.

(** X4.  The script a deposit must be locked with is 92 bytes long and
    commits to five fields of the reveal, each on the width of its Solidity
    type: two reveals give the same script exactly when they agree on the
    depositor, the blinding factor, the wallet and refund public key hashes
    and the refund locktime.  The vault and the funding output index are
    not part of the script. *)
Theorem expectedScript_commits (r1 r2 : RevealInfo) :
  length (expectedScript r1) = 92%nat /\
  (expectedScript r1 = expectedScript r2 <->
   depositor r1 mod 2 ^ 160 = depositor r2 mod 2 ^ 160 /\
   blindingFactor r1 mod 2 ^ 64 = blindingFactor r2 mod 2 ^ 64 /\
   walletPubKeyHash r1 mod 2 ^ 160 = walletPubKeyHash r2 mod 2 ^ 160 /\
   refundPubKeyHash r1 mod 2 ^ 160 = refundPubKeyHash r2 mod 2 ^ 160 /\
   refundLocktime r1 mod 2 ^ 32 = refundLocktime r2 mod 2 ^ 32).
Proof.
  split.
  - unfold expectedScript. rewrite !length_app, !length_encodeBE. reflexivity.
  - pose proof (encodeBE_inj 20 (depositor r1) (depositor r2)) as Hd.
    pose proof (encodeBE_inj 8 (blindingFactor r1) (blindingFactor r2)) as Hb.
    pose proof (encodeBE_inj 20 (walletPubKeyHash r1) (walletPubKeyHash r2)) as Hw.
    pose proof (encodeBE_inj 20 (refundPubKeyHash r1) (refundPubKeyHash r2)) as Hr.
    pose proof (encodeBE_inj 4 (refundLocktime r1) (refundLocktime r2)) as Hl.
    change (8 * Z.of_nat 20) with 160 in *. change (8 * Z.of_nat 8) with 64 in *.
    change (8 * Z.of_nat 4) with 32 in *.
    unfold expectedScript. split.
    + intros H.
      repeat match type of H with
      | hex _ ++ _ = hex _ ++ _ =>
          apply app_inj_length in H as [_ H]; [|reflexivity]
      | encodeBE ?n _ ++ _ = encodeBE ?n _ ++ _ =>
          let E := fresh "E" in
          apply app_inj_length in H as [E H]; [|rewrite !length_encodeBE; reflexivity]
      end.
      apply Hd in E. apply Hb in E0. apply Hw in E1. apply Hr in E2. apply Hl in E3.
      auto.
    + intros (E & E0 & E1 & E2 & E3).
      apply Hd in E. apply Hb in E0. apply Hw in E1. apply Hr in E2. apply Hl in E3.
      rewrite E, E0, E1, E2, E3. reflexivity.
Qed.

End DepositScript.
(** ** Deployment, ownership and trusted vaults *)

Section Deployment.
Context {L : SpvLibrary}.

Lemma getDeposit_empty (key : Z) : getDeposit ∅ key = emptyDeposit.
Proof. unfold getDeposit. rewrite lookup_empty. reflexivity. Qed.

Lemma revealDeposit_untrusted (env : Env) (s : State) (fundingTx : BitcoinTxInfo)
    (reveal : RevealInfo) :
  vault reveal <> 0 ->
  vaultTrusted (isVaultTrusted s) (vault reveal) = false ->
  revealDeposit env s fundingTx reveal = Err (Revert "Vault is not trusted").
Proof.
  intros Hv Ht. unfold revealDeposit. apply Z.eqb_neq in Hv. rewrite Hv, Ht. reflexivity.
Qed.

(** With no sweep recorded for the wallet the output pays, the data given
    for the previous sweep are not read. *)
Lemma sweep_first_ignores_previous (env : Env) (s : State) (sweepTx : BitcoinTxInfo)
    (sweepProof : BitcoinTxProof) (p1 p2 : SweepInfo) :
  (forall wallet value,
      processSweepTxOutput (outputVector sweepTx) = Ok (wallet, value) ->
      getSweep (sweeps s) wallet = 0) ->
  sweep env s sweepTx sweepProof p1 = sweep env s sweepTx sweepProof p2.
Proof.
  intros Hfirst. unfold sweep.
  destruct (validateSweepTxProof env sweepTx sweepProof) as [h|e]; simpl; [|reflexivity].
  destruct (processSweepTxOutput (outputVector sweepTx)) as [[wallet value]|e] eqn:Hout;
    simpl; [|reflexivity].
  unfold resolvePreviousSweep. rewrite (Hfirst wallet value eq_refl). reflexivity.
Qed.

(** X1.  The constructor reverts when the Bank address is zero, and then
    when the relay address is zero; otherwise the contract is deployed,
    whatever the difficulty factor, zero included.  The deployed contract is
    owned by the deployer and has no deposit, no recorded sweep and no
    trusted vault: every reveal routed to a vault reverts with "Vault is
    not trusted", and every sweep is the first of its wallet, the previous
    sweep data given being ignored. *)
Theorem constructor_deploys (deployer bank_ relay_ factor : Z) :
  (bank_ = 0 ->
   constructor deployer bank_ relay_ factor = Err (Revert "Bank address cannot be zero")) /\
  (bank_ <> 0 -> relay_ = 0 ->
   constructor deployer bank_ relay_ factor = Err (Revert "Relay address cannot be zero")) /\
  (bank_ <> 0 -> relay_ <> 0 ->
   exists s imm, constructor deployer bank_ relay_ factor = Ok (s, imm)) /\
  (forall s imm,
      constructor deployer bank_ relay_ factor = Ok (s, imm) ->
      owner s = deployer /\
      bank imm = bank_ /\ relay imm = relay_ /\ immTxProofDifficultyFactor imm = factor /\
      (forall key, getDeposit (deposits s) key = emptyDeposit) /\
      (forall wallet, getSweep (sweeps s) wallet = 0) /\
      (forall v, vaultTrusted (isVaultTrusted s) v = false) /\
      (forall env fundingTx reveal,
          vault reveal <> 0 ->
          revealDeposit env s fundingTx reveal = Err (Revert "Vault is not trusted")) /\
      (forall env sweepTx sweepProof p1 p2,
          sweep env s sweepTx sweepProof p1 = sweep env s sweepTx sweepProof p2)).
Proof.
  unfold constructor. repeat split.
  - intros ->. reflexivity.
  - intros Hb ->. apply Z.eqb_neq in Hb. rewrite Hb. reflexivity.
  - intros Hb Hr. apply Z.eqb_neq in Hb, Hr. rewrite Hb, Hr. simpl. eauto.
  - inv_require H. inv_require H. injection H as <- <-. reflexivity.
  - inv_require H. inv_require H. injection H as <- <-. reflexivity.
  - inv_require H. inv_require H. injection H as <- <-. reflexivity.
  - inv_require H. inv_require H. injection H as <- <-. reflexivity.
  - intros key. inv_require H. inv_require H. injection H as <- <-. apply getDeposit_empty.
  - intros wallet. inv_require H. inv_require H. injection H as <- <-.
    unfold getSweep. simpl. rewrite lookup_empty. reflexivity.
  - intros v. inv_require H. inv_require H. injection H as <- <-.
    unfold vaultTrusted. simpl. rewrite lookup_empty. reflexivity.
  - intros env fundingTx reveal Hv. inv_require H. inv_require H. injection H as <- <-.
    apply revealDeposit_untrusted; [assumption|].
    unfold vaultTrusted. simpl. rewrite lookup_empty. reflexivity.
  - intros env sweepTx sweepProof p1 p2. inv_require H. inv_require H.
    injection H as <- <-. apply sweep_first_ignores_previous.
    intros wallet value _. unfold getSweep. simpl. rewrite lookup_empty. reflexivity.
Qed.

End Deployment.

Section VaultStatus.
Context {L : SpvLibrary}.

Lemma vaultTrusted_insert (m : gmap Z bool) (v v' : Z) (t : bool) :
  vaultTrusted (<[v := t]> m) v' = if decide (v = v') then t else vaultTrusted m v'.
Proof.
  unfold vaultTrusted. rewrite lookup_insert. destruct (decide (v = v')); reflexivity.
Qed.

(** X2.  [setVaultStatus] called by anyone but the owner reverts and leaves
    the storage as it was.  Called by the owner it sets the flag of that
    vault and of no other, and touches neither the owner, the deposits nor
    the recorded sweeps; once a vault is marked as not trusted, every reveal
    routed to it reverts with "Vault is not trusted". *)
Theorem setVaultStatus_owner_only (env : Env) (s : State) (v : Z) (t : bool) :
  (sender env <> owner s ->
   setVaultStatus env s v t = Err (Revert "Ownable: caller is not the owner") /\
   step s (env, CallSetVaultStatus v t) = s) /\
  (sender env = owner s ->
   exists s',
     setVaultStatus env s v t = Ok s' /\
     step s (env, CallSetVaultStatus v t) = s' /\
     vaultTrusted (isVaultTrusted s') v = t /\
     (forall v', v' <> v ->
                 vaultTrusted (isVaultTrusted s') v' = vaultTrusted (isVaultTrusted s) v') /\
     owner s' = owner s /\ deposits s' = deposits s /\ sweeps s' = sweeps s /\
     (forall env' fundingTx reveal,
         vault reveal = v -> v <> 0 -> t = false ->
         revealDeposit env' s' fundingTx reveal = Err (Revert "Vault is not trusted"))).
Proof.
  split.
  - intros Hne.
    assert (H : setVaultStatus env s v t = Err (Revert "Ownable: caller is not the owner")).
    { unfold setVaultStatus. rewrite bool_decide_eq_false_2 by congruence. reflexivity. }
    split; [exact H|]. unfold step. simpl. rewrite H. reflexivity.
  - intros Heq. eexists.
    assert (H : setVaultStatus env s v t
                = Ok {| owner := owner s;
                        isVaultTrusted := <[v := t]> (isVaultTrusted s);
                        deposits := deposits s;
                        sweeps := sweeps s |}).
    { unfold setVaultStatus. rewrite bool_decide_eq_true_2 by congruence. reflexivity. }
    split; [exact H|]. split; [unfold step; simpl; rewrite H; reflexivity|].
    simpl. split; [|split; [|repeat split]].
    + rewrite vaultTrusted_insert. destruct (decide (v = v)); [reflexivity | contradiction].
    + intros v' Hv'. rewrite vaultTrusted_insert.
      destruct (decide (v = v')); [congruence | reflexivity].
    + intros env' fundingTx reveal Hv Hnz ->. apply revealDeposit_untrusted.
      * rewrite Hv. assumption.
      * simpl. rewrite Hv, vaultTrusted_insert.
        destruct (decide (v = v)); [reflexivity | contradiction].
Qed.

(** A reveal or a sweep leaves the owner and the trusted vaults as they
    are; so does every call that fails. *)
Lemma step_owner_vaults (s : State) (ec : Env * Call) :
  owner (step s ec) = owner s /\
  (match snd ec with
   | CallSetVaultStatus _ _ => sender (fst ec) <> owner s
   | _ => True
   end -> isVaultTrusted (step s ec) = isVaultTrusted s).
Proof.
  destruct ec as [env c]. unfold step. simpl fst. simpl snd.
  destruct (exec env s c) as [s'|e] eqn:Hexec; [|auto].
  destruct c as [v t | ftx r | stx p prev]; simpl in Hexec.
  - unfold setVaultStatus in Hexec. inv_require Hexec. injection Hexec as <-. simpl.
    split; [reflexivity|]. intros Hne. apply bool_decide_eq_true_1 in Hreq. congruence.
  - inv_bind Hexec. destruct v as [s1 ev]. injection Hexec as <-.
    destruct (revealDeposit_Ok _ _ _ _ _ _ Hstep) as (fo & foh & _ & _ & _ & _ & _ & ->).
    auto.
  - inv_bind Hexec. destruct v as [s1 [ds cs]]. injection Hexec as <-.
    destruct (sweep_Ok _ _ _ _ _ _ _ _ Hstep)
      as (wallet & outputValue & resolved & s0 & inputsValue & amounts
          & _ & _ & _ & Hin & _ & _ & _ & ->).
    pose proof (processSweepTxInputs_summary _ _ _ _ _ _ _ _ Hin)
      as (_ & _ & _ & _ & _ & _ & _ & _ & Ho & Hv & _).
    simpl. auto.
Qed.

(** X3.  Along any sequence of calls in which no [setVaultStatus] comes
    from the owner, the set of trusted vaults stays as it is: reveals and
    sweeps, whoever sends them, and the calls of [setVaultStatus] by others
    never change it. *)
Theorem vaults_changed_by_owner_only (s : State) (calls : list (Env * Call)) :
  List.Forall (fun ec => match snd ec with
                         | CallSetVaultStatus _ _ => sender (fst ec) <> owner s
                         | _ => True
                         end) calls ->
  isVaultTrusted (run s calls) = isVaultTrusted s /\ owner (run s calls) = owner s.
Proof.
  revert s. induction calls as [|ec calls IH]; intros s Hall; [auto|].
  inversion Hall as [|? ? Hec Hrest]; subst. simpl.
  destruct (step_owner_vaults s ec) as [Ho Hv].
  destruct (IH (step s ec)) as [IHv IHo].
  - rewrite Ho. assumption.
  - rewrite IHv, IHo, Ho, (Hv Hec). auto.
Qed.

End VaultStatus.

Section VaultStatusWitness.
Import Scenario VaultScenario.

Lemma vaults_changed_by_owner_only_witness :
  List.Forall (fun ec => match snd ec with
                         | CallSetVaultStatus _ _ => sender (fst ec) <> owner deployed
                         | _ => True
                         end) historyWithStranger /\
  isVaultTrusted (run (L := modelSpv) deployed historyWithStranger) = isVaultTrusted deployed /\
  owner (run (L := modelSpv) deployed historyWithStranger) = owner deployed.
Proof.
  assert (H : List.Forall (fun ec => match snd ec with
                                     | CallSetVaultStatus _ _ => sender (fst ec) <> owner deployed
                                     | _ => True
                                     end) historyWithStranger).
  { repeat constructor. simpl. discriminate. }
  exact (conj H (vaults_changed_by_owner_only (L := modelSpv) deployed historyWithStranger H)).
Defined.

End VaultStatusWitness.
(** ** What a sweep writes, and what it credits *)

Section SweepEffect.
Context {L : SpvLibrary}.

Lemma getSweep_insert (m : gmap Z Z) (w w' h : Z) :
  getSweep (<[w := h]> m) w' = if decide (w = w') then h else getSweep m w'.
Proof.
  unfold getSweep. rewrite lookup_insert. destruct (decide (w = w')); reflexivity.
Qed.

(** X5.  A sweep that is accepted writes the storage in two places only:
    the sweep recorded for the wallet its output pays, every other wallet
    keeping its own, and the [sweptAt] field of the deposits it spends,
    which were unswept and are now marked with the timestamp of the block.
    The depositor, amount, reveal time and vault of every record, the owner
    and the trusted vaults are as before. *)
Theorem sweep_storage_effect (env : Env) (s s' : State) (sweepTx : BitcoinTxInfo)
    (sweepProof : BitcoinTxProof) (previousSweep : SweepInfo) (out : list Z * list Z) :
  sweep env s sweepTx sweepProof previousSweep = Ok (s', out) ->
  exists wallet outputValue,
    processSweepTxOutput (outputVector sweepTx) = Ok (wallet, outputValue) /\
    owner s' = owner s /\
    isVaultTrusted s' = isVaultTrusted s /\
    getSweep (sweeps s') wallet = sweepHash (bitcoinTxHash sweepTx) outputValue /\
    (forall w, w <> wallet -> getSweep (sweeps s') w = getSweep (sweeps s) w) /\
    (forall key,
        In key (sweptDepositKeys s (inputVector sweepTx)) ->
        sweptAt (getDeposit (deposits s) key) = 0 /\
        getDeposit (deposits s') key = sweptRecord env (getDeposit (deposits s) key)) /\
    (forall key,
        ~ In key (sweptDepositKeys s (inputVector sweepTx)) ->
        getDeposit (deposits s') key = getDeposit (deposits s) key) /\
    sameButSwept (deposits s) (deposits s').
Proof.
  destruct out as [ds cs]. intros H.
  destruct (sweep_Ok _ _ _ _ _ _ _ _ H)
    as (wallet & outputValue & resolved & s1 & inputsValue & amounts
        & _ & Hout & _ & Hin & _ & _ & _ & ->).
  pose proof (processSweepTxInputs_summary _ _ _ _ _ _ _ _ Hin)
    as (_ & _ & _ & _ & Hu & Hk & Hn & _ & Ho & Hv & Hs).
  exists wallet, outputValue. simpl.
  split; [assumption|]. split; [assumption|]. split; [assumption|].
  split; [|split; [|split; [|split]]].
  - rewrite getSweep_insert. destruct (decide (wallet = wallet)); [reflexivity | contradiction].
  - intros w Hw. rewrite getSweep_insert, Hs.
    destruct (decide (wallet = w)); [congruence | reflexivity].
  - intros key Hkey. split; [apply Hu | apply Hk]; assumption.
  - exact Hn.
  - intros key.
    destruct (in_dec Z.eq_dec key (sweptDepositKeys s (inputVector sweepTx))) as [Hi|Hni].
    + rewrite (Hk key Hi). simpl. auto.
    + rewrite (Hn key Hni). auto.
Qed.

End SweepEffect.

Section SweepEffectWitness.
Import Scenario.

Lemma sweep_storage_effect_witness :
  sweep (L := modelSpv) env revealed sweepTx1 sweepProof1 noPreviousSweep
    = Ok (swept, ([depositor reveal1; depositor reveal2], [24200; 11200])) /\
  exists wallet_ outputValue,
    processSweepTxOutput (L := modelSpv) (outputVector sweepTx1) = Ok (wallet_, outputValue) /\
    owner swept = owner revealed /\
    isVaultTrusted swept = isVaultTrusted revealed /\
    getSweep (sweeps swept) wallet_
      = sweepHash (L := modelSpv) (bitcoinTxHash (L := modelSpv) sweepTx1) outputValue /\
    (forall w, w <> wallet_ -> getSweep (sweeps swept) w = getSweep (sweeps revealed) w) /\
    (forall key,
        In key (sweptDepositKeys (L := modelSpv) revealed (inputVector sweepTx1)) ->
        sweptAt (getDeposit (deposits revealed) key) = 0 /\
        getDeposit (deposits swept) key = sweptRecord env (getDeposit (deposits revealed) key)) /\
    (forall key,
        ~ In key (sweptDepositKeys (L := modelSpv) revealed (inputVector sweepTx1)) ->
        getDeposit (deposits swept) key = getDeposit (deposits revealed) key) /\
    sameButSwept (deposits revealed) (deposits swept).
Proof.
  assert (H : sweep (L := modelSpv) env revealed sweepTx1 sweepProof1 noPreviousSweep
              = Ok (swept, ([depositor reveal1; depositor reveal2], [24200; 11200])))
    by (vm_compute; reflexivity).
  exact (conj H (sweep_storage_effect (L := modelSpv) env revealed swept sweepTx1 sweepProof1
                   noPreviousSweep _ H)).
Defined.

End SweepEffectWitness.
Section SweepCredits.
Context {L : SpvLibrary}.

Lemma sumZ_map_sub_const (f : Z) (l : list Z) :
  sumZ (List.map (fun a => a - f) l) = sumZ l - f * Z.of_nat (length l).
Proof. induction l as [|a l IH]; simpl length; simpl sumZ; [lia | rewrite IH; lia]. Qed.

Lemma Forall2_map_sub (f : Z) (l : list Z) :
  0 <= f -> List.Forall (fun a => f <= a) l ->
  List.Forall2 (fun a c => 0 <= c <= a) l (List.map (fun a => a - f) l).
Proof.
  intros Hf. induction 1 as [|a l Ha _ IH]; simpl; constructor; [lia | assumption].
Qed.

(** X6.  In a sweep that is accepted every credit lies between zero and the
    registered amount of its deposit, and the credits together make up what
    the wallet's output gained over the previous sweep's output, plus the
    remainder of the division of the fee: at least [output - spent] and
    less than [output - spent + N] for [N] credits.  [spent] is the output
    value of the resolved previous sweep, zero for a first sweep. *)
Theorem sweep_credits_bounds (env : Env) (s s' : State) (sweepTx : BitcoinTxInfo)
    (sweepProof : BitcoinTxProof) (previousSweep : SweepInfo)
    (depositors credits : list Z) :
  sweep env s sweepTx sweepProof previousSweep = Ok (s', (depositors, credits)) ->
  exists (wallet outputValue : Z) (resolved : SweepInfo) (pad : nat),
    processSweepTxOutput (outputVector sweepTx) = Ok (wallet, outputValue) /\
    resolvePreviousSweep s wallet previousSweep = Ok resolved /\
    let keys := sweptDepositKeys s (inputVector sweepTx) in
    let depositedAmounts := List.map (amountOf (deposits s)) keys ++ replicate pad 0 in
    let spent := if txHash resolved =? 0 then 0 else txOutputValue resolved in
    List.Forall2 (fun a c => 0 <= c <= a) depositedAmounts credits /\
    outputValue - spent <= sumZ credits < outputValue - spent + Z.of_nat (length credits) /\
    (length (sweepInputOutpoints (inputVector sweepTx))
       = declaredInputs (inputVector sweepTx) -> pad = O).
Proof.
  intros H.
  destruct (sweep_Ok _ _ _ _ _ _ _ _ H)
    as (wallet & outputValue & resolved & s1 & inputsValue & amounts
        & _ & Hout & Hres & Hin & Hle & Hne & Hred & _).
  pose proof (processSweepTxInputs_summary _ _ _ _ _ _ _ _ Hin)
    as ((pad & Ha & Hd) & Hv & _).
  exists wallet, outputValue, resolved, pad.
  split; [assumption|]. split; [assumption|].
  cbv zeta. rewrite <- Ha.
  destruct (reduceByFeeShare_Ok _ _ _ Hred) as [Hc Hall].
  assert (HN : 1 <= Z.of_nat (length amounts)).
  { destruct amounts; [contradiction | simpl length; lia]. }
  set (N := Z.of_nat (length amounts)) in *.
  set (fee := inputsValue - outputValue) in *.
  assert (Hshare : 0 <= fee / N) by (apply Z.div_pos; lia).
  assert (Hsum : sumZ amounts
                 = inputsValue - (if txHash resolved =? 0 then 0 else txOutputValue resolved)).
  { rewrite Ha, sumZ_app, sumZ_replicate_0. lia. }
  split; [|split].
  - rewrite Hc. apply Forall2_map_sub; assumption.
  - rewrite Hc, sumZ_map_sub_const, length_map. fold N. rewrite Hsum.
    pose proof (Z.div_mod fee N ltac:(lia)) as Hdm.
    pose proof (Z.mod_pos_bound fee N ltac:(lia)) as Hmod.
    subst fee. lia.
  - intros Hwalk.
    destruct (processSweepTxInputs_complete _ _ _ _ _ _ _ _ Hin Hwalk) as [Ha' _].
    rewrite Ha' in Ha. apply (f_equal (@length Z)) in Ha.
    rewrite length_app, length_replicate in Ha. lia.
Qed.

End SweepCredits.

Section SweepCreditsWitness.
Import Scenario.

Lemma sweep_credits_bounds_witness :
  sweep (L := modelSpv) env revealedAgain sweepTx2 sweepProof2 previousSweep1
    = Ok (sweptAgain, ([depositor reveal3; depositor reveal4], [16200; 9200])) /\
  exists (wallet_ outputValue : Z) (resolved : SweepInfo) (pad : nat),
    processSweepTxOutput (L := modelSpv) (outputVector sweepTx2) = Ok (wallet_, outputValue) /\
    resolvePreviousSweep (L := modelSpv) revealedAgain wallet_ previousSweep1 = Ok resolved /\
    let keys := sweptDepositKeys (L := modelSpv) revealedAgain (inputVector sweepTx2) in
    let depositedAmounts :=
      List.map (amountOf (deposits revealedAgain)) keys ++ replicate pad 0 in
    let spent := if txHash resolved =? 0 then 0 else txOutputValue resolved in
    List.Forall2 (fun a c => 0 <= c <= a) depositedAmounts [16200; 9200] /\
    outputValue - spent <= sumZ [16200; 9200]
      < outputValue - spent + Z.of_nat (length [16200; 9200]) /\
    (length (sweepInputOutpoints (L := modelSpv) (inputVector sweepTx2))
       = declaredInputs (L := modelSpv) (inputVector sweepTx2) -> pad = O).
Proof.
  assert (H : sweep (L := modelSpv) env revealedAgain sweepTx2 sweepProof2 previousSweep1
              = Ok (sweptAgain, ([depositor reveal3; depositor reveal4], [16200; 9200])))
    by (vm_compute; reflexivity).
  exact (conj H (sweep_credits_bounds (L := modelSpv) env revealedAgain sweptAgain sweepTx2
                   sweepProof2 previousSweep1 _ _ H)).
Defined.

End SweepCreditsWitness.
Section SweepReplay.
Context {L : SpvLibrary}.

Lemma run_sweptAt_frozen (calls : list (Env * Call)) (s : State) (k : Z) :
  sweptAt (getDeposit (deposits s) k) <> 0 ->
  sweptAt (getDeposit (deposits (run s calls)) k) = sweptAt (getDeposit (deposits s) k).
Proof.
  revert s. induction calls as [|ec calls IH]; intros s Hk; [reflexivity|].
  simpl. rewrite IH; rewrite step_sweptAt_frozen; auto.
Qed.

Lemma filter_nil_Forall {A : Type} (f : A -> bool) (l : list A) :
  List.filter f l = [] -> List.Forall (fun x => f x = false) l.
Proof.
  induction l as [|a l IH]; simpl; [constructor|].
  destruct (f a) eqn:Hf; [discriminate|]. intros H. constructor; auto.
Qed.

Lemma filter_length_Forall {A : Type} (f : A -> bool) (l : list A) :
  length (List.filter f l) = length l -> List.Forall (fun x => f x = true) l.
Proof.
  induction l as [|a l IH]; simpl; [constructor|].
  pose proof (List.filter_length_le f l) as Hle.
  destruct (f a) eqn:Hf; simpl; intros H.
  - constructor; [assumption | apply IH; lia].
  - lia.
Qed.

(** X7.  A sweep transaction is proven once.  After a sweep is accepted in
    a block whose timestamp is not a multiple of [2^32], the input loop
    having visited every input the vector declares, every later call of
    [sweep] with the same transaction fails, whatever the proof, the
    previous sweep data and the calls made in between. *)
Theorem sweep_proven_once (env : Env) (s s' : State) (sweepTx : BitcoinTxInfo)
    (sweepProof : BitcoinTxProof) (previousSweep : SweepInfo) (out : list Z * list Z) :
  sweep env s sweepTx sweepProof previousSweep = Ok (s', out) ->
  uint32 (timestamp env) <> 0 ->
  length (sweepInputOutpoints (inputVector sweepTx)) = declaredInputs (inputVector sweepTx) ->
  forall (calls : list (Env * Call)) (env2 : Env) (sweepProof2 : BitcoinTxProof)
         (previousSweep2 : SweepInfo),
    exists e, sweep env2 (run s' calls) sweepTx sweepProof2 previousSweep2 = Err e.
Proof.
  intros H Hts Hwalk calls env2 sweepProof2 previousSweep2.
  destruct out as [ds cs].
  destruct (sweep_Ok _ _ _ _ _ _ _ _ H)
    as (wallet & outputValue & resolved & s1 & inputsValue & amounts
        & _ & _ & _ & Hin & _ & Hne & _ & _).
  destruct (processSweepTxInputs_complete _ _ _ _ _ _ _ _ Hin Hwalk) as [Ha _].
  destruct (sweptDepositKeys s (inputVector sweepTx)) as [|k keys] eqn:Hkeys;
    [subst amounts; contradiction|].
  assert (Hk : In k (sweptDepositKeys s (inputVector sweepTx)))
    by (rewrite Hkeys; left; reflexivity).
  destruct (sweep_deposits _ _ _ _ _ _ _ H) as (_ & Hrec & _).
  specialize (Hrec k Hk).
  unfold sweptDepositKeys in Hk. apply depositKeysOf_revealed in Hk as [Hop Hrev].
  apply in_map_iff in Hop as (o & <- & Ho).
  unfold isRevealed in Hrev. apply negb_true_iff, Z.eqb_neq in Hrev.
  assert (Hrev' : revealedAt (getDeposit (deposits s') (outpointKey o)) <> 0)
    by (rewrite Hrec; assumption).
  assert (Hswept' : sweptAt (getDeposit (deposits s') (outpointKey o)) <> 0)
    by (rewrite Hrec; assumption).
  apply (sweep_of_swept_fails env2 _ sweepTx sweepProof2 previousSweep2 o Ho).
  - destruct (run_revealed_frozen calls s' _ Hrev') as (_ & _ & -> & _). assumption.
  - rewrite run_sweptAt_frozen; assumption.
Qed.

(** X8.  The first sweep of a wallet.  When no sweep is recorded for the
    wallet the output pays, the previous sweep data given by the caller are
    not read: the call gives the same result whatever they are.  And when
    it is accepted, every input the loop visited is a deposit that was
    revealed and not yet swept. *)
Theorem first_sweep_spends_deposits_only (env : Env) (s : State) (sweepTx : BitcoinTxInfo)
    (sweepProof : BitcoinTxProof) (wallet value : Z) :
  processSweepTxOutput (outputVector sweepTx) = Ok (wallet, value) ->
  getSweep (sweeps s) wallet = 0 ->
  (forall p1 p2, sweep env s sweepTx sweepProof p1 = sweep env s sweepTx sweepProof p2) /\
  (forall previousSweep s' out,
      sweep env s sweepTx sweepProof previousSweep = Ok (s', out) ->
      List.Forall (fun o => isRevealed (deposits s) (outpointKey o) = true /\
                            sweptAt (getDeposit (deposits s) (outpointKey o)) = 0)
                  (sweepInputOutpoints (inputVector sweepTx))).
Proof.
  intros Hout Hfirst. split.
  - intros p1 p2. unfold sweep.
    destruct (validateSweepTxProof env sweepTx sweepProof) as [h|e]; simpl; [|reflexivity].
    rewrite Hout. simpl. unfold resolvePreviousSweep. rewrite Hfirst. reflexivity.
  - intros previousSweep s' [ds cs] H.
    destruct (sweep_Ok _ _ _ _ _ _ _ _ H)
      as (wallet' & outputValue & resolved & s1 & inputsValue & amounts
          & _ & Hout' & Hres & Hin & _).
    rewrite Hout in Hout'. injection Hout' as <- <-.
    unfold resolvePreviousSweep in Hres. rewrite Hfirst in Hres. simpl in Hres.
    injection Hres as <-.
    pose proof (processSweepTxInputs_summary _ _ _ _ _ _ _ _ Hin)
      as (_ & _ & Hlen & _ & Hu & _).
    simpl in Hlen. rewrite Nat.add_0_r in Hlen.
    unfold sweptDepositKeys, depositKeysOf in Hlen, Hu.
    rewrite <- (length_map outpointKey) in Hlen. symmetry in Hlen.
    apply filter_length_Forall in Hlen.
    rewrite List.Forall_forall in Hlen. apply List.Forall_forall. intros o Ho.
    assert (Hrev : isRevealed (deposits s) (outpointKey o) = true)
      by (apply Hlen, in_map; assumption).
    split; [assumption|]. apply Hu. apply filter_In. split; [apply in_map|]; assumption.
Qed.

(** X9.  On a contract reached from its deployment by any sequence of calls,
    a record marked as swept is a revealed one. *)
Theorem swept_records_are_revealed (owner_ : Z) (calls : list (Env * Call)) (key : Z) :
  sweptAt (getDeposit (deposits (run (initialState owner_) calls)) key) <> 0 ->
  revealedAt (getDeposit (deposits (run (initialState owner_) calls)) key) <> 0.
Proof.
  apply (run_sweptAreRevealed calls _ (initialState_sweptAreRevealed owner_)).
Qed.

End SweepReplay.

Section SweepReplayWitness.
Import Scenario.

Lemma sweep_proven_once_witness :
  sweep (L := modelSpv) env revealed sweepTx1 sweepProof1 noPreviousSweep
    = Ok (swept, ([depositor reveal1; depositor reveal2], [24200; 11200])) /\
  uint32 (timestamp env) <> 0 /\
  length (sweepInputOutpoints (L := modelSpv) (inputVector sweepTx1))
    = declaredInputs (L := modelSpv) (inputVector sweepTx1) /\
  forall (calls : list (Env * Call)) (env2 : Env) (sweepProof2 : BitcoinTxProof)
         (previousSweep2 : SweepInfo),
    exists e, sweep (L := modelSpv) env2 (run (L := modelSpv) swept calls) sweepTx1
                    sweepProof2 previousSweep2 = Err e.
Proof.
  assert (H : sweep (L := modelSpv) env revealed sweepTx1 sweepProof1 noPreviousSweep
              = Ok (swept, ([depositor reveal1; depositor reveal2], [24200; 11200])))
    by (vm_compute; reflexivity).
  assert (Hts : uint32 (timestamp env) <> 0) by (vm_compute; discriminate).
  assert (Hwalk : length (sweepInputOutpoints (L := modelSpv) (inputVector sweepTx1))
                  = declaredInputs (L := modelSpv) (inputVector sweepTx1))
    by (vm_compute; reflexivity).
  exact (conj H (conj Hts (conj Hwalk
           (sweep_proven_once (L := modelSpv) env revealed swept sweepTx1 sweepProof1
              noPreviousSweep _ H Hts Hwalk)))).
Defined.

Lemma first_sweep_spends_deposits_only_witness :
  processSweepTxOutput (L := modelSpv) (outputVector sweepTx1) = Ok (wallet, 35400) /\
  getSweep (sweeps revealed) wallet = 0 /\
  (forall p1 p2, sweep (L := modelSpv) env revealed sweepTx1 sweepProof1 p1
                 = sweep (L := modelSpv) env revealed sweepTx1 sweepProof1 p2) /\
  (forall previousSweep s' out,
      sweep (L := modelSpv) env revealed sweepTx1 sweepProof1 previousSweep = Ok (s', out) ->
      List.Forall (fun o => isRevealed (deposits revealed) (outpointKey (L := modelSpv) o) = true /\
                            sweptAt (getDeposit (deposits revealed)
                                                (outpointKey (L := modelSpv) o)) = 0)
                  (sweepInputOutpoints (L := modelSpv) (inputVector sweepTx1))).
Proof.
  assert (Hout : processSweepTxOutput (L := modelSpv) (outputVector sweepTx1)
                 = Ok (wallet, 35400)) by (vm_compute; reflexivity).
  assert (Hfirst : getSweep (sweeps revealed) wallet = 0) by (vm_compute; reflexivity).
  exact (conj Hout (conj Hfirst
           (first_sweep_spends_deposits_only (L := modelSpv) env revealed sweepTx1 sweepProof1
              wallet 35400 Hout Hfirst))).
Defined.

Lemma swept_records_are_revealed_witness :
  sweptAt (getDeposit (deposits (run (L := modelSpv) (initialState 0xa11ce) history1))
                      (outpointKey (L := modelSpv) outpoint1)) <> 0 /\
  revealedAt (getDeposit (deposits (run (L := modelSpv) (initialState 0xa11ce) history1))
                         (outpointKey (L := modelSpv) outpoint1)) <> 0.
Proof.
  assert (H : sweptAt (getDeposit (deposits (run (L := modelSpv) (initialState 0xa11ce)
                                                 history1))
                                  (outpointKey (L := modelSpv) outpoint1)) <> 0)
    by (vm_compute; discriminate).
  exact (conj H (swept_records_are_revealed (L := modelSpv) 0xa11ce history1 _ H)).
Defined.

End SweepReplayWitness.
(** ** Timestamps kept as [uint32] *)

Section TimestampWraparound.
Context {L : SpvLibrary}.

Lemma sweptRecord_unswept (env : Env) (d : DepositInfo) :
  uint32 (timestamp env) = 0 -> sweptAt d = 0 -> sweptRecord env d = d.
Proof. intros Hts Hd. destruct d. unfold sweptRecord. simpl in *. congruence. Qed.

(** X10.  In a block whose timestamp is a multiple of [2^32] the marks the
    contract relies on are not set.  A reveal that succeeds there leaves
    its outpoint unrevealed ([revealedAt] is zero), so the same reveal
    succeeds again; and a sweep that is accepted there leaves every deposit
    record as it was, the deposits it credited being still unswept. *)
Theorem timestamp_wraparound_sets_no_mark (env : Env) :
  uint32 (timestamp env) = 0 ->
  (forall s fundingTx reveal s' ev,
      revealDeposit env s fundingTx reveal = Ok (s', ev) ->
      isRevealed (deposits s')
                 (depositKey (bitcoinTxHash fundingTx) (fundingOutputIndex reveal)) = false /\
      forall env2, exists s'' ev2, revealDeposit env2 s' fundingTx reveal = Ok (s'', ev2)) /\
  (forall s sweepTx sweepProof previousSweep s' out,
      sweep env s sweepTx sweepProof previousSweep = Ok (s', out) ->
      forall key, getDeposit (deposits s') key = getDeposit (deposits s) key).
Proof.
  intros Hts. split.
  - intros s fundingTx reveal s' ev H.
    destruct (revealDeposit_Ok _ _ _ _ _ _ H)
      as (fo & foh & Hvault & Hfo & Hfoh & Hscript & Hnew & ->).
    simpl deposits.
    assert (Hzero : revealedAt (getDeposit
                      (<[depositKey (bitcoinTxHash fundingTx) (fundingOutputIndex reveal) :=
                           {| dDepositor := depositor reveal;
                              amount := reverseUint64 (fundingOutputAmount fo);
                              revealedAt := uint32 (timestamp env);
                              dVault := vault reveal;
                              sweptAt := sweptAt (getDeposit (deposits s)
                                           (depositKey (bitcoinTxHash fundingTx)
                                                       (fundingOutputIndex reveal))) |}]>
                         (deposits s))
                      (depositKey (bitcoinTxHash fundingTx) (fundingOutputIndex reveal))) = 0).
    { rewrite getDeposit_insert.
      destruct (decide (depositKey (bitcoinTxHash fundingTx) (fundingOutputIndex reveal)
                        = depositKey (bitcoinTxHash fundingTx) (fundingOutputIndex reveal)));
        [exact Hts | contradiction]. }
    split.
    + unfold isRevealed. rewrite Hzero. reflexivity.
    + intros env2. unfold revealDeposit. simpl isVaultTrusted. rewrite Hvault. simpl.
      rewrite Hfo. simpl. rewrite Hfoh. simpl. rewrite Hscript. simpl.
      simpl deposits. rewrite Hzero. simpl. eauto.
  - intros s sweepTx sweepProof previousSweep s' out H key.
    destruct (sweep_deposits _ _ _ _ _ _ _ H) as (Hu & Hk & Hn & _).
    destruct (in_dec Z.eq_dec key (sweptDepositKeys s (inputVector sweepTx))) as [Hi|Hni].
    + rewrite (Hk key Hi). apply sweptRecord_unswept; [assumption | apply Hu; assumption].
    + apply Hn. assumption.
Qed.

End TimestampWraparound.

Section TimestampWraparoundWitness.
Import Scenario VaultScenario.

Lemma timestamp_wraparound_sets_no_mark_witness :
  uint32 (timestamp envWrapped) = 0 /\
  isOk (revealDeposit (L := modelSpv) envWrapped deployed fundingTx1 reveal1) = true /\
  isOk (sweep (L := modelSpv) envWrapped revealed sweepTx1 sweepProof1 noPreviousSweep) = true /\
  (forall s fundingTx reveal s' ev,
      revealDeposit (L := modelSpv) envWrapped s fundingTx reveal = Ok (s', ev) ->
      isRevealed (deposits s')
                 (depositKey (L := modelSpv) (bitcoinTxHash (L := modelSpv) fundingTx)
                             (fundingOutputIndex reveal)) = false /\
      forall env2, exists s'' ev2,
          revealDeposit (L := modelSpv) env2 s' fundingTx reveal = Ok (s'', ev2)) /\
  (forall s sweepTx sweepProof previousSweep s' out,
      sweep (L := modelSpv) envWrapped s sweepTx sweepProof previousSweep = Ok (s', out) ->
      forall key, getDeposit (deposits s') key = getDeposit (deposits s) key).
Proof.
  assert (Hts : uint32 (timestamp envWrapped) = 0) by (vm_compute; reflexivity).
  split; [exact Hts|].
  split; [vm_compute; reflexivity|].
  split; [vm_compute; reflexivity|].
  exact (timestamp_wraparound_sets_no_mark (L := modelSpv) envWrapped Hts).
Defined.

End TimestampWraparoundWitness.

(** ** The difficulty factor *)

Section DifficultyFactor.
Context {L : SpvLibrary}.

(** What [evaluateProofDifficulty] checked when it succeeds. *)
Lemma evaluateProofDifficulty_Ok (env : Env) (headers : bytes) :
  evaluateProofDifficulty env headers = Ok tt ->
  exists target firstHeaderDiff observedDiff,
    extractTarget headers = Ok target /\
    calculateDifficulty target = Ok firstHeaderDiff /\
    (firstHeaderDiff = currentEpochDifficulty env \/
     firstHeaderDiff = prevEpochDifficulty env) /\
    validateHeaderChain headers = Ok observedDiff /\
    observedDiff <> getErrBadLength /\
    observedDiff <> getErrInvalidChain /\
    observedDiff <> getErrLowWork /\
    firstHeaderDiff * txProofDifficultyFactor env <= MAX_UINT256 /\
    firstHeaderDiff * txProofDifficultyFactor env <= observedDiff.
Proof.
  unfold evaluateProofDifficulty. intros H.
  inv_bind H. rename v into target.
  inv_bind H. rename v into firstHeaderDiff.
  inv_bind H. rename v into requestedDiff.
  inv_bind H. rename v into observedDiff.
  inv_require H. inv_require H. inv_require H.
  inv_bind H. rename v into requiredDiff.
  apply require_Ok_inv in H.
  apply checked_mul_Ok in Hstep3 as [-> Hfit].
  apply negb_true_iff, Z.eqb_neq in Hreq, Hreq0, Hreq1.
  apply Z.leb_le in H.
  assert (Hrequested : requestedDiff = firstHeaderDiff /\
                       (firstHeaderDiff = currentEpochDifficulty env \/
                        firstHeaderDiff = prevEpochDifficulty env)).
  { destruct (Z.eqb_spec firstHeaderDiff (currentEpochDifficulty env)) as [Hc|Hc].
    - injection Hstep1 as <-. auto.
    - destruct (Z.eqb_spec firstHeaderDiff (prevEpochDifficulty env)) as [Hp|Hp];
        [|discriminate].
      injection Hstep1 as <-. auto. }
  destruct Hrequested as [-> Hepoch].
  exists target, firstHeaderDiff, observedDiff. repeat split; assumption.
Qed.

Lemma evaluateProofDifficulty_accepts (env : Env) (headers : bytes)
    (target firstHeaderDiff observedDiff : Z) :
  extractTarget headers = Ok target ->
  calculateDifficulty target = Ok firstHeaderDiff ->
  firstHeaderDiff = currentEpochDifficulty env \/
  firstHeaderDiff = prevEpochDifficulty env ->
  validateHeaderChain headers = Ok observedDiff ->
  observedDiff <> getErrBadLength ->
  observedDiff <> getErrInvalidChain ->
  observedDiff <> getErrLowWork ->
  firstHeaderDiff * txProofDifficultyFactor env <= MAX_UINT256 ->
  firstHeaderDiff * txProofDifficultyFactor env <= observedDiff ->
  evaluateProofDifficulty env headers = Ok tt.
Proof.
  intros Htarget Hdiff Hepoch Hchain Hlen Hinv Hlow Hfit Hwork.
  unfold evaluateProofDifficulty. rewrite Htarget. simpl. rewrite Hdiff. simpl.
  assert (Hreq : (if firstHeaderDiff =? currentEpochDifficulty env
                  then Ok (currentEpochDifficulty env)
                  else if firstHeaderDiff =? prevEpochDifficulty env
                       then Ok (prevEpochDifficulty env)
                       else Err (Revert "Not at current or previous difficulty"))
                 = Ok firstHeaderDiff).
  { destruct (Z.eqb_spec firstHeaderDiff (currentEpochDifficulty env)) as [<-|Hc];
      [reflexivity|].
    destruct (Z.eqb_spec firstHeaderDiff (prevEpochDifficulty env)) as [<-|Hp];
      [reflexivity|].
    destruct Hepoch; contradiction. }
  rewrite Hreq. simpl. rewrite Hchain. simpl.
  apply Z.eqb_neq in Hlen, Hinv, Hlow. rewrite Hlen, Hinv, Hlow. simpl.
  rewrite (checked_mul_le _ _ Hfit). simpl.
  apply Z.leb_le in Hwork. rewrite Hwork. reflexivity.
Qed.

(** X11.  Requiring fewer confirmations never turns an accepted proof into
    a rejected one: a proof that [checkProofFromTxHash] accepts under a
    difficulty factor is accepted under every smaller one, zero included,
    the relay's two difficulties being the same. *)
Theorem proof_accepted_under_smaller_factor (env env' : Env) (txHash_ : Z)
    (proof : BitcoinTxProof) :
  currentEpochDifficulty env' = currentEpochDifficulty env ->
  prevEpochDifficulty env' = prevEpochDifficulty env ->
  0 <= currentEpochDifficulty env ->
  0 <= prevEpochDifficulty env ->
  0 <= txProofDifficultyFactor env' <= txProofDifficultyFactor env ->
  checkProofFromTxHash env txHash_ proof = Ok tt ->
  checkProofFromTxHash env' txHash_ proof = Ok tt.
Proof.
  intros Hc Hp Hc0 Hp0 Hf H. unfold checkProofFromTxHash in *.
  inv_bind H. rename v into root. rewrite Hstep. simpl.
  inv_bind H. rename v into proven. rewrite Hstep0. simpl.
  inv_require H. rewrite Hreq. simpl.
  destruct (evaluateProofDifficulty_Ok _ _ H)
    as (target & d & observed & Htarget & Hdiff & Hepoch & Hchain & Hlen & Hinv & Hlow
        & Hfit & Hwork).
  assert (Hd : 0 <= d) by (destruct Hepoch; subst d; assumption).
  apply (evaluateProofDifficulty_accepts env' _ target d observed); try assumption.
  - rewrite Hc, Hp. assumption.
  - nia.
  - nia.
Qed.

End DifficultyFactor.

Section DifficultyFactorWitness.
Import Scenario VaultScenario.

Lemma proof_accepted_under_smaller_factor_witness :
  checkProofFromTxHash (L := modelSpv) envThree (bitcoinTxHash (L := modelSpv) sweepTx1)
                       sweepProof1 = Ok tt.
Proof.
  apply (proof_accepted_under_smaller_factor (L := modelSpv) env envThree
           (bitcoinTxHash (L := modelSpv) sweepTx1) sweepProof1).
  - reflexivity.
  - reflexivity.
  - vm_compute. discriminate.
  - vm_compute. discriminate.
  - split; vm_compute; discriminate.
  - vm_compute. reflexivity.
Defined.

End DifficultyFactorWitness.
(** ** The assembler: what a successful assembly checked *)

Module DepositSweepSound.
Import DepositSweep DepositSweepFacts.

Section Assembler.
Context {J : BitcoinJs}.

Lemma andThen_Done_inv {A B : Type} (o : outcome A) (k : A -> outcome B) (b : B) :
  andThen o k = Done b -> exists a, o = Done a /\ k a = Done b.
Proof. destruct o as [a|m]; simpl; [eauto | discriminate]. Qed.

Lemma addInput_Done_inv (t t' : Transaction) (h : bytes) (i : Z) :
  addInput t h i = Done t' ->
  isHash256bit h && isUInt32 i = true /\
  ins t' = ins t ++ [ {| hash := h; index := i; sequence := DEFAULT_SEQUENCE;
                         inScript := []; witness := [] |} ] /\
  outs t' = outs t.
Proof.
  unfold addInput. destruct (isHash256bit h && isUInt32 i); [|discriminate].
  intros [= <-]. auto.
Qed.

Lemma addDepositInputs_Done_inv (utxos : list Utxo) (t t' : Transaction) (v v' : Z) :
  addDepositInputs utxos t v = Done (t', v') ->
  v' = v + totalValue utxos /\
  List.Forall (fun u => isHash256bit (rev (transactionHash u)) && isUInt32 (outputIndex u)
                        = true) utxos /\
  ins t' = ins t ++ List.map (fun u => {| hash := rev (transactionHash u);
                                          index := outputIndex u;
                                          sequence := DEFAULT_SEQUENCE;
                                          inScript := []; witness := [] |}) utxos /\
  outs t' = outs t.
Proof.
  revert t v. induction utxos as [|u utxos IH]; intros t v H; simpl in H.
  - injection H as <- <-. unfold totalValue. simpl. rewrite app_nil_r.
    repeat split; [lia | constructor].
  - apply andThen_Done_inv in H as (t1 & Hadd & H).
    apply addInput_Done_inv in Hadd as (Hok & Hins & Houts).
    destruct (IH _ _ H) as (-> & Hall & Hins' & Houts').
    repeat split.
    + unfold totalValue. simpl. lia.
    + constructor; assumption.
    + rewrite Hins', Hins, <- app_assoc. reflexivity.
    + congruence.
Qed.

Lemma setInputScript_Done_inv (t t' : Transaction) (inputIndex : nat) (s : bytes) :
  setInputScript t inputIndex s = Done t' ->
  (inputIndex < length (ins t))%nat /\ sameShape t t'.
Proof.
  unfold setInputScript. destruct (ins t !! inputIndex) as [i|] eqn:Hi; [|discriminate].
  intros [= <-]. split; [apply lookup_lt_Some in Hi; assumption|].
  repeat split; simpl.
  - apply (map_insert_same inputOutpoint _ _ i); [assumption | reflexivity].
  - apply length_insert.
Qed.

Lemma setInputWitness_Done_inv (t t' : Transaction) (inputIndex : nat) (w : list bytes) :
  setInputWitness t inputIndex w = Done t' ->
  (inputIndex < length (ins t))%nat /\ sameShape t t'.
Proof.
  unfold setInputWitness. destruct (ins t !! inputIndex) as [i|] eqn:Hi; [|discriminate].
  intros [= <-]. split; [apply lookup_lt_Some in Hi; assumption|].
  repeat split; simpl.
  - apply (map_insert_same inputOutpoint _ _ i); [assumption | reflexivity].
  - apply length_insert.
Qed.

Lemma signMainUtxoInput_Done_inv (t t' : Transaction) (inputIndex : nat)
    (previousOutput : TxOutput) (walletKeyPair : Signer) (bitcoinNetwork : BitcoinNetwork) :
  signMainUtxoInput t inputIndex previousOutput walletKeyPair bitcoinNetwork = Done t' ->
  ownsUtxo walletKeyPair (script previousOutput) bitcoinNetwork = Done true /\
  (isP2PKHScript (script previousOutput) = true \/
   (isP2PKHScript (script previousOutput) = false /\
    isP2WPKHScript (script previousOutput) = true /\
    exists publicKeyHash,
      decompile (script previousOutput) = Some [Opcode 0; Data publicKeyHash] /\
      length publicKeyHash = 20%nat)) /\
  sameShape t t'.
Proof.
  unfold signMainUtxoInput. intros H.
  apply andThen_Done_inv in H as (owned & Howns & H).
  destruct owned; simpl in H; [|discriminate].
  split; [assumption|].
  destruct (isP2PKHScript (script previousOutput)) eqn:Hp.
  - apply setInputScript_Done_inv in H as [_ Hshape]. auto.
  - destruct (isP2WPKHScript (script previousOutput)) eqn:Hw; [|discriminate].
    destruct (decompile (script previousOutput)) as [chunks|] eqn:Hdec; [|discriminate].
    destruct chunks as [|[code|b] chunks]; try discriminate.
    destruct code; try discriminate.
    destruct chunks as [|[code|pkh] chunks]; try discriminate.
    destruct chunks; try discriminate.
    destruct (Nat.eqb_spec (length pkh) 20) as [Hlen|]; [|discriminate].
    apply setInputWitness_Done_inv in H as [_ Hshape].
    split; [|assumption]. right. repeat split; eauto.
Qed.

Lemma prepareDepositScript_Done_inv (deposit : Deposit) (previousOutputValue : Z)
    (walletKeyPair : Signer) (depositScript : bytes) :
  prepareDepositScript deposit previousOutputValue walletKeyPair = Done depositScript ->
  toNumber (amount deposit) = Done previousOutputValue /\
  computeHash160 (publicKeyHex walletKeyPair) = walletPublicKeyHash deposit /\
  isCompressedPublicKey (publicKeyHex walletKeyPair) = true /\
  depositScript = assembleDepositScript deposit.
Proof.
  unfold prepareDepositScript. intros H.
  apply andThen_Done_inv in H as (n & Hn & H).
  destruct (Z.eqb_spec previousOutputValue n) as [->|]; simpl in H; [|discriminate].
  destruct (String.eqb_spec (computeHash160 (publicKeyHex walletKeyPair))
                            (walletPublicKeyHash deposit)) as [Hh|]; simpl in H;
    [|discriminate].
  destruct (isCompressedPublicKey (publicKeyHex walletKeyPair)) eqn:Hc; simpl in H;
    [|discriminate].
  injection H as <-. auto.
Qed.

Lemma signDepositInput_Done_inv (t t' : Transaction) (inputIndex : nat) (utxo : Utxo)
    (deposit : Deposit) (walletKeyPair : Signer) :
  signDepositInput t inputIndex utxo deposit walletKeyPair = Done t' ->
  depositSignable walletKeyPair (utxo, deposit) /\ sameShape t t'.
Proof.
  unfold signDepositInput. intros H.
  apply andThen_Done_inv in H as (po & Hpo & H).
  destruct (isP2SHScript (script po)) eqn:Hsh.
  - unfold signP2SHDepositInput in H.
    apply andThen_Done_inv in H as (ds & Hds & H).
    apply prepareDepositScript_Done_inv in Hds as (Hn & Hh & Hc & ->).
    apply setInputScript_Done_inv in H as [_ Hshape].
    split; [|assumption]. exists po. simpl. auto.
  - destruct (isP2WSHScript (script po)) eqn:Hwsh; [|discriminate].
    unfold signP2WSHDepositInput in H.
    apply andThen_Done_inv in H as (ds & Hds & H).
    apply prepareDepositScript_Done_inv in Hds as (Hn & Hh & Hc & ->).
    apply setInputWitness_Done_inv in H as [_ Hshape].
    split; [|assumption]. exists po. simpl. auto.
Qed.

Lemma signDepositInputs_Done_inv (pairs : list (Utxo * Deposit)) (t t' : Transaction)
    (hasMainUtxo : bool) (depositIndex : nat) (walletKeyPair : Signer) :
  signDepositInputs t hasMainUtxo depositIndex pairs walletKeyPair = Done t' ->
  List.Forall (depositSignable walletKeyPair) pairs /\ sameShape t t'.
Proof.
  revert t depositIndex. induction pairs as [|[utxo deposit] pairs IH];
    intros t depositIndex H; simpl in H.
  - injection H as <-. split; [constructor | apply sameShape_refl].
  - apply andThen_Done_inv in H as (t1 & H1 & H).
    apply signDepositInput_Done_inv in H1 as [Hp Hshape1].
    destruct (IH _ _ H) as [Hall Hshape].
    split; [constructor; assumption | eapply sameShape_trans; eassumption].
Qed.

(** X12.  Whenever the assembler returns a transaction, the checks of
    the code were passed and the transaction has the shape of a sweep: there
    is at least one deposit UTXO and as many deposits; the inputs spend the
    main UTXO first, when there is one, and the deposit UTXOs in the order
    given; the single output pays the wallet's address the sum of the
    input values less the fee; the main UTXO belongs to the wallet; and
    every deposit UTXO is a P2SH or P2WSH output whose value is the amount
    of its deposit, the wallet key being compressed and hashing to the
    deposit's wallet public key hash. *)
Theorem assembled_sweep_is_checked (bitcoinNetwork : BitcoinNetwork) (fee : Z)
    (walletPrivateKey : string) (witness_ : bool) (utxos : list Utxo)
    (deposits : list Deposit) (mainUtxo : option Utxo) (assembled : AssembledSweep) :
  assembleDepositSweepTransaction bitcoinNetwork fee walletPrivateKey witness_ utxos
                                  deposits mainUtxo = Done assembled ->
  exists network walletKeyPair transaction outputNumber,
    utxos <> [] /\
    length utxos = length deposits /\
    toBitcoinJsLibNetwork bitcoinNetwork = Done network /\
    fromWIF walletPrivateKey network = Done walletKeyPair /\
    assembleTransaction bitcoinNetwork fee walletPrivateKey witness_ utxos deposits mainUtxo
      = Done transaction /\
    List.Forall (fun u => isHash256bit (rev (transactionHash u)) && isUInt32 (outputIndex u)
                          = true) (sweepInputs utxos mainUtxo) /\
    List.map inputOutpoint (ins transaction)
      = List.map utxoOutpoint (sweepInputs utxos mainUtxo) /\
    toNumber (totalValue (sweepInputs utxos mainUtxo) - fee) = Done outputNumber /\
    isSatoshi outputNumber = true /\
    outs transaction
      = [ {| script := createOutputScriptFromAddress
                         (publicKeyToAddress (publicKey walletKeyPair) bitcoinNetwork
                                             witness_);
             outValue := outputNumber |} ] /\
    assembled = {| sweepTransactionHash := getId transaction;
                   newMainUtxoHash := getId transaction;
                   newMainUtxoOutputIndex := 0;
                   newMainUtxoValue := outputNumber;
                   rawTransaction := toHex transaction |} /\
    (forall m, mainUtxo = Some m -> mainUtxoSignable walletKeyPair bitcoinNetwork m) /\
    List.Forall (depositSignable walletKeyPair) (combine utxos deposits).
Proof.
  unfold assembleDepositSweepTransaction. intros H.
  apply andThen_Done_inv in H as (transaction & Hasm & H).
  pose proof Hasm as Hasm0.
  unfold assembleTransaction in Hasm.
  destruct (Nat.ltb_spec (length utxos) 1) as [|Hsome]; [discriminate|].
  destruct (Nat.eqb_spec (length utxos) (length deposits)) as [Hlen|]; [|discriminate].
  simpl negb in Hasm. cbv iota in Hasm.
  apply andThen_Done_inv in Hasm as (network & Hnet & Hasm).
  apply andThen_Done_inv in Hasm as (walletKeyPair & Hkey & Hasm).
  apply andThen_Done_inv in Hasm as ([tA vA] & HA & Hasm).
  apply andThen_Done_inv in Hasm as ([t0 v0] & H0 & Hasm).
  apply andThen_Done_inv in Hasm as (outputNumber & Hnum & Hasm).
  apply andThen_Done_inv in Hasm as (t1 & Hout & Hasm).
  apply andThen_Done_inv in Hasm as (t2 & Hmain & Hasm).
  apply signDepositInputs_Done_inv in Hasm as [Hdeps Hshape3].
  apply addDepositInputs_Done_inv in H0 as (-> & Hadd & Hins0 & Houts0).
  unfold addOutput in Hout.
  destruct (isSatoshi outputNumber) eqn:Hsat; [|discriminate].
  injection Hout as <-.
  (* the main UTXO, added and signed *)
  assert (HmainFacts :
    vA = totalValue (option_list mainUtxo) /\
    List.Forall (fun u => isHash256bit (rev (transactionHash u)) && isUInt32 (outputIndex u)
                          = true) (option_list mainUtxo) /\
    List.map inputOutpoint (ins tA) = List.map utxoOutpoint (option_list mainUtxo) /\
    outs tA = []).
  { destruct mainUtxo as [m|]; simpl in HA |- *.
    - apply andThen_Done_inv in HA as (t & Hadd1 & HA). injection HA as <- <-.
      apply addInput_Done_inv in Hadd1 as (Hok & Hins & Houts).
      repeat split.
      + unfold totalValue. simpl. lia.
      + constructor; [assumption | constructor].
      + rewrite Hins. reflexivity.
      + assumption.
    - injection HA as <- <-. repeat split. constructor. }
  destruct HmainFacts as (-> & HaddM & HinsA & HoutsA).
  assert (Hsigned : sameShape
                      {| txVersion := txVersion t0; txLocktime := txLocktime t0;
                         ins := ins t0;
                         outs := outs t0 ++
                           [ {| script := createOutputScriptFromAddress
                                            (publicKeyToAddress (publicKey walletKeyPair)
                                                                bitcoinNetwork witness_);
                                outValue := outputNumber |} ] |} t2 /\
                    forall m, mainUtxo = Some m ->
                              mainUtxoSignable walletKeyPair bitcoinNetwork m).
  { destruct mainUtxo as [m|].
    - apply andThen_Done_inv in Hmain as (po & Hpo & Hmain).
      apply signMainUtxoInput_Done_inv in Hmain as (Howns & Hkind & Hshape).
      split; [assumption|]. intros m' [= <-]. exists po. auto.
    - injection Hmain as <-. split; [apply sameShape_refl | discriminate]. }
  destruct Hsigned as [Hshape2 HmainOk].
  assert (Hshape : sameShape _ transaction) by (eapply sameShape_trans; eassumption).
  destruct Hshape as (Hins & Houts & _). simpl in Hins, Houts.
  assert (Htotal : totalValue (option_list mainUtxo) + totalValue utxos
                   = totalValue (sweepInputs utxos mainUtxo)).
  { unfold sweepInputs, totalValue. rewrite map_app.
    induction (List.map value (option_list mainUtxo)) as [|a l IHl]; simpl; [lia|].
    rewrite <- IHl. lia. }
  rewrite Htotal in Hnum.
  rewrite Houts, Houts0, HoutsA in H. simpl in H. injection H as <-.
  exists network, walletKeyPair, transaction, outputNumber.
  repeat split; try assumption.
  - intros ->. simpl in Hsome. lia.
  - unfold sweepInputs. apply Forall_app. split; assumption.
  - rewrite Hins, Hins0. unfold sweepInputs. rewrite !map_app, HinsA. f_equal.
    rewrite List.map_map. reflexivity.
  - rewrite Houts, Houts0, HoutsA. reflexivity.
Qed.

End Assembler.
End DepositSweepSound.
Module DepositSweepSignatures.
Import DepositSweep DepositSweepFacts DepositSweepSound DepositSweepSigned.

Section Assembler.
Context {J : BitcoinJs}.







End Assembler.
End DepositSweepSignatures.
Module DepositSweepSoundWitness.
Import DepositSweep DepositSweepSound DepositSweepSigned DepositSweepSignatures WalletScenario.

Section Witness.
#[local] Existing Instance modelJs.

(** The second sweep of the wallet: its main UTXO and two deposits. *)
Lemma assembled_sweep_is_checked_witness :
  exists assembled,
    assembleDepositSweepTransaction Testnet 1600 walletPrivateKey true
                                    [utxo3; utxo4] [deposit3; deposit4] (Some mainUtxo)
      = Done assembled /\
    newMainUtxoValue assembled = 60800 /\
    exists network walletKeyPair transaction outputNumber,
      [utxo3; utxo4] <> [] /\
      length [utxo3; utxo4] = length [deposit3; deposit4] /\
      toBitcoinJsLibNetwork Testnet = Done network /\
      fromWIF walletPrivateKey network = Done walletKeyPair /\
      assembleTransaction Testnet 1600 walletPrivateKey true [utxo3; utxo4]
                          [deposit3; deposit4] (Some mainUtxo) = Done transaction /\
      List.Forall (fun u => isHash256bit (rev (transactionHash u)) && isUInt32 (outputIndex u)
                            = true) (sweepInputs [utxo3; utxo4] (Some mainUtxo)) /\
      List.map inputOutpoint (ins transaction)
        = List.map utxoOutpoint (sweepInputs [utxo3; utxo4] (Some mainUtxo)) /\
      toNumber (totalValue (sweepInputs [utxo3; utxo4] (Some mainUtxo)) - 1600)
        = Done outputNumber /\
      isSatoshi outputNumber = true /\
      outs transaction
        = [ {| script := createOutputScriptFromAddress
                           (publicKeyToAddress (publicKey walletKeyPair) Testnet true);
               outValue := outputNumber |} ] /\
      assembled = {| sweepTransactionHash := getId transaction;
                     newMainUtxoHash := getId transaction;
                     newMainUtxoOutputIndex := 0;
                     newMainUtxoValue := outputNumber;
                     rawTransaction := toHex transaction |} /\
      (forall m, Some mainUtxo = Some m -> mainUtxoSignable walletKeyPair Testnet m) /\
      List.Forall (depositSignable walletKeyPair) (combine [utxo3; utxo4] [deposit3; deposit4]).
Proof.
  eexists. split; [vm_compute; reflexivity|]. split; [reflexivity|].
  apply (assembled_sweep_is_checked Testnet 1600 walletPrivateKey true [utxo3; utxo4]
           [deposit3; deposit4] (Some mainUtxo)).
  vm_compute. reflexivity.
Defined.


End Witness.
End DepositSweepSoundWitness.
(** ** The assembler: what it refuses *)

Module DepositSweepRejects.
Import DepositSweep DepositSweepFacts DepositSweepSound DepositSweepFaults.

Section Assembler.
Context {J : BitcoinJs}.

(** The transaction when the signing begins: one unsigned input for each
    UTXO, the main UTXO first, and the single output. *)
Lemma assembleTransaction_built (bitcoinNetwork : BitcoinNetwork) (fee : Z)
    (walletPrivateKey : string) (witness_ : bool) (utxos : list Utxo)
    (deposits : list Deposit) (mainUtxo : option Utxo)
    (network : Network) (walletKeyPair : Signer) (outputNumber : Z) :
  utxos <> [] ->
  length utxos = length deposits ->
  toBitcoinJsLibNetwork bitcoinNetwork = Done network ->
  fromWIF walletPrivateKey network = Done walletKeyPair ->
  List.Forall (fun u => isHash256bit (rev (transactionHash u)) && isUInt32 (outputIndex u)
                        = true) (sweepInputs utxos mainUtxo) ->
  toNumber (totalValue (sweepInputs utxos mainUtxo) - fee) = Done outputNumber ->
  isSatoshi outputNumber = true ->
  exists t1,
    length (ins t1) = length (sweepInputs utxos mainUtxo) /\
    assembleTransaction bitcoinNetwork fee walletPrivateKey witness_ utxos deposits mainUtxo
      = do* t2 :=
          match mainUtxo with
          | Some m =>
              do* previousOutput := previousOutputOf (transactionHex m) (outputIndex m) in
              signMainUtxoInput t1 0 previousOutput walletKeyPair bitcoinNetwork
          | None => Done t1
          end in
        signDepositInputs t2 (bool_decide (is_Some mainUtxo)) 0 (combine utxos deposits)
                          walletKeyPair.
Proof.
  intros Hne Hlen Hnet Hkey Hadd Hnumber Hsat.
  assert (Hbuilt : exists tA vA t0,
    match mainUtxo with
    | Some m =>
        do* t := addInput newTransaction (rev (transactionHash m)) (outputIndex m) in
        Done (t, 0 + value m)
    | None => Done (newTransaction, 0)
    end = Done (tA, vA) /\
    addDepositInputs utxos tA vA = Done (t0, totalValue (sweepInputs utxos mainUtxo)) /\
    List.map inputOutpoint (ins t0) = List.map utxoOutpoint (sweepInputs utxos mainUtxo)).
  { unfold sweepInputs in *. destruct mainUtxo as [m|]; simpl in Hadd |- *.
    - inversion Hadd as [|? ? Hm Hrest]; subst. unfold addInput. rewrite Hm. simpl.
      match goal with |- context [Done (?t1, ?v)] =>
        destruct (addDepositInputs_Done utxos t1 v Hrest) as (t0 & Ht0 & Hins & Houts);
        exists t1, v, t0 end.
      rewrite Ht0. simpl in Hins. unfold totalValue. simpl.
      split; [reflexivity|]. split; [f_equal; f_equal; unfold totalValue; lia | auto].
    - destruct (addDepositInputs_Done utxos newTransaction 0 Hadd) as (t0 & Ht0 & Hins & Houts).
      exists newTransaction, 0, t0. rewrite Ht0. simpl in Hins. auto. }
  destruct Hbuilt as (tA & vA & t0 & HtA & Ht0 & Hins0).
  eexists. split; cycle 1.
  - unfold assembleTransaction.
    assert (Hsome : (length utxos <? 1)%nat = false)
      by (destruct utxos; [contradiction | reflexivity]).
    rewrite Hsome. rewrite <- Hlen, Nat.eqb_refl. simpl negb. cbv iota.
    rewrite Hnet. simpl andThen at 1. rewrite Hkey. simpl andThen at 1.
    rewrite HtA. simpl andThen at 1. cbv beta iota.
    rewrite Ht0. simpl andThen at 1. cbv beta iota.
    rewrite Hnumber. simpl andThen at 1.
    unfold addOutput. rewrite Hsat. simpl andThen at 1. reflexivity.
  - simpl. rewrite <- (length_map inputOutpoint), Hins0, length_map. reflexivity.
Qed.

Lemma signDepositInput_fault (t : Transaction) (inputIndex : nat) (walletKeyPair : Signer)
    (p : Utxo * Deposit) (message : string) :
  DepositFault walletKeyPair p message ->
  signDepositInput t inputIndex (fst p) (snd p) walletKeyPair = Throw message.
Proof.
  intros Hfault. unfold signDepositInput.
  assert (Hprep : forall po n,
            toNumber (amount (snd p)) = Done n ->
            prepareDepositScript (snd p) (outValue po) walletKeyPair
            = (if negb (outValue po =? n) then
                 Throw "Mismatch between amount in deposit and deposit tx"
               else if negb (String.eqb (computeHash160 (publicKeyHex walletKeyPair))
                                        (walletPublicKeyHash (snd p))) then
                 Throw "Wallet public key does not correspond to wallet private key"
               else if negb (isCompressedPublicKey (publicKeyHex walletKeyPair)) then
                 Throw "Wallet public key must be compressed"
               else Done (assembleDepositScript (snd p)))).
  { intros po n Hn. unfold prepareDepositScript. rewrite Hn. reflexivity. }
  destruct Hfault as [po Hpo Hsh Hwsh | po n Hpo Hkind Hn Hne | po Hpo Hkind Hn Hh
                      | po Hpo Hkind Hn Hh Hc]; rewrite Hpo; simpl.
  - rewrite Hsh, Hwsh. reflexivity.
  - apply Z.eqb_neq in Hne.
    destruct (isP2SHScript (script po)); simpl in Hkind.
    + unfold signP2SHDepositInput. rewrite (Hprep po n Hn), Hne. reflexivity.
    + rewrite Hkind. unfold signP2WSHDepositInput. rewrite (Hprep po n Hn), Hne. reflexivity.
  - apply String.eqb_neq in Hh.
    destruct (isP2SHScript (script po)); simpl in Hkind.
    + unfold signP2SHDepositInput. rewrite (Hprep po _ Hn), Z.eqb_refl, Hh. reflexivity.
    + rewrite Hkind. unfold signP2WSHDepositInput.
      rewrite (Hprep po _ Hn), Z.eqb_refl, Hh. reflexivity.
  - apply String.eqb_eq in Hh.
    destruct (isP2SHScript (script po)); simpl in Hkind.
    + unfold signP2SHDepositInput. rewrite (Hprep po _ Hn), Z.eqb_refl, Hh, Hc. reflexivity.
    + rewrite Hkind. unfold signP2WSHDepositInput.
      rewrite (Hprep po _ Hn), Z.eqb_refl, Hh, Hc. reflexivity.
Qed.

(** The signing loop stops at the first deposit that fails a check. *)
Lemma signDepositInputs_fault (before : list (Utxo * Deposit)) (p : Utxo * Deposit)
    (after : list (Utxo * Deposit)) (t : Transaction) (hasMainUtxo : bool)
    (depositIndex : nat) (walletKeyPair : Signer) (message : string) :
  ((if hasMainUtxo then 1 else 0) + depositIndex + length before <= length (ins t))%nat ->
  List.Forall (depositSignable walletKeyPair) before ->
  DepositFault walletKeyPair p message ->
  signDepositInputs t hasMainUtxo depositIndex (before ++ p :: after) walletKeyPair
    = Throw message.
Proof.
  revert t depositIndex. induction before as [|[u d] before IH];
    intros t depositIndex Hlen Hall Hfault; simpl.
  - destruct p as [u d]. rewrite (signDepositInput_fault t _ walletKeyPair (u, d) message Hfault).
    reflexivity.
  - inversion Hall as [|? ? Hp Hrest]; subst. simpl length in Hlen.
    destruct (signDepositInput_Done t (if hasMainUtxo then S depositIndex else depositIndex)
                walletKeyPair (u, d)) as (t1 & Ht1 & Hshape1); [|assumption|].
    { destruct hasMainUtxo; lia. }
    simpl in Ht1. rewrite Ht1. simpl. apply IH; [|assumption..].
    destruct Hshape1 as (_ & _ & ->). lia.
Qed.

(** X14.  The assembler refuses an empty list of deposit UTXOs, and a list
    of deposits of another length, before it looks at anything else. *)
Theorem assembler_rejects_counts (bitcoinNetwork : BitcoinNetwork) (fee : Z)
    (walletPrivateKey : string) (witness_ : bool) (utxos : list Utxo)
    (deposits : list Deposit) (mainUtxo : option Utxo) :
  (utxos = [] ->
   assembleDepositSweepTransaction bitcoinNetwork fee walletPrivateKey witness_ utxos
                                   deposits mainUtxo
     = Throw "There must be at least one deposit UTXO to sweep") /\
  (utxos <> [] -> length utxos <> length deposits ->
   assembleDepositSweepTransaction bitcoinNetwork fee walletPrivateKey witness_ utxos
                                   deposits mainUtxo
     = Throw "Number of UTXOs must equal the number of deposit elements").
Proof.
  unfold assembleDepositSweepTransaction, assembleTransaction. split.
  - intros ->. reflexivity.
  - intros Hne Hlen.
    assert (Hsome : (length utxos <? 1)%nat = false)
      by (destruct utxos; [contradiction | reflexivity]).
    rewrite Hsome. apply Nat.eqb_neq in Hlen. rewrite Hlen. reflexivity.
Qed.

(** X15.  With the inputs and the output in place, the assembler reports
    the first input that fails a check of the signing functions and returns
    no transaction: the error of the main UTXO when it does not belong to
    the wallet or is of no known type; otherwise, the main UTXO and the
    deposits before it passing their checks, the error of the first deposit
    whose UTXO is neither P2SH nor P2WSH, whose amount is not the value of
    its UTXO, or whose wallet public key hash is not that of the key. *)
Theorem assembler_reports_first_fault (bitcoinNetwork : BitcoinNetwork) (fee : Z)
    (walletPrivateKey : string) (witness_ : bool) (utxos : list Utxo)
    (deposits : list Deposit) (mainUtxo : option Utxo)
    (network : Network) (walletKeyPair : Signer) (outputNumber : Z) :
  utxos <> [] ->
  length utxos = length deposits ->
  toBitcoinJsLibNetwork bitcoinNetwork = Done network ->
  fromWIF walletPrivateKey network = Done walletKeyPair ->
  List.Forall (fun u => isHash256bit (rev (transactionHash u)) && isUInt32 (outputIndex u)
                        = true) (sweepInputs utxos mainUtxo) ->
  toNumber (totalValue (sweepInputs utxos mainUtxo) - fee) = Done outputNumber ->
  isSatoshi outputNumber = true ->
  (forall m message,
      mainUtxo = Some m ->
      MainUtxoFault walletKeyPair bitcoinNetwork m message ->
      assembleDepositSweepTransaction bitcoinNetwork fee walletPrivateKey witness_ utxos
                                      deposits mainUtxo = Throw message) /\
  (forall before p after message,
      (forall m, mainUtxo = Some m -> mainUtxoSignable walletKeyPair bitcoinNetwork m) ->
      combine utxos deposits = before ++ p :: after ->
      List.Forall (depositSignable walletKeyPair) before ->
      DepositFault walletKeyPair p message ->
      assembleDepositSweepTransaction bitcoinNetwork fee walletPrivateKey witness_ utxos
                                      deposits mainUtxo = Throw message).
Proof.
  intros Hne Hlen Hnet Hkey Hadd Hnumber Hsat.
  destruct (assembleTransaction_built bitcoinNetwork fee walletPrivateKey witness_ utxos
              deposits mainUtxo network walletKeyPair outputNumber
              Hne Hlen Hnet Hkey Hadd Hnumber Hsat) as (t1 & Hlen1 & Hasm).
  unfold assembleDepositSweepTransaction. rewrite Hasm. clear Hasm. split.
  - intros m message -> Hfault.
    destruct Hfault as [po Hpo Howns | po Hpo Howns Hp Hw | po Hpo Howns Hp Hw Hdec];
      rewrite Hpo; simpl; unfold signMainUtxoInput; rewrite Howns; simpl.
    + reflexivity.
    + rewrite Hp, Hw. reflexivity.
    + rewrite Hp, Hw, Hdec. reflexivity.
  - intros before p after message Hmain Hsplit Hbefore Hfault.
    assert (Hsigned1 : exists t2,
      match mainUtxo with
      | Some m =>
          do* previousOutput := previousOutputOf (transactionHex m) (outputIndex m) in
          signMainUtxoInput t1 0 previousOutput walletKeyPair bitcoinNetwork
      | None => Done t1
      end = Done t2 /\ sameShape t1 t2).
    { destruct mainUtxo as [m|]; [|exists t1; split; [reflexivity | apply sameShape_refl]].
      destruct (Hmain m eq_refl) as (po & Hpo & Howns & Hkind). rewrite Hpo. simpl.
      apply signMainUtxoInput_Done; try assumption.
      rewrite Hlen1. unfold sweepInputs. simpl. lia. }
    destruct Hsigned1 as (t2 & Ht2 & Hshape2). rewrite Ht2. simpl andThen at 2.
    rewrite Hsplit.
    rewrite (signDepositInputs_fault before p after t2 _ 0 walletKeyPair message);
      [reflexivity | | assumption..].
    destruct Hshape2 as (_ & _ & ->). rewrite Hlen1.
    apply (f_equal (@length _)) in Hsplit.
    rewrite length_combine, <- Hlen, Nat.min_id, length_app in Hsplit. simpl in Hsplit.
    unfold sweepInputs. rewrite length_app.
    destruct mainUtxo as [m|]; simpl; lia.
Qed.

End Assembler.
End DepositSweepRejects.
Module DepositSweepRejectsWitness.
Import DepositSweep DepositSweepFaults DepositSweepRejects WalletScenario.

Section Witness.
#[local] Existing Instance modelJs.

(** A deposit of 12000 satoshi given for the UTXO of 25000; and, as main
    UTXO, a deposit UTXO, which pays a script hash and not the wallet. *)
Lemma assembler_reports_first_fault_witness :
  assembleDepositSweepTransaction Testnet 1600 walletPrivateKey true [utxo1] [deposit2] None
    = Throw "Mismatch between amount in deposit and deposit tx" /\
  assembleDepositSweepTransaction Testnet 1600 walletPrivateKey true [utxo1] [deposit1]
                                  (Some utxo2)
    = Throw "UTXO does not belong to the wallet".
Proof.
  split.
  - refine (proj2 (assembler_reports_first_fault Testnet 1600 walletPrivateKey true [utxo1]
                     [deposit2] None Testnet walletPrivateKey 23400 _ _ _ _ _ _ _)
                  [] (utxo1, deposit2) [] _ _ _ _ _).
    + discriminate.
    + reflexivity.
    + reflexivity.
    + reflexivity.
    + repeat constructor; vm_compute; reflexivity.
    + vm_compute. reflexivity.
    + vm_compute. reflexivity.
    + intros m Hm. discriminate Hm.
    + reflexivity.
    + constructor.
    + eapply (DepositAmountMismatch _ _ _ 12000).
      * vm_compute. reflexivity.
      * vm_compute. reflexivity.
      * vm_compute. reflexivity.
      * vm_compute. discriminate.
  - refine (proj1 (assembler_reports_first_fault Testnet 1600 walletPrivateKey true [utxo1]
                     [deposit1] (Some utxo2) Testnet walletPrivateKey 35400 _ _ _ _ _ _ _)
                  utxo2 _ eq_refl _).
    + discriminate.
    + reflexivity.
    + reflexivity.
    + reflexivity.
    + repeat constructor; vm_compute; reflexivity.
    + vm_compute. reflexivity.
    + vm_compute. reflexivity.
    + eapply MainNotOwned.
      * vm_compute. reflexivity.
      * vm_compute. reflexivity.
Defined.

End Witness.
End DepositSweepRejectsWitness.
(** ** Submitting a sweep *)

Module DepositSweepSubmitFacts.
Import DepositSweep DepositSweepSubmit.

Section Submit.
Context {J : BitcoinJs} {W : Type} {C : BitcoinClient W}.

Lemma await_Done {A B : Type} (m : Async W A) (k : A -> Async W B) (w w' : W) (a : A) :
  m w = (Done a, w') -> await m k w = k a w'.
Proof. unfold await. intros ->. reflexivity. Qed.

Lemma await_Throw {A B : Type} (m : Async W A) (k : A -> Async W B) (w w' : W)
    (message : string) :
  m w = (Throw message, w') -> await m k w = (Throw message, w').
Proof. unfold await. intros ->. reflexivity. Qed.

(** The UTXOs come back from the fetch as they were given, each with the
    raw transaction the client returned for it. *)
Lemma fetchRawTransactions_Done (utxos : list Utxo) (w w' : W) (fetched : list Utxo) :
  fetchRawTransactions utxos w = (Done fetched, w') ->
  List.Forall2 (fun u u' => exists raw, u' = withRaw u raw) utxos fetched.
Proof.
  revert w w' fetched. induction utxos as [|u utxos IH]; intros w w' fetched H; simpl in H.
  - injection H as <- _. constructor.
  - unfold await in H.
    destruct (getRawTransaction (transactionHash u) w) as [[raw|m] w1];
      simpl in H; [|discriminate].
    destruct (fetchRawTransactions utxos w1) as [[l|m] w2] eqn:Hrest;
      simpl in H; [|discriminate].
    injection H as <- _. constructor; [eauto | eapply IH; eassumption].
Qed.

(** X16.  [submitDepositSweepTransaction] broadcasts at most once, and only
    the transaction it assembled.  When a fetch of a raw transaction or of
    the network rejects, or when the assembly throws, the error is passed
    on and the client is left as the reads left it, [broadcast] not being
    called.  When the assembly succeeds the raw transaction assembled, and
    nothing else, is handed to [broadcast], and the hash and the new main
    UTXO returned are those of that transaction.  The UTXOs are assembled as
    given, each completed with the raw transaction the client returned. *)
Theorem sweep_broadcast_follows_assembly (fee : Z) (walletPrivateKey : string)
    (witness_ : bool) (utxos : list Utxo) (deposits : list Deposit)
    (mainUtxo : option Utxo) (w : W) :
  (forall message w1,
      fetchSweepInputs utxos mainUtxo w = (Throw message, w1) ->
      submitDepositSweepTransaction fee walletPrivateKey witness_ utxos deposits mainUtxo w
        = (Throw message, w1)) /\
  (forall utxosWithRaw mainUtxoWithRaw bitcoinNetwork w1,
      fetchSweepInputs utxos mainUtxo w
        = (Done (utxosWithRaw, mainUtxoWithRaw, bitcoinNetwork), w1) ->
      List.Forall2 (fun u u' => exists raw, u' = withRaw u raw) utxos utxosWithRaw /\
      option_Forall2 (fun u u' => exists raw, u' = withRaw u raw) mainUtxo mainUtxoWithRaw /\
      (forall message,
          assembleDepositSweepTransaction bitcoinNetwork fee walletPrivateKey witness_
                                          utxosWithRaw deposits mainUtxoWithRaw
            = Throw message ->
          submitDepositSweepTransaction fee walletPrivateKey witness_ utxos deposits
                                        mainUtxo w = (Throw message, w1)) /\
      (forall assembled,
          assembleDepositSweepTransaction bitcoinNetwork fee walletPrivateKey witness_
                                          utxosWithRaw deposits mainUtxoWithRaw
            = Done assembled ->
          submitDepositSweepTransaction fee walletPrivateKey witness_ utxos deposits
                                        mainUtxo w
            = match broadcast (rawTransaction assembled) w1 with
              | (Done _, w2) =>
                  (Done {| submittedTransactionHash := sweepTransactionHash assembled;
                           submittedMainUtxoHash := newMainUtxoHash assembled;
                           submittedMainUtxoOutputIndex := newMainUtxoOutputIndex assembled;
                           submittedMainUtxoValue := newMainUtxoValue assembled |}, w2)
              | (Throw message, w2) => (Throw message, w2)
              end)).
Proof.
  unfold fetchSweepInputs, submitDepositSweepTransaction, await.
  destruct (fetchRawTransactions utxos w) as [[l|m] wa] eqn:Hutxos.
  2:{ split; [intros message w1 [= <- <-]; reflexivity | discriminate]. }
  assert (Hmain : forall r wb, fetchMainUtxo mainUtxo wa = (Done r, wb) ->
                    option_Forall2 (fun u u' => exists raw, u' = withRaw u raw) mainUtxo r).
  { intros r wb H. unfold fetchMainUtxo in H. destruct mainUtxo as [m|].
    - unfold await in H.
      destruct (getRawTransaction (transactionHash m) wa) as [[raw|msg] wc];
        simpl in H; [|discriminate].
      injection H as <- _. constructor. eauto.
    - injection H as <- _. constructor. }
  destruct (fetchMainUtxo mainUtxo wa) as [[r|m] wb] eqn:Hm.
  2:{ split; [intros message w1 [= <- <-]; reflexivity | discriminate]. }
  destruct (getNetwork wb) as [[net|m] wc] eqn:Hnet.
  2:{ split; [intros message w1 [= <- <-]; reflexivity | discriminate]. }
  unfold resolve, sync. split; [discriminate|].
  intros utxosWithRaw mainUtxoWithRaw bitcoinNetwork w1 [= <- <- <- <-].
  split; [eapply fetchRawTransactions_Done; eassumption|].
  split; [eapply Hmain; reflexivity|].
  split.
  - intros message ->. reflexivity.
  - intros assembled ->.
    destruct (broadcast (rawTransaction assembled) wc) as [[u|m] wd]; reflexivity.
Qed.

End Submit.

Section MockClient.
Import WalletScenario SubmitScenario.
#[local] Existing Instance modelJs.
#[local] Existing Instance mockClient.

(** The first sweep of the wallet, submitted to a client that has broadcast
    nothing: one transaction is broadcast, the one returned; with the
    deposits in the wrong order nothing is. *)
Example submit_first_sweep :
  (let '(result, after) :=
     submitDepositSweepTransaction 1600 walletPrivateKey true
                                   [plain utxo1; plain utxo2] [deposit1; deposit2] None client in
   (match result with
    | Done r => Some (submittedMainUtxoValue r, submittedMainUtxoOutputIndex r)
    | Throw _ => None
    end, length (broadcastLog after))) = (Some (35400, 0), 1%nat) /\
  (let '(result, after) :=
     submitDepositSweepTransaction 1600 walletPrivateKey true
                                   [plain utxo1; plain utxo2] [deposit2; deposit1] None client in
   (result, broadcastLog after))
  = (Throw "Mismatch between amount in deposit and deposit tx", []).
Proof. by_computation. Qed.

End MockClient.
End DepositSweepSubmitFacts.
(** ** The redemption transaction *)

Module RedemptionFacts.
Import DepositSweep Redemption.

Section Create.
Context {B : Bcoin}.

Lemma roundToDouble_exact (z : Z) : Z.abs z <= 2 ^ 53 -> roundToDouble z = z.
Proof.
  intros H. unfold roundToDouble. apply Z.leb_le in H. rewrite H. reflexivity.
Qed.

Lemma totalOf_cons (f : RedemptionRequest -> Z) (r : RedemptionRequest)
    (rs : list RedemptionRequest) : totalOf f (r :: rs) = f r + totalOf f rs.
Proof. reflexivity. Qed.

Lemma totalOf_nonneg (f : RedemptionRequest -> Z) (rs : list RedemptionRequest) :
  List.Forall (fun r => 0 <= f r) rs -> 0 <= totalOf f rs.
Proof.
  induction 1 as [|r rs Hr _ IH]; [unfold totalOf; simpl; lia|].
  rewrite totalOf_cons. lia.
Qed.

Lemma requestOutput_nonneg (requests : list RedemptionRequest) (outputs : list MtxOutput) :
  List.Forall2 requestOutput requests outputs ->
  List.Forall (fun r => 0 <= requestOutputValue r) requests /\
  List.Forall (fun r => 0 <= requestFeeShare r) requests.
Proof.
  induction 1 as [|r o rs os (a & _ & _ & _ & _ & _ & _ & _ & Hv & Hf) _ [IH1 IH2]];
    split; constructor; assumption.
Qed.

(** A round of the loop, in terms of the value of the request's output. *)
Lemma processRequest_eq (st : RequestLoop) (r : RedemptionRequest) :
  processRequest st r
  = do* outputNumber := bigToNumber (requestOutputValue r) in
    do* feeNumber := bigToNumber (requestFeeShare r) in
    do* address_ := addressFromString (address r) in
    if isStandardAddress address_ then
      do* script_ := scriptFromAddress address_ in
      do* outputNumber' := bigToNumber (requestOutputValue r) in
      do* transaction := mtxAddOutput (loopTransaction st) script_ outputNumber' in
      Done {| loopTransaction := transaction;
              txFee := numberAdd (txFee st) feeNumber;
              totalOutputValue := numberAdd (totalOutputValue st) outputNumber |}
    else Throw "Redemption address must be P2PKH, P2WPKH, P2SH or P2WSH".
Proof. reflexivity. Qed.

(** The loop over requests whose sums stay within the integers that
    numbers hold exactly. *)
Lemma processRequests_exact (requests : list RedemptionRequest) (outputs : list MtxOutput)
    (st : RequestLoop) :
  List.Forall2 requestOutput requests outputs ->
  0 <= txFee st -> 0 <= totalOutputValue st ->
  txFee st + totalOf requestFeeShare requests <= 2 ^ 53 ->
  totalOutputValue st + totalOf requestOutputValue requests <= 2 ^ 53 ->
  processRequests st requests
    = Done {| loopTransaction :=
                {| mtxInputs := mtxInputs (loopTransaction st);
                   mtxOutputs := mtxOutputs (loopTransaction st) ++ outputs |};
              txFee := txFee st + totalOf requestFeeShare requests;
              totalOutputValue := totalOutputValue st
                                  + totalOf requestOutputValue requests |}.
Proof.
  intros Hall. revert st.
  induction Hall as [|r o rs os Hr Hrest IH]; intros st Hfee Htotal Hfees Htotals.
  - simpl. unfold totalOf. simpl. rewrite !Z.add_0_r, app_nil_r.
    destruct st as [[i o] f t]. reflexivity.
  - destruct (requestOutput_nonneg _ _ Hrest) as [Hvs Hfs].
    pose proof (totalOf_nonneg _ _ Hvs) as Hv0. pose proof (totalOf_nonneg _ _ Hfs) as Hf0.
    destruct Hr as (a & Hn & Hfn & Ha & Hstd & Hs & Hok & Hval & Hv & Hf).
    rewrite !totalOf_cons in *.
    simpl processRequests. rewrite processRequest_eq.
    rewrite Hn. simpl andThen at 1.
    rewrite Hfn. simpl andThen at 1. rewrite Ha. simpl andThen at 1.
    rewrite Hstd.
    rewrite Hs. simpl andThen at 1.
    unfold mtxAddOutput. rewrite Hok. simpl andThen at 1.
    unfold numberAdd. rewrite !roundToDouble_exact by lia.
    rewrite IH; simpl; try lia.
    rewrite <- app_assoc. simpl. destruct o as [s v]. simpl in Hval. subst v.
    f_equal. f_equal; lia.
Qed.

(** The loop over requests it accepts, whatever the sums. *)
Lemma processRequests_accepted (requests : list RedemptionRequest) (st : RequestLoop) :
  List.Forall requestAccepted requests ->
  exists st', processRequests st requests = Done st'.
Proof.
  intros Hall. revert st. induction Hall as [|r rs Hr _ IH]; intros st; simpl; [eauto|].
  destruct Hr as (n & f & a & s & Hn & Hf & Ha & Hstd & Hs & Hok).
  rewrite processRequest_eq.
  rewrite Hn. simpl andThen at 1. rewrite Hf. simpl andThen at 1.
  rewrite Ha. simpl andThen at 1. rewrite Hstd.
  rewrite Hs. simpl andThen at 1.
  unfold mtxAddOutput. rewrite Hok. simpl andThen at 1. apply IH.
Qed.

Lemma processRequests_app (before after : list RedemptionRequest) (st : RequestLoop) :
  processRequests st (before ++ after)
    = do* st' := processRequests st before in processRequests st' after.
Proof.
  revert st. induction before as [|r before IH]; intros st; simpl; [reflexivity|].
  destruct (processRequest st r) as [st1|m]; simpl; [apply IH | reflexivity].
Qed.

(** X17.  The transaction handed to [fund].  With a key and a main UTXO
    the libraries accept, requests of standard addresses and of amounts
    that are not negative, the sums staying within the integers a number
    holds exactly: the transaction has one output for each request, in
    order, of value [amount - feeShare - treasuryFee]; the fee [fund] is to
    leave is the sum of the fee shares; and when the main UTXO is worth
    more than the outputs and the fee, one more output pays the difference
    to the wallet, so that the outputs and the fee add up to the value of
    the main UTXO.  When it is not worth more, there is no change output. *)
Theorem redemption_outputs_and_fee (walletPrivateKey : string) (mainUtxo : MainUtxo)
    (redemptionRequests : list RedemptionRequest) (witness_ : bool)
    (decoded : DecodedKey) (walletKeyRing : KeyRing) (inputCoin : Coin)
    (outputs : list MtxOutput) :
  redemptionRequests <> [] ->
  wifDecode walletPrivateKey = Done decoded ->
  newKeyRing witness_ (privateKey decoded) (compressed decoded) = Done walletKeyRing ->
  coinFromTX (mainTransactionHex mainUtxo) (mainOutputIndex mainUtxo) = Done inputCoin ->
  List.Forall2 requestOutput redemptionRequests outputs ->
  let fee := totalOf requestFeeShare redemptionRequests in
  let total := totalOf requestOutputValue redemptionRequests in
  let change := mainValue mainUtxo - total - fee in
  let finish (outs : list MtxOutput) :=
    do* '(inputs, outs') := fund noInputs outs [inputCoin] (getAddress walletKeyRing) fee in
    do* inputs' := signMtx inputs outs' walletKeyRing in
    Done (toRawHex inputs' outs') in
  total + fee <= 2 ^ 53 -> 0 <= mainValue mainUtxo <= 2 ^ 53 ->
  List.map outputValue outputs = List.map requestOutputValue redemptionRequests /\
  (change <= 0 ->
   createRedemptionTransaction walletPrivateKey mainUtxo redemptionRequests witness_
     = finish outputs) /\
  (forall walletScript,
      0 < change ->
      scriptFromString (getAddress walletKeyRing) = Done walletScript ->
      isOutputValue change = true ->
      let changeOutput := {| outputScript := walletScript; outputValue := change |} in
      createRedemptionTransaction walletPrivateKey mainUtxo redemptionRequests witness_
        = finish (outputs ++ [changeOutput]) /\
      fold_right Z.add 0 (List.map outputValue (outputs ++ [changeOutput])) + fee
        = mainValue mainUtxo).
Proof.
  intros Hne Hkey Hring Hcoin Hall fee total change finish Hsums Hmain.
  destruct (requestOutput_nonneg _ _ Hall) as [Hvs Hfs].
  pose proof (totalOf_nonneg _ _ Hvs) as Hv0. pose proof (totalOf_nonneg _ _ Hfs) as Hf0.
  fold total in Hv0. fold fee in Hf0.
  assert (Hvalues : List.map outputValue outputs
                    = List.map requestOutputValue redemptionRequests).
  { clear -Hall. induction Hall as [|r o rs os (a & _ & _ & _ & _ & _ & _ & Hv & _) _ IH];
      [reflexivity|]. simpl. rewrite Hv, IH. reflexivity. }
  assert (Hloop : processRequests {| loopTransaction := newMtx; txFee := 0;
                                     totalOutputValue := 0 |} redemptionRequests
                  = Done {| loopTransaction := {| mtxInputs := noInputs;
                                                  mtxOutputs := outputs |};
                            txFee := fee; totalOutputValue := total |}).
  { rewrite (processRequests_exact _ outputs); simpl; try assumption; try lia.
    reflexivity. }
  assert (Hchange : numberSub (numberSub (mainValue mainUtxo) total) fee = change).
  { unfold numberSub. rewrite (roundToDouble_exact (mainValue mainUtxo - total)) by lia.
    rewrite roundToDouble_exact by lia. reflexivity. }
  assert (Hcreate : forall transaction,
            prepareRedemption (getAddress walletKeyRing) mainUtxo redemptionRequests
              = Done (transaction, fee) ->
            mtxInputs transaction = noInputs ->
            createRedemptionTransaction walletPrivateKey mainUtxo redemptionRequests witness_
              = finish (mtxOutputs transaction)).
  { intros transaction Hprep Hinputs. unfold createRedemptionTransaction.
    assert (Hsome : (length redemptionRequests <? 1)%nat = false)
      by (destruct redemptionRequests; [contradiction | reflexivity]).
    rewrite Hsome, Hkey. simpl andThen at 1. rewrite Hring. simpl andThen at 1.
    rewrite Hcoin. simpl andThen at 1. rewrite Hprep. simpl andThen at 1.
    rewrite Hinputs. reflexivity. }
  split; [exact Hvalues|]. split.
  - intros Hle. apply (Hcreate {| mtxInputs := noInputs; mtxOutputs := outputs |});
      [|reflexivity].
    unfold prepareRedemption. rewrite Hloop. simpl andThen at 1. cbv zeta.
    simpl txFee. simpl totalOutputValue. rewrite Hchange.
    destruct (Z.ltb_spec 0 change); [lia | reflexivity].
  - intros walletScript Hpos Hscript Hok changeOutput. split.
    + apply (Hcreate {| mtxInputs := noInputs; mtxOutputs := outputs ++ [changeOutput] |});
        [|reflexivity].
      unfold prepareRedemption. rewrite Hloop. simpl andThen at 1. cbv zeta.
      simpl txFee. simpl totalOutputValue. rewrite Hchange.
      destruct (Z.ltb_spec 0 change); [|lia].
      rewrite Hscript. simpl andThen at 1. unfold mtxAddOutput. rewrite Hok. reflexivity.
    + rewrite map_app, Hvalues. simpl.
      assert (Hsum : forall l x, fold_right Z.add 0 (l ++ [x]) = fold_right Z.add 0 l + x).
      { induction l as [|a l IHl]; intros x; simpl; [lia | rewrite IHl; lia]. }
      rewrite Hsum. fold (totalOf requestOutputValue redemptionRequests). fold total.
      subst change. lia.
Qed.

(** X18.  What [createRedemptionTransaction] refuses: an empty list of
    requests, before anything else is looked at; and, with a key and a main
    UTXO the libraries accept, the first request whose address is not
    P2PKH, P2WPKH, P2SH or P2WSH, the requests before it being accepted.
    No transaction is funded, signed or returned then. *)
Theorem redemption_rejects (walletPrivateKey : string) (mainUtxo : MainUtxo)
    (witness_ : bool) :
  createRedemptionTransaction walletPrivateKey mainUtxo [] witness_
    = Throw "There must be at least one request to redeem" /\
  (forall decoded walletKeyRing inputCoin before request after
          outputNumber feeNumber address_,
      wifDecode walletPrivateKey = Done decoded ->
      newKeyRing witness_ (privateKey decoded) (compressed decoded) = Done walletKeyRing ->
      coinFromTX (mainTransactionHex mainUtxo) (mainOutputIndex mainUtxo) = Done inputCoin ->
      List.Forall requestAccepted before ->
      bigToNumber (requestOutputValue request) = Done outputNumber ->
      bigToNumber (requestFeeShare request) = Done feeNumber ->
      addressFromString (address request) = Done address_ ->
      isStandardAddress address_ = false ->
      createRedemptionTransaction walletPrivateKey mainUtxo (before ++ request :: after)
                                  witness_
        = Throw "Redemption address must be P2PKH, P2WPKH, P2SH or P2WSH").
Proof.
  split; [reflexivity|].
  intros decoded walletKeyRing inputCoin before request after outputNumber feeNumber address_
         Hkey Hring Hcoin Hbefore Hn Hf Ha Hstd.
  unfold createRedemptionTransaction.
  assert (Hsome : (length (before ++ request :: after) <? 1)%nat = false).
  { rewrite length_app. simpl. apply Nat.ltb_ge. lia. }
  rewrite Hsome, Hkey. simpl andThen at 1. rewrite Hring. simpl andThen at 1.
  rewrite Hcoin. simpl andThen at 1.
  unfold prepareRedemption. rewrite processRequests_app.
  destruct (processRequests_accepted before
              {| loopTransaction := newMtx; txFee := 0; totalOutputValue := 0 |} Hbefore)
    as (st' & ->).
  cbn [andThen processRequests]. rewrite processRequest_eq.
  rewrite Hn, Hf, Ha. cbn [andThen]. rewrite Hstd. reflexivity.
Qed.

End Create.
End RedemptionFacts.
Module RedemptionWitness.
Import DepositSweep Redemption RedemptionFacts RedemptionScenario.

Section Witness.
#[local] Existing Instance modelBcoin.

(** Two requests of 300000 and 200000 satoshi from a main UTXO of 1000000:
    outputs of 297400 and 197800, a fee of 3000 and 501800 of change. *)
Lemma redemption_outputs_and_fee_witness :
  (exists raw,
      createRedemptionTransaction walletKey mainUtxo [request1; request2] true = Done raw) /\
  fold_right Z.add 0 [297400; 197800; 501800] + 3000 = mainValue mainUtxo.
Proof.
  pose proof (redemption_outputs_and_fee walletKey mainUtxo [request1; request2] true
                {| privateKey := JsModel.bytesOfString walletKey; compressed := true |}
                (JsModel.toHexString
                   (JsModel.p2wpkhOutputOfHash
                      (JsModel.publicKeyHash (hex "02" ++ JsModel.bytesOfString walletKey))))
                (mainTransactionHex mainUtxo, mainOutputIndex mainUtxo)
                [ {| outputScript := hex (address request1); outputValue := 297400 |};
                  {| outputScript := hex (address request2); outputValue := 197800 |} ])
    as H.
  cbv zeta in H.
  destruct H as (_ & _ & Hchange).
  - discriminate.
  - reflexivity.
  - reflexivity.
  - reflexivity.
  - repeat constructor;
      (eexists; split; [vm_compute; reflexivity|];
       split; [vm_compute; reflexivity|];
       split; [vm_compute; reflexivity|];
       split; [vm_compute; reflexivity|];
       split; [vm_compute; reflexivity|];
       split; [vm_compute; reflexivity|];
       split; [vm_compute; reflexivity|];
       split; vm_compute; discriminate).
  - vm_compute. discriminate.
  - split; vm_compute; discriminate.
  - destruct (Hchange (hex (JsModel.toHexString
                 (JsModel.p2wpkhOutputOfHash
                    (JsModel.publicKeyHash (hex "02" ++ JsModel.bytesOfString walletKey))))))
      as [Hcreate Hbalance].
    + vm_compute. reflexivity.
    + reflexivity.
    + vm_compute. reflexivity.
    + split; [|exact Hbalance].
      eexists. rewrite Hcreate. vm_compute. reflexivity.
Defined.

(** A request to a script that is none of the four standard kinds, after a
    request that is accepted. *)
Lemma redemption_rejects_witness :
  createRedemptionTransaction walletKey mainUtxo [request1; requestOdd; request2] true
    = Throw "Redemption address must be P2PKH, P2WPKH, P2SH or P2WSH".
Proof.
  refine (proj2 (redemption_rejects walletKey mainUtxo true)
                {| privateKey := JsModel.bytesOfString walletKey; compressed := true |}
                _ (mainTransactionHex mainUtxo, mainOutputIndex mainUtxo)
                [request1] requestOdd [request2] 99000 1000 (hex (address requestOdd))
                _ _ _ _ _ _ _ _).
  - reflexivity.
  - reflexivity.
  - reflexivity.
  - repeat constructor.
    eexists _, _, _, _. split; [vm_compute; reflexivity|].
    split; [vm_compute; reflexivity|]. split; [vm_compute; reflexivity|].
    split; [vm_compute; reflexivity|]. split; vm_compute; reflexivity.
  - vm_compute. reflexivity.
  - vm_compute. reflexivity.
  - vm_compute. reflexivity.
  - vm_compute. reflexivity.
Defined.

End Witness.
End RedemptionWitness.
Section BankAccounting.
Context {L : SpvLibrary}.

Lemma sumZ_Forall2_le (amounts credits : list Z) :
  List.Forall2 (fun a c => 0 <= c <= a) amounts credits ->
  0 <= sumZ credits <= sumZ amounts.
Proof. induction 1 as [|a c l l' Hac _ IH]; simpl; lia. Qed.

(** The credits of one call are covered by the amounts of the deposits it
    credits, which are revealed ones. *)
Lemma creditsOf_covered (s : State) (ec : Env * Call) :
  0 <= sumZ (creditsOf (fst ec) s (snd ec))
    <= sumZ (List.map (amountOf (deposits s)) (creditedBy (fst ec) s (snd ec))) /\
  (forall k, In k (creditedBy (fst ec) s (snd ec)) ->
             revealedAt (getDeposit (deposits s) k) <> 0).
Proof.
  destruct ec as [env c]. simpl fst. simpl snd.
  destruct c as [v t | ftx r | stx p prev]; simpl;
    try (split; [lia | intros k []]).
  destruct (sweep env s stx p prev) as [[s' [ds cs]]|e] eqn:H; simpl;
    [|split; [lia | intros k []]].
  split.
  - destruct (sweep_Ok _ _ _ _ _ _ _ _ H)
      as (wallet & outputValue & resolved & s1 & inputsValue & amounts
          & _ & _ & _ & Hin & Hle & Hne & Hred & _).
    pose proof (processSweepTxInputs_summary _ _ _ _ _ _ _ _ Hin)
      as ((pad & Ha & _) & _).
    destruct (reduceByFeeShare_Ok _ _ _ Hred) as [Hc Hall].
    assert (HN : 1 <= Z.of_nat (length amounts))
      by (destruct amounts; [contradiction | simpl length; lia]).
    assert (Hshare : 0 <= (inputsValue - outputValue) / Z.of_nat (length amounts))
      by (apply Z.div_pos; lia).
    pose proof (sumZ_Forall2_le _ _
                  (eq_ind_r (fun cs' => List.Forall2 _ amounts cs')
                            (Forall2_map_sub _ _ Hshare Hall) Hc)) as Hsum.
    rewrite Ha, sumZ_app, sumZ_replicate_0 in Hsum. lia.
  - intros k Hk. unfold sweptDepositKeys in Hk.
    apply depositKeysOf_revealed in Hk as [_ Hrev].
    unfold isRevealed in Hrev. apply negb_true_iff, Z.eqb_neq in Hrev. exact Hrev.
Qed.

Lemma map_amountOf_frozen (calls : list (Env * Call)) (s : State) (keys : list Z) :
  (forall k, In k keys -> revealedAt (getDeposit (deposits s) k) <> 0) ->
  List.map (amountOf (deposits (run s calls))) keys
  = List.map (amountOf (deposits s)) keys.
Proof.
  intros Hrev. apply map_ext_in. intros k Hk. unfold amountOf.
  destruct (run_revealed_frozen calls s k (Hrev k Hk)) as (_ & Ha & _). exact Ha.
Qed.

Lemma bankCredits_covered (calls : list (Env * Call)) (s : State) :
  0 <= sumZ (bankCredits s calls)
    <= sumZ (List.map (amountOf (deposits (run s calls))) (creditLog s calls)).
Proof.
  revert s. induction calls as [|ec calls IH]; intros s.
  - simpl. lia.
  - cbn [bankCredits creditLog]. rewrite List.map_app, !sumZ_app.
    destruct (creditsOf_covered s ec) as [Hhead Hrev].
    specialize (IH (step s ec)).
    change (run s (ec :: calls)) with (run (step s ec) calls).
    assert (Hfrozen :
              List.map (amountOf (deposits (run s (ec :: calls))))
                       (creditedBy (fst ec) s (snd ec))
              = List.map (amountOf (deposits s)) (creditedBy (fst ec) s (snd ec)))
      by (apply map_amountOf_frozen; exact Hrev).
    change (run s (ec :: calls)) with (run (step s ec) calls) in Hfrozen.
    rewrite Hfrozen. lia.
Qed.

(** X21.  What the Bank is credited is backed by deposits.  Along any
    sequence of calls on a freshly deployed contract, none at a timestamp
    that is a multiple of [2^32], the amounts passed to the Bank add up to
    at most the registered amounts of the deposits credited; and these are
    distinct deposits, each revealed and marked as swept at the end. *)
Theorem bank_credits_backed_by_deposits (owner_ : Z) (calls : list (Env * Call)) :
  (forall ec, In ec calls -> uint32 (timestamp (fst ec)) <> 0) ->
  let final := run (initialState owner_) calls in
  let keys := creditLog (initialState owner_) calls in
  List.NoDup keys /\
  List.Forall (fun k => isRevealed (deposits final) k = true /\
                        isSwept (deposits final) k = true) keys /\
  0 <= sumZ (bankCredits (initialState owner_) calls)
    <= sumZ (List.map (amountOf (deposits final)) keys).
Proof.
  intros Hts final keys.
  destruct (creditLog_spec calls (initialState owner_) Hts) as (Hnd & _ & Hswept).
  split; [exact Hnd|]. split; [|apply bankCredits_covered].
  apply List.Forall_forall. intros k Hk.
  pose proof (Hswept k Hk) as Hs.
  pose proof (run_sweptAreRevealed calls _ (initialState_sweptAreRevealed owner_) k Hs) as Hr.
  unfold isRevealed, isSwept. split; apply negb_true_iff, Z.eqb_neq; assumption.
Qed.

End BankAccounting.
Section BankAccountingWitness.
Import Scenario.

(** The scenario's two sweeps: four deposits credited in all. *)
Lemma bank_credits_backed_by_deposits_witness :
  let calls := history1 ++ history2 ++ [(env, CallSweep sweepTx2 sweepProof2 previousSweep1)] in
  let final := run (L := modelSpv) (initialState 0xa11ce) calls in
  let keys := creditLog (L := modelSpv) (initialState 0xa11ce) calls in
  length keys = 4%nat /\
  List.NoDup keys /\
  List.Forall (fun k => isRevealed (deposits final) k = true /\
                        isSwept (deposits final) k = true) keys /\
  0 <= sumZ (bankCredits (L := modelSpv) (initialState 0xa11ce) calls)
    <= sumZ (List.map (amountOf (deposits final)) keys).
Proof.
  cbv zeta. split; [vm_compute; reflexivity|].
  apply (bank_credits_backed_by_deposits (L := modelSpv) 0xa11ce
           (history1 ++ history2 ++ [(env, CallSweep sweepTx2 sweepProof2 previousSweep1)])).
  intros ec Hin. simpl in Hin.
  repeat (destruct Hin as [<- | Hin]; [vm_compute; discriminate|]). destruct Hin.
Defined.

End BankAccountingWitness.
(** ** DKG results for the wallet registry *)

Module EcdsaDkgFacts.
Import DepositSweep EcdsaDkg.

Lemma membersNotListed_nil (position : Z) (members_ : list Z) :
  membersNotListed position members_ [] = members_.
Proof.
  revert position. induction members_ as [|m rest IH]; intros position; simpl.
  - reflexivity.
  - rewrite IH. reflexivity.
Qed.

(** An index before the first position selects nobody. *)
Lemma membersNotListed_skip (members_ : list Z) (position index : Z) (listed : list Z) :
  index < position ->
  membersNotListed position members_ (index :: listed)
  = membersNotListed position members_ listed.
Proof.
  revert position. induction members_ as [|m rest IH]; intros position Hlt; simpl.
  - reflexivity.
  - replace (position =? index) with false by (symmetry; apply Z.eqb_neq; lia).
    simpl. rewrite IH by lia. reflexivity.
Qed.

Lemma existsb_above (position : Z) (listed : list Z) :
  List.Forall (fun index => position < index) listed ->
  existsb (Z.eqb position) listed = false.
Proof.
  induction 1 as [|index rest Hlt _ IH]; simpl.
  - reflexivity.
  - rewrite IH. replace (position =? index) with false by (symmetry; apply Z.eqb_neq; lia).
    reflexivity.
Qed.

(** Members before every listed position are all kept. *)
Lemma membersNotListed_prefix (before after : list Z) (position : Z) (listed : list Z) :
  List.Forall (fun index => position + Z.of_nat (length before) <= index) listed ->
  membersNotListed position (before ++ after) listed
  = before ++ membersNotListed (position + Z.of_nat (length before)) after listed.
Proof.
  revert position. induction before as [|m rest IH]; intros position Hall.
  - simpl. rewrite Z.add_0_r. reflexivity.
  - simpl app. simpl membersNotListed. rewrite existsb_above.
    + rewrite IH.
      * simpl length. rewrite Nat2Z.inj_succ.
        replace (position + 1 + Z.of_nat (length rest))
          with (position + Z.succ (Z.of_nat (length rest))) by lia.
        reflexivity.
      * eapply List.Forall_impl; [|exact Hall]. simpl. intros index Hle.
        simpl length in Hle. lia.
    + eapply List.Forall_impl; [|exact Hall]. simpl. intros index Hle.
      simpl length in Hle. lia.
Qed.

Lemma increasingWithin_bounds (indices : list Z) (low high : Z) :
  increasingWithin low high indices ->
  List.Forall (fun index => low < index <= high) indices.
Proof.
  revert low. induction indices as [|index rest IH]; intros low H; constructor.
  - exact (proj1 H).
  - destruct H as [Hindex Hrest]. apply IH in Hrest.
    eapply List.Forall_impl; [|exact Hrest]. simpl. lia.
Qed.

Lemma increasingWithin_length (indices : list Z) (low high : Z) :
  low <= high -> increasingWithin low high indices ->
  Z.of_nat (length indices) <= high - low.
Proof.
  revert low. induction indices as [|index rest IH]; intros low Hle H; simpl length.
  - simpl. lia.
  - destruct H as [Hindex Hrest]. apply IH in Hrest; lia.
Qed.

Lemma increasingWithin_weaken (indices : list Z) (low low' high : Z) :
  low' <= low -> increasingWithin low high indices -> increasingWithin low' high indices.
Proof.
  intros Hle H. destruct indices as [|index rest]; [exact I|].
  destruct H as [Hindex Hrest]. split; [lia|exact Hrest].
Qed.

(** Removing one element at a position within the array. *)
Lemma splice1_middle (before after : list Z) (removed : Z) :
  splice1 (before ++ removed :: after) (Z.of_nat (length before)) = before ++ after.
Proof.
  unfold splice1.
  replace (Z.of_nat (length before) <? 0) with false by (symmetry; apply Z.ltb_ge; lia).
  rewrite length_app. simpl length.
  rewrite Z.min_l by lia. rewrite Nat2Z.id.
  induction before as [|m rest IH]; simpl.
  - reflexivity.
  - f_equal. exact IH.
Qed.

(** The loop from round [i] on: with [kept] the members before the
    positions still listed, what is left of the other members is what the
    listed positions do not select. *)
Lemma removeMisbehaved_spec (indices : list Z) (i : Z) (kept rest : list Z) :
  0 <= i ->
  increasingWithin (Z.of_nat (length kept) + i)
                   (Z.of_nat (length kept) + i + Z.of_nat (length rest)) indices ->
  removeMisbehaved i indices (kept ++ rest)
  = kept ++ membersNotListed (Z.of_nat (length kept) + i + 1) rest indices.
Proof.
  revert i kept rest.
  induction indices as [|index indices' IH]; intros i kept rest Hi Hinc.
  - simpl. rewrite membersNotListed_nil. reflexivity.
  - destruct Hinc as [Hindex Hrest].
    pose proof (increasingWithin_bounds _ _ _ Hrest) as Hbounds.
    simpl removeMisbehaved.
    replace (index =? 0) with false by (symmetry; apply Z.eqb_neq; lia).
    simpl negb. cbv iota.
    set (offset := Z.to_nat (index - i - 1 - Z.of_nat (length kept))).
    assert (Hoffset : (offset < length rest)%nat) by (unfold offset; lia).
    destruct (lookup_lt_is_Some_2 rest offset Hoffset) as [removed Hremoved].
    pose proof (take_drop_middle rest offset removed Hremoved) as Hsplit.
    set (before := take offset rest) in *.
    set (after := drop (S offset) rest) in *.
    assert (Hbefore : length before = offset)
      by (unfold before; rewrite length_take; lia).
    assert (Hlen : length rest = (offset + S (length after))%nat).
    { rewrite <- Hsplit at 1. rewrite length_app. simpl. lia. }
    rewrite <- Hsplit.
    replace (kept ++ before ++ removed :: after)
      with ((kept ++ before) ++ removed :: after) by (rewrite <- app_assoc; reflexivity).
    replace (index - i - 1) with (Z.of_nat (length (kept ++ before)))
      by (rewrite length_app, Hbefore; unfold offset; lia).
    rewrite splice1_middle.
    rewrite IH.
    + rewrite <- app_assoc. f_equal.
      rewrite membersNotListed_prefix.
      * f_equal. simpl membersNotListed.
        replace (Z.of_nat (length kept) + i + 1 + Z.of_nat (length before)) with index
          by (rewrite Hbefore; unfold offset; lia).
        simpl existsb. rewrite Z.eqb_refl. simpl orb. cbv iota.
        rewrite membersNotListed_skip by lia.
        f_equal. rewrite length_app, Hbefore. unfold offset. lia.
      * constructor.
        -- rewrite Hbefore. unfold offset. lia.
        -- eapply List.Forall_impl; [|exact Hbounds]. simpl. intros x Hx.
           rewrite Hbefore. unfold offset. lia.
    + lia.
    + rewrite length_app, Hbefore.
      replace (Z.of_nat (length kept + offset) + (i + 1)) with index by (unfold offset; lia).
      replace (index + Z.of_nat (length after))
        with (Z.of_nat (length kept) + i + Z.of_nat (length rest))
        by (rewrite Hlen; unfold offset; lia).
      exact Hrest.
Qed.

(** As many members are left out as positions are listed. *)
Lemma membersNotListed_length (members_ : list Z) (position : Z) (indices : list Z) :
  increasingWithin (position - 1) (position - 1 + Z.of_nat (length members_)) indices ->
  (length (membersNotListed position members_ indices)
   = length members_ - length indices)%nat.
Proof.
  revert position indices.
  induction members_ as [|m rest IH]; intros position indices Hinc.
  - simpl. reflexivity.
  - simpl membersNotListed.
    destruct indices as [|index indices'].
    + simpl existsb. cbv iota. simpl length. rewrite membersNotListed_nil. lia.
    + destruct Hinc as [Hindex Hrest].
      pose proof (increasingWithin_bounds _ _ _ Hrest) as Hbounds.
      simpl length in Hindex, Hrest.
      simpl existsb.
      destruct (Z.eqb_spec position index) as [->|Hne].
      * simpl orb. cbv iota. rewrite membersNotListed_skip by lia.
        rewrite IH.
        -- simpl length. lia.
        -- replace (index + 1 - 1) with index by lia.
           replace (index + Z.of_nat (length rest))
             with (index - 1 + Z.of_nat (S (length rest))) by lia.
           exact Hrest.
      * simpl orb. rewrite existsb_above.
        -- simpl length. rewrite IH.
           ++ simpl length.
              assert (Z.of_nat (length indices')
                      <= position - 1 + Z.of_nat (S (length rest)) - index)
                by (apply increasingWithin_length; [lia|exact Hrest]).
              lia.
           ++ split; [lia|].
              replace (position + 1 - 1 + Z.of_nat (length rest))
                with (position - 1 + Z.of_nat (S (length rest))) by lia.
              exact Hrest.
        -- eapply List.Forall_impl; [|exact Hbounds]. simpl. lia.
Qed.

Section Facts.
Context {E : Ethers}.

(** X19. [hashDKGMembers], given the positions of misbehaved members
    counted from one, in increasing order and none past the last member,
    hashes the members at the other positions, in their order: as many
    members are left out as positions are given. *)
Theorem misbehaved_members_are_left_out (members_ indices : list Z) :
  increasingWithin 0 (Z.of_nat (length members_)) indices ->
  hashDKGMembers members_ (Some indices)
    = hashUint32Array (membersNotListed 1 members_ indices) /\
  (length (membersNotListed 1 members_ indices)
   = length members_ - length indices)%nat.
Proof.
  intros Hinc. split.
  - unfold hashDKGMembers, activeDkgMembers. f_equal.
    destruct indices as [|index rest].
    + simpl. rewrite membersNotListed_nil. reflexivity.
    + change (0 <? length (index :: rest))%nat with true. cbv iota.
      exact (removeMisbehaved_spec (index :: rest) 0 [] members_ (Z.le_refl 0) Hinc).
  - apply membersNotListed_length. exact Hinc.
Qed.

Lemma signerIndices_seq (i k : nat) :
  List.map (fun j => Z.of_nat j + 1) (seq i k) = List.map Z.of_nat (seq (S i) k).
Proof.
  revert i. induction k as [|k IH]; intros i; simpl.
  - reflexivity.
  - rewrite IH. f_equal. lia.
Qed.

Lemma reachedNumberOfSignatures_true (count n : nat) :
  reachedNumberOfSignatures count n = true ->
  Nat.even n = true /\ count = (n / 2 + 1)%nat.
Proof.
  unfold reachedNumberOfSignatures. intros H. apply Nat.eqb_eq in H.
  assert (Hn : n = (2 * (count - 1))%nat) by lia.
  rewrite Hn. split.
  - rewrite Nat.even_mul. reflexivity.
  - rewrite Nat.mul_comm, Nat.div_mul by lia. lia.
Qed.

Lemma reachedNumberOfSignatures_false (count n : nat) :
  reachedNumberOfSignatures count n = false ->
  Nat.even n = true -> count <> (n / 2 + 1)%nat.
Proof.
  unfold reachedNumberOfSignatures. intros H Heven Hcount. apply Nat.eqb_neq in H.
  apply Nat.even_spec in Heven. destruct Heven as [m ->].
  rewrite Nat.mul_comm, Nat.div_mul in Hcount by lia. lia.
Qed.

Lemma signingLoop_Done (n : nat) (resultHash : string) (signers : list Operator)
    (i : nat) (st st' : SigningLoop) :
  (Nat.even n = true -> (length (loopSignatures st) <= n / 2 + 1)%nat) ->
  signingLoop n resultHash i signers st = Done st' ->
  let k := signingNext n (length (loopSignatures st)) (length signers) in
  loopMembers st' = loopMembers st ++ List.map operatorId signers /\
  loopSigningMembersIndices st'
    = loopSigningMembersIndices st ++ List.map Z.of_nat (seq (S i) k) /\
  exists signed,
    List.Forall2 (fun operator signature =>
                    signMessage (operatorSigner operator) resultHash = Done signature)
                 (firstn k signers) signed /\
    loopSignatures st' = loopSignatures st ++ signed.
Proof.
  revert i st.
  induction signers as [|operator rest IH]; intros i st Hcount Hloop k.
  - simpl in Hloop. injection Hloop as <-.
    assert (Hk : k = 0%nat)
      by (unfold k, signingNext; simpl length; destruct (Nat.even n); reflexivity).
    rewrite Hk. simpl. rewrite !app_nil_r.
    split; [reflexivity|]. split; [reflexivity|].
    exists []. split; [constructor|]. rewrite app_nil_r. reflexivity.
  - simpl in Hloop.
    destruct (reachedNumberOfSignatures (length (loopSignatures st)) n) eqn:Hreached.
    + destruct (reachedNumberOfSignatures_true _ _ Hreached) as [Heven Hfull].
      apply IH in Hloop; [|cbn [loopSignatures]; intros _; lia].
      cbn [loopSignatures loopMembers loopSigningMembersIndices] in Hloop. destruct Hloop as (Hm & Hi & signed & Hsigned & Hs).
      assert (Hk : k = 0%nat).
      { unfold k, signingNext. rewrite Heven, Hfull. rewrite Nat.sub_diag.
        apply Nat.min_0_r. }
      assert (Hk' : signingNext n (length (loopSignatures st)) (length rest) = 0%nat).
      { unfold signingNext. rewrite Heven, Hfull. rewrite Nat.sub_diag.
        apply Nat.min_0_r. }
      rewrite Hk' in Hi, Hsigned. rewrite Hk.
      split; [rewrite Hm, <- app_assoc; reflexivity|].
      split; [exact Hi|].
      exists signed. split; [exact Hsigned|exact Hs].
    + destruct (signMessage (operatorSigner operator) resultHash) as [signature|message]
        eqn:Hsign; cbn [andThen] in Hloop; [|discriminate].
      assert (Hk : k = S (signingNext n (S (length (loopSignatures st))) (length rest))).
      { unfold k, signingNext. simpl length.
        destruct (Nat.even n) eqn:Heven; [|reflexivity].
        pose proof (Hcount eq_refl).
        pose proof (reachedNumberOfSignatures_false _ _ Hreached Heven).
        lia. }
      apply IH in Hloop.
      * cbn [loopSignatures loopMembers loopSigningMembersIndices] in Hloop.
        rewrite length_app in Hloop. simpl length in Hloop.
        rewrite Nat.add_1_r in Hloop.
        destruct Hloop as (Hm & Hi & signed & Hsigned & Hs).
        rewrite Hk.
        split; [rewrite Hm, <- app_assoc; reflexivity|].
        split.
        -- rewrite Hi, <- app_assoc. simpl. do 3 f_equal. lia.
        -- exists (signature :: signed). split.
           ++ simpl. constructor; [exact Hsign|exact Hsigned].
           ++ rewrite Hs, <- app_assoc. reflexivity.
      * cbn [loopSignatures]. rewrite length_app. simpl length. intros Heven.
        pose proof (Hcount Heven).
        pose proof (reachedNumberOfSignatures_false _ _ Hreached Heven).
        lia.
Qed.

(** X20. A DKG result that [signDkgResult] returns lists every operator
    as a member and is signed by the first operators only: by one more
    than half of them when their number is even, and by all of them when
    it is odd, since half of an odd number plus one is no number of
    signatures.  Each signature is over the hash of the group key, the
    misbehaved indices and the start block, and the members hash is that
    of [hashDKGMembers]. *)
Theorem dkg_result_signers (signers : list Operator) (groupPublicKey : bytes)
    (misbehaved : list Z) (startBlock submitterIndex : Z)
    (dkgResult : DkgResult) (indices : list Z) (signaturesBytes : string) :
  signDkgResult signers groupPublicKey misbehaved startBlock submitterIndex
    = Done (dkgResult, indices, signaturesBytes) ->
  let k := signingCount (length signers) in
  members dkgResult = List.map operatorId signers /\
  signingMembersIndices dkgResult = List.map Z.of_nat (seq 1 k) /\
  indices = signingMembersIndices dkgResult /\
  signaturesBytes = dkgSignatures dkgResult /\
  submitterMemberIndex dkgResult = submitterIndex /\
  groupPubKey dkgResult = groupPublicKey /\
  misbehavedMembersIndices dkgResult = misbehaved /\
  hashDKGMembers (List.map operatorId signers) (Some misbehaved)
    = Done (membersHash dkgResult) /\
  exists resultHash signed,
    hashDkgResult groupPublicKey misbehaved startBlock = Done resultHash /\
    List.Forall2 (fun operator signature =>
                    signMessage (operatorSigner operator) resultHash = Done signature)
                 (firstn k signers) signed /\
    dkgSignatures dkgResult = hexConcat signed.
Proof.
  intros Hsign k. unfold signDkgResult in Hsign.
  destruct (hashDkgResult groupPublicKey misbehaved startBlock) as [resultHash|?]
    eqn:Hhash; simpl in Hsign; [|discriminate].
  destruct (signingLoop (length signers) resultHash 0 signers _) as [st|?] eqn:Hloop;
    simpl in Hsign; [|discriminate].
  apply signingLoop_Done in Hloop; [|cbn [loopSignatures length]; lia].
  cbn [loopSignatures loopMembers loopSigningMembersIndices length app] in Hloop. destruct Hloop as (Hm & Hi & signed & Hsigned & Hs).
  assert (Hk : signingNext (length signers) 0 (length signers) = k).
  { unfold signingNext, k, signingCount. rewrite Nat.sub_0_r. reflexivity. }
  rewrite Hk in Hi, Hsigned.
  destruct (hashDKGMembers (loopMembers st) (Some misbehaved)) as [membersHash_|?]
    eqn:Hmembers; simpl in Hsign; [|discriminate].
  injection Hsign as <- <- <-. simpl.
  rewrite Hm in Hmembers.
  repeat split; try assumption; try reflexivity.
  exists resultHash, signed. rewrite Hs. repeat split; assumption.
Qed.

End Facts.
End EcdsaDkgFacts.
Module EcdsaDkgWitness.
Import DepositSweep EcdsaDkg EcdsaDkgFacts DkgScenario.

Section Witness.
#[local] Existing Instance modelEthers.

(** Of five members, the second and the fourth misbehaved. *)
Lemma misbehaved_members_are_left_out_witness :
  hashDKGMembers [11; 12; 13; 14; 15] (Some [2; 4]) = hashUint32Array [11; 13; 15] /\
  length [11; 13; 15] = (5 - 2)%nat.
Proof.
  apply (misbehaved_members_are_left_out [11; 12; 13; 14; 15] [2; 4]).
  simpl. lia.
Defined.

(** Three of four operators sign, and all of five. *)
Lemma dkg_result_signers_witness :
  (exists dkgResult indices signaturesBytes,
      signDkgResult groupOfFour (hex "aabb") [] 100 1
        = Done (dkgResult, indices, signaturesBytes) /\
      members dkgResult = [11; 12; 13; 14] /\
      signingMembersIndices dkgResult = [1; 2; 3]) /\
  (exists dkgResult indices signaturesBytes,
      signDkgResult groupOfFive (hex "aabb") [] 100 1
        = Done (dkgResult, indices, signaturesBytes) /\
      members dkgResult = [11; 12; 13; 14; 15] /\
      signingMembersIndices dkgResult = [1; 2; 3; 4; 5]).
Proof.
  split.
  - eexists _, _, _. split; [vm_compute; reflexivity|].
    match goal with
    | |- members ?r = _ /\ _ =>
        destruct (dkg_result_signers groupOfFour (hex "aabb") [] 100 1 r
                    (signingMembersIndices r) (dkgSignatures r))
          as (Hmembers & Hindices & _)
    end.
    + vm_compute. reflexivity.
    + split; [exact Hmembers|exact Hindices].
  - eexists _, _, _. split; [vm_compute; reflexivity|].
    match goal with
    | |- members ?r = _ /\ _ =>
        destruct (dkg_result_signers groupOfFive (hex "aabb") [] 100 1 r
                    (signingMembersIndices r) (dkgSignatures r))
          as (Hmembers & Hindices & _)
    end.
    + vm_compute. reflexivity.
    + split; [exact Hmembers|exact Hindices].
Defined.

End Witness.
End EcdsaDkgWitness.
